(** * The AJAX tutorial corpus: a shallow embedding of its request helpers

    The repository is a teaching corpus.  Its JavaScript lives in
    [ajax/ajax-complete-guide.js] (module [Guide] below), in the reference
    solutions (module [Solutions]), in the challenge templates (module
    [Challenges]) and in the pattern sheet (module [Patterns]).

    The embedding keeps the shape of the source.  An [async] function
    that runs alone is a computation in a state-and-exception monad over
    the observable world: the clock, the log of [fetch] calls, the log of
    [setTimeout] delays, the set of consumed response bodies and the
    cache [Map].  The network is a scripted transport.  The class whose
    calls overlap ([AuthAPI]) is a transition system over events.  Calls
    of [console.log] have no effect on any result and are left out;
    numbers are integers, and URLs and keys are strings. *)

From stdpp Require Import gmap strings list fin_maps.
From Stdlib Require Import ZArith Lia DecimalString.

Set Warnings "-register-all".

(** ** JavaScript values, errors and string helpers *)

Module Js.

(** The values the snippets handle: JSON data, [undefined], and the
    [AbortSignal] a caller may put in a [fetch] options object.  A signal is
    described by the instant at which its controller aborts it, if ever. *)
Inductive value :=
| VUndefined
| VNull
| VBool (b : bool)
| VNum (n : Z)
| VStr (s : string)
| VArr (items : list value)
| VObj (fields : list (string * value))
| VSignal (abortAt : option Z).

(** What a [throw] carries: an [Error] object (with its [name] and
    [message]) or, for [throw lastError] on an unset variable, a plain
    value.  The [catch] blocks of the snippets read [name] and [message]
    of [Error] objects only. *)
Inductive exn :=
| JsError (name message : string)
| Thrown (v : value).

Definition error_name (e : exn) : string :=
  match e with JsError n _ => n | Thrown _ => "" end.

Definition error_message (e : exn) : string :=
  match e with JsError _ m => m | Thrown _ => "" end.

(** How a promise settles. *)
Inductive outcome (A : Type) :=
| Fulfilled (a : A)
| Rejected (e : exn).
Arguments Fulfilled {A} a.
Arguments Rejected {A} e.

Definition is_fulfilled {A} (o : outcome A) : bool :=
  match o with Fulfilled _ => true | Rejected _ => false end.

(** [String(n)] for an integer. *)
Definition Z_to_string (n : Z) : string := NilZero.string_of_int (Z.to_int n).

Definition nat_to_string (n : nat) : string := Z_to_string (Z.of_nat n).

(** [Array.prototype.join]. *)
Fixpoint join (sep : string) (parts : list string) : string :=
  match parts with
  | [] => ""
  | [p] => p
  | p :: rest => p +:+ sep +:+ join sep rest
  end.

(** The string a template literal [`${v}`] inserts. *)
Fixpoint to_string (v : value) : string :=
  match v with
  | VUndefined => "undefined"
  | VNull => "null"
  | VBool true => "true"
  | VBool false => "false"
  | VNum n => Z_to_string n
  | VStr s => s
  | VArr items =>
      join "," (map (fun x => match x with
                              | VUndefined | VNull => ""
                              | _ => to_string x
                              end) items)
  | VObj _ => "[object Object]"
  | VSignal _ => "[object AbortSignal]"
  end.

(** JavaScript truthiness, for [!x], [a || b] and [if (x)]. *)
Definition truthy (v : value) : bool :=
  match v with
  | VUndefined | VNull => false
  | VBool b => b
  | VNum n => negb (n =? 0)%Z
  | VStr s => negb (String.eqb s "")
  | _ => true
  end.

(** [a || b]. *)
Definition js_or (a b : value) : value := if truthy a then a else b.

Fixpoint assoc (key : string) (fields : list (string * value)) : option value :=
  match fields with
  | [] => None
  | (k, v) :: rest => if String.eqb k key then Some v else assoc key rest
  end.

(** Property read [v.key]: a [TypeError] on [undefined] and [null],
    the field of an object, [length] of an array or string, and
    [undefined] for anything else. *)
Definition get_prop (v : value) (key : string) : outcome value :=
  match v with
  | VUndefined | VNull =>
      Rejected (JsError "TypeError"
                  ("Cannot read properties of " +:+ to_string v +:+
                   " (reading '" +:+ key +:+ "')"))
  | VObj fields => Fulfilled (default VUndefined (assoc key fields))
  | VArr items =>
      if String.eqb key "length" then Fulfilled (VNum (Z.of_nat (length items)))
      else Fulfilled VUndefined
  | VStr s =>
      if String.eqb key "length" then Fulfilled (VNum (Z.of_nat (String.length s)))
      else Fulfilled VUndefined
  | _ => Fulfilled VUndefined
  end.

(** Indexed read [v[i]]. *)
Definition get_index (v : value) (i : nat) : outcome value :=
  match v with
  | VUndefined | VNull =>
      Rejected (JsError "TypeError"
                  ("Cannot read properties of " +:+ to_string v +:+
                   " (reading '" +:+ nat_to_string i +:+ "')"))
  | VArr items => Fulfilled (default VUndefined (items !! i))
  | VObj fields => Fulfilled (default VUndefined (assoc (nat_to_string i) fields))
  | VStr s =>
      Fulfilled (match String.get i s with
                 | Some c => VStr (String c EmptyString)
                 | None => VUndefined
                 end)
  | _ => Fulfilled VUndefined
  end.

(** [{...o, key: v}]: the key keeps its place when [o] has it already and
    is added at the end otherwise. *)
Fixpoint set_field (key : string) (v : value) (fields : list (string * value))
  : list (string * value) :=
  match fields with
  | [] => [(key, v)]
  | (k, x) :: rest =>
      if String.eqb k key then (k, v) :: rest else (k, x) :: set_field key v rest
  end.

(** The own enumerable properties a spread [...o] copies. *)
Definition spread (o : value) : list (string * value) :=
  match o with VObj fields => fields | _ => [] end.

(** [{...base, ...extra}]. *)
Definition spread_into (base extra : list (string * value)) : list (string * value) :=
  fold_left (fun acc kv => set_field kv.1 kv.2 acc) extra base.

(** [s.includes(sub)]. *)
Fixpoint includes (s sub : string) : bool :=
  String.prefix sub s ||
  match s with
  | EmptyString => false
  | String _ rest => includes rest sub
  end.

(** *** [JSON.stringify] *)

Definition dquote : string := String (Ascii.ascii_of_nat 34) EmptyString.
Definition backslash : string := String (Ascii.ascii_of_nat 92) EmptyString.

Definition hex_digit (n : nat) : string :=
  String (Ascii.ascii_of_nat (if n <? 10 then 48 + n else 87 + n)) EmptyString.

Definition escape_char (c : Ascii.ascii) : string :=
  let n := Ascii.nat_of_ascii c in
  if n =? 34 then backslash +:+ dquote
  else if n =? 92 then backslash +:+ backslash
  else if n =? 8 then backslash +:+ "b"
  else if n =? 9 then backslash +:+ "t"
  else if n =? 10 then backslash +:+ "n"
  else if n =? 12 then backslash +:+ "f"
  else if n =? 13 then backslash +:+ "r"
  else if n <? 32 then backslash +:+ "u00" +:+ hex_digit (n / 16) +:+ hex_digit (n mod 16)
  else String c EmptyString.

Fixpoint escape (s : string) : string :=
  match s with
  | EmptyString => EmptyString
  | String c rest => escape_char c +:+ escape rest
  end.

Definition quote (s : string) : string := dquote +:+ escape s +:+ dquote.

(** [JSON.stringify(v)]; [None] stands for the [undefined] it returns on
    [undefined].  An [AbortSignal] has no own enumerable property. *)
Fixpoint JSON_stringify (v : value) : option string :=
  match v with
  | VUndefined => None
  | VNull => Some "null"
  | VBool true => Some "true"
  | VBool false => Some "false"
  | VNum n => Some (Z_to_string n)
  | VStr s => Some (quote s)
  | VArr items =>
      Some ("[" +:+ join "," (map (fun x => default "null" (JSON_stringify x)) items) +:+ "]")
  | VObj fields =>
      Some ("{" +:+
            join "," (omap (fun kv => match JSON_stringify kv.2 with
                                      | Some s => Some (quote kv.1 +:+ ":" +:+ s)
                                      | None => None
                                      end) fields) +:+ "}")
  | VSignal _ => Some "{}"
  end.

(** [`${JSON.stringify(v)}`]. *)
Definition stringified (v : value) : string :=
  default "undefined" (JSON_stringify v).

(** A parameter default [options = {}]. *)
Definition or_empty_object (o : value) : value :=
  match o with VUndefined => VObj [] | _ => o end.

(** Evaluation in sequence of expressions that may throw. *)
Definition and_then {A B} (o : outcome A) (k : A -> outcome B) : outcome B :=
  match o with
  | Fulfilled a => k a
  | Rejected e => Rejected e
  end.

(** [const { key } = v]: a [TypeError] on [undefined] and [null]. *)
Definition destructure (v : value) (key : string) : outcome value :=
  match v with
  | VUndefined | VNull =>
      Rejected (JsError "TypeError"
                  ("Cannot destructure property '" +:+ key +:+
                   "' of '(intermediate value)' as it is " +:+ to_string v +:+ "."))
  | _ => get_prop v key
  end.

(** The elements a spread [...v] in an argument list yields: those of an
    array, the characters of a string, and a [TypeError] for a value that
    is not iterable. *)
Definition iterate (v : value) : outcome (list value) :=
  match v with
  | VArr items => Fulfilled items
  | VStr s => Fulfilled (map (fun c => VStr (String c EmptyString)) (String.list_ascii_of_string s))
  | _ =>
      Rejected (JsError "TypeError"
                  "Spread syntax requires ...iterable[Symbol.iterator] to be a function")
  end.

(** *** [encodeURIComponent] and [trim], on strings of bytes *)

(** The characters [encodeURIComponent] leaves as they are: letters,
    digits and [- _ . ! ~ * ' ( )]. *)
Definition unreserved (c : Ascii.ascii) : bool :=
  let n := Ascii.nat_of_ascii c in
  ((65 <=? n) && (n <=? 90)) || ((97 <=? n) && (n <=? 122)) ||
  ((48 <=? n) && (n <=? 57)) ||
  (n =? 45) || (n =? 95) || (n =? 46) || (n =? 33) || (n =? 126) ||
  (n =? 42) || (n =? 39) || (n =? 40) || (n =? 41).

Definition hex_upper (n : nat) : string :=
  String (Ascii.ascii_of_nat (if n <? 10 then 48 + n else 55 + n)) EmptyString.

(** [encodeURIComponent(s)]: every other byte becomes "%XX". *)
Fixpoint encodeURIComponent (s : string) : string :=
  match s with
  | EmptyString => EmptyString
  | String c rest =>
      (if unreserved c then String c EmptyString
       else "%" +:+ hex_upper (Ascii.nat_of_ascii c / 16) +:+
            hex_upper (Ascii.nat_of_ascii c mod 16)) +:+
      encodeURIComponent rest
  end.

(** The white space [trim] removes: tab, line feed, vertical tab, form
    feed, carriage return and space. *)
Definition is_space (c : Ascii.ascii) : bool :=
  let n := Ascii.nat_of_ascii c in
  ((9 <=? n) && (n <=? 13)) || (n =? 32).

(** [s.trim() === '']. *)
Fixpoint blank (s : string) : bool :=
  match s with
  | EmptyString => true
  | String c rest => is_space c && blank rest
  end.

End Js.

Import Js.

(** ** The platform: [fetch], [Response], timers and the clock *)

Module Net.

(** What [response.json()] finds in the body: a JSON text, or a text the
    parser rejects with the given [SyntaxError] message. *)
Inductive body :=
| JsonBody (v : value)
| BadBody (msg : string).

(** A [Response] object.  [rid] identifies the object, so that reading its
    body twice can be told from reading two bodies. *)
Record Response := mkResponse {
  rid : nat;
  status : Z;
  statusText : string;
  payload : body
}.

(** [response.ok]. *)
Definition ok (r : Response) : bool :=
  ((200 <=? status r) && (status r <=? 299))%Z.

(** What the transport does with one request: it fails at the network
    level ([fetch] then rejects with a [TypeError]), or it answers. *)
Inductive answer :=
| NetworkError (msg : string)
| Respond (code : Z) (text : string) (b : body).

(** The transport: for the [i]-th call of [fetch], made with [url] and
    [options], how long it takes (in ms) and what comes back. *)
Definition World : Type := nat -> string -> value -> Z * answer.

Record entry := mkEntry { data : value; timestamp : Z }.

(** The observable world of a run. *)
Record state := mkState {
  now : Z;                        (* what [Date.now()] returns *)
  calls : list (string * value);  (* the [fetch] calls made, oldest first *)
  sleeps : list Z;                (* the delays waited with [setTimeout] *)
  consumed : gset nat;            (* the responses whose body was read *)
  cache : gmap string entry       (* [this.cache] of the cache under test *)
}.

Definition set_now (t : Z) (s : state) : state :=
  mkState t (calls s) (sleeps s) (consumed s) (cache s).
Definition log_call (c : string * value) (s : state) : state :=
  mkState (now s) (calls s ++ [c]) (sleeps s) (consumed s) (cache s).
Definition log_sleep (d : Z) (s : state) : state :=
  mkState (now s) (calls s) (sleeps s ++ [d]) (consumed s) (cache s).
Definition consume (r : nat) (s : state) : state :=
  mkState (now s) (calls s) (sleeps s) ({[r]} ∪ consumed s) (cache s).
Definition set_cache (c : gmap string entry) (s : state) : state :=
  mkState (now s) (calls s) (sleeps s) (consumed s) c.

(** An [async] computation: it runs from a state to the way its promise
    settles and the state it leaves. *)
Definition M (A : Type) : Type := state -> outcome A * state.

Definition ret {A} (a : A) : M A := fun s => (Fulfilled a, s).

Definition throw {A} (e : exn) : M A := fun s => (Rejected e, s).

Definition bind {A B} (m : M A) (k : A -> M B) : M B := fun s =>
  match m s with
  | (Fulfilled a, s') => k a s'
  | (Rejected e, s') => (Rejected e, s')
  end.

(** [try { m } catch (error) { handler error }]. *)
Definition try_catch {A} (m : M A) (handler : exn -> M A) : M A := fun s =>
  match m s with
  | (Fulfilled a, s') => (Fulfilled a, s')
  | (Rejected e, s') => handler e s'
  end.

(** A synchronous expression that may throw. *)
Definition lift {A} (o : outcome A) : M A := fun s => (o, s).

Definition get_state : M state := fun s => (Fulfilled s, s).

Definition modify (f : state -> state) : M unit := fun s => (Fulfilled tt, f s).

(** [Date.now()]. *)
Definition date_now : M Z := fun s => (Fulfilled (now s), s).

(** The instant at which the [signal] of an options object aborts. *)
Definition signal_of (options : value) : option Z :=
  match options with
  | VObj fields =>
      match assoc "signal" fields with
      | Some (VSignal a) => a
      | _ => None
      end
  | _ => None
  end.

Definition AbortError : exn := JsError "AbortError" "The operation was aborted.".

(** [await fetch(url, options)].  The call is logged; the transport's
    answer arrives after its latency unless the signal aborts first (a tie
    goes to the timer), in which case the promise rejects with an
    [AbortError] at the instant of the abort. *)
Definition fetch (w : World) (url : string) (options : value) : M Response := fun s =>
  let i := length (calls s) in
  let '(latency, a) := w i url options in
  let arrival := (now s + Z.max 0 latency)%Z in
  let s' := log_call (url, options) s in
  match signal_of options with
  | Some t =>
      if (t <=? arrival)%Z then (Rejected AbortError, set_now (Z.max (now s) t) s')
      else
        match a with
        | NetworkError msg => (Rejected (JsError "TypeError" msg), set_now arrival s')
        | Respond code text b => (Fulfilled (mkResponse i code text b), set_now arrival s')
        end
  | None =>
      match a with
      | NetworkError msg => (Rejected (JsError "TypeError" msg), set_now arrival s')
      | Respond code text b => (Fulfilled (mkResponse i code text b), set_now arrival s')
      end
  end.

(** [await response.json()].  A body can be read once: a second read
    rejects with a [TypeError]. *)
Definition json (r : Response) : M value := fun s =>
  if decide (rid r ∈ consumed s)
  then (Rejected (JsError "TypeError" "body stream already read"), s)
  else
    match payload r with
    | JsonBody v => (Fulfilled v, consume (rid r) s)
    | BadBody msg => (Rejected (JsError "SyntaxError" msg), consume (rid r) s)
    end.

(** [await new Promise(resolve => setTimeout(resolve, delay))]. *)
Definition sleep (delay : Z) : M unit := fun s =>
  (Fulfilled tt, set_now (now s + Z.max 0 delay)%Z (log_sleep delay s)).

(** *** [Promise.all] *)

(** The promises of computations that are started together at the instant
    [t0]: each runs from [t0] and settles at the instant its run ends.  The
    computations given to it below call [fetch] once, at their start, so
    that the calls are logged in the order in which the computations are
    started. *)
Fixpoint start_all {A} (t0 : Z) (ms : list (M A)) (s : state)
  : list (outcome A * Z) * state :=
  match ms with
  | [] => ([], s)
  | m :: rest =>
      let '(o, s1) := m (set_now t0 s) in
      let '(os, s2) := start_all t0 rest s1 in
      ((o, now s1) :: os, s2)
  end.

(** The rejection that comes first in time (the earlier promise of the
    list, for two that reject at one instant). *)
Fixpoint first_rejection {A} (rs : list (outcome A * Z)) : option (exn * Z) :=
  match rs with
  | [] => None
  | (Fulfilled _, _) :: rest => first_rejection rest
  | (Rejected e, t) :: rest =>
      match first_rejection rest with
      | Some (e', t') => if (t' <? t)%Z then Some (e', t') else Some (e, t)
      | None => Some (e, t)
      end
  end.

Definition values {A} (rs : list (outcome A * Z)) : list A :=
  omap (fun r => match r.1 with Fulfilled a => Some a | Rejected _ => None end) rs.

(** [await Promise.all(ms)]: the values in the order of the list when
    all fulfil, at the instant the last one does; the first rejection
    otherwise, at its instant.  The logs of the state are those of all the
    runs. *)
Definition Promise_all {A} (ms : list (M A)) : M (list A) := fun s =>
  let '(rs, s') := start_all (now s) ms s in
  match first_rejection rs with
  | Some (e, t) => (Rejected e, set_now t s')
  | None => (Fulfilled (values rs), set_now (fold_right Z.max (now s) (map snd rs)) s')
  end.

End Net.

Import Net.

#[global] Instance M_ret : MRet M := @ret.
#[global] Instance M_bind : MBind M := fun A B k m => bind m k.

(** ** [ajax/ajax-complete-guide.js] *)

Module Guide.

(** [fetch(url).then(r => r.json())]. *)
Definition then_json (w : World) (url : string) : M value :=
  r ← fetch w url VUndefined;
  json r.

(** [parallelRequests()].  The three requests are started together; the
    [catch] block logs the error and the function returns [undefined]. *)
Definition parallelRequests (w : World) : M value :=
  try_catch
    (results ← Promise_all
                 [then_json w "https://jsonplaceholder.typicode.com/users";
                  then_json w "https://jsonplaceholder.typicode.com/posts";
                  then_json w "https://jsonplaceholder.typicode.com/comments"];
     let users := default VUndefined (results !! 0) in
     let posts := default VUndefined (results !! 1) in
     let comments := default VUndefined (results !! 2) in
     ret (VObj [("users", users); ("posts", posts); ("comments", comments)]))
    (fun error => ret VUndefined).

(** [sequentialRequests()].  No status is checked, and the [catch] block
    logs the error: the function then returns [undefined]. *)
Definition sequentialRequests (w : World) : M value :=
  try_catch
    (userResponse ← fetch w "https://jsonplaceholder.typicode.com/users/1" VUndefined;
     user ← json userResponse;
     id ← lift (get_prop user "id");
     postsResponse ← fetch w ("https://jsonplaceholder.typicode.com/posts?userId=" +:+
                              to_string id) VUndefined;
     posts ← json postsResponse;
     first ← lift (get_index posts 0);
     postId ← lift (get_prop first "id");
     commentsResponse ← fetch w ("https://jsonplaceholder.typicode.com/comments?postId=" +:+
                                 to_string postId) VUndefined;
     comments ← json commentsResponse;
     ret (VObj [("user", user); ("posts", posts); ("comments", comments)]))
    (fun error => ret VUndefined).

(** [fetchWithTimeout(url, timeout = 5000)].  The timer aborts the
    function's own controller; the caller has no signal to pass.  The
    [catch] logs and rethrows what it caught. *)
Definition fetchWithTimeout (w : World) (url : string) (timeout : Z) : M value :=
  s ← get_state;
  let signal := VSignal (Some (now s + Z.max 0 timeout)%Z) in
  try_catch
    (response ← fetch w url (VObj [("signal", signal)]);
     json response)
    (fun error => throw error).

(** The [try] block of [fetchWithRetry]: one attempt. *)
Definition try_block (w : World) (url : string) (options : value) : M value :=
  response ← fetch w url options;
  if negb (ok response)
  then throw (JsError "Error" ("HTTP " +:+ Z_to_string (status response)))
  else json response.

(** The [for (let i = 0; i < retries; i++)] loop, with [remaining] the
    number of iterations still allowed ([retries - i]).  Leaving the loop
    returns [undefined]. *)
Fixpoint retry_loop (w : World) (url : string) (options : value) (retries : nat)
    (remaining i : nat) (delay : Z) : M value :=
  match remaining with
  | O => ret VUndefined
  | S remaining' =>
      try_catch (try_block w url options)
        (fun error =>
           if (Z.of_nat i =? Z.of_nat retries - 1)%Z
           then throw error
           else
             sleep delay;;
             retry_loop w url options retries remaining' (S i) (delay * 2)%Z)
  end.

(** [fetchWithRetry(url, options = {}, retries = 3, delay = 1000)]. *)
Definition fetchWithRetry (w : World) (url : string) (options : value)
    (retries : nat) (delay : Z) : M value :=
  retry_loop w url (or_empty_object options) retries retries 0 delay.

(** *** [class RequestCache] ([this.ttl] is [ttl], [this.cache] the
    [cache] of the state) *)
Module RequestCache.

Definition cacheKey (url : string) (options : value) : string :=
  url +:+ stringified options.

(** The part of [fetch] after the cache check. *)
Definition request (w : World) (key url : string) (options : value) : M value :=
  response ← Net.fetch w url options;
  d ← json response;
  t ← date_now;
  modify (fun s => set_cache (<[key := mkEntry d t]> (cache s)) s);;
  ret d.

Definition fetch (w : World) (ttl : Z) (url : string) (options : value) : M value :=
  let options := or_empty_object options in
  let key := cacheKey url options in
  s ← get_state;
  match cache s !! key with
  | Some cached =>
      if (now s - timestamp cached <? ttl)%Z
      then ret (data cached)
      else request w key url options
  | None => request w key url options
  end.

Definition clear : M unit := modify (set_cache ∅).

Definition delete (url : string) : M unit :=
  modify (fun s => set_cache (base.delete url (cache s)) s).

End RequestCache.

(** *** [class AuthService] *)
Module AuthService.

(** The object and the page: [this.token], and the item 'token' of
    [localStorage]. *)
Record service := mkService { token : value; stored : option string }.

Definition baseURL : string := "https://api.example.com".

(** [new AuthService()], on a page whose [localStorage] holds [item]. *)
Definition create (item : option string) : service :=
  mkService (match item with Some t => VStr t | None => VNull end) item.

(** The options of the request of [login]. *)
Definition login_request (email password : value) : value :=
  VObj [("method", VStr "POST");
        ("headers", VObj [("Content-Type", VStr "application/json")]);
        ("body", match JSON_stringify (VObj [("email", email); ("password", password)]) with
                 | Some text => VStr text
                 | None => VUndefined
                 end)].

(** The [try] block of [login], up to the destructuring
    [const { token, user } = await response.json()]. *)
Definition login_reply (w : World) (email password : value) : M (value * value) :=
  response ← fetch w (baseURL +:+ "/auth/login") (login_request email password);
  if negb (ok response) then throw (JsError "Error" "Login failed")
  else
    v ← json response;
    tok ← lift (destructure v "token");
    user ← lift (destructure v "user");
    ret (tok, user).

(** [login(email, password)]: the token is kept in the object and, as a
    string, in [localStorage]; an error is logged and thrown again. *)
Definition login (w : World) (email password : value) (a : service) (s : state)
  : outcome value * service * state :=
  match login_reply w email password s with
  | (Fulfilled (tok, user), s') => (Fulfilled user, mkService tok (Some (to_string tok)), s')
  | (Rejected e, s') => (Rejected e, a, s')
  end.

Definition logout (a : service) : service := mkService VNull None.

(** [fetchProtected(endpoint)]. *)
Definition fetchProtected (w : World) (endpoint : string) (a : service) (s : state)
  : outcome value * service * state :=
  if negb (truthy (token a))
  then (Rejected (JsError "Error" "Not authenticated"), a, s)
  else
    match fetch w (baseURL +:+ endpoint)
            (VObj [("headers",
                    VObj [("Authorization", VStr ("Bearer " +:+ to_string (token a)))])]) s with
    | (Rejected e, s') => (Rejected e, a, s')
    | (Fulfilled response, s') =>
        if (status response =? 401)%Z
        then (Rejected (JsError "Error" "Session expired"), logout a, s')
        else let '(o, s'') := json response s' in (o, a, s'')
    end.

End AuthService.

(** *** [class APIService] ([this.baseURL] is [baseURL]) *)
Module APIService.

(** [this.defaultHeaders]. *)
Definition defaultHeaders : list (string * value) :=
  [("Content-Type", VStr "application/json")].

(** [request(endpoint, options = {})].  The headers are merged before the
    [try] block; the two interceptors log and read the clock. *)
Definition request (w : World) (baseURL endpoint : string) (options : value) : M value :=
  let options := or_empty_object options in
  let url := baseURL +:+ endpoint in
  h ← lift (get_prop options "headers");
  let headers := spread_into defaultHeaders (spread h) in
  try_catch
    (startTime ← date_now;
     response ← fetch w url (VObj (set_field "headers" (VObj headers) (spread options)));
     finishTime ← date_now;
     if negb (ok response)
     then throw (JsError "Error" ("HTTP " +:+ Z_to_string (status response)))
     else json response)
    (fun error => throw error).

(** [JSON.stringify(data)] as a value: [undefined] stays [undefined]. *)
Definition json_text (data : value) : value :=
  match JSON_stringify data with Some text => VStr text | None => VUndefined end.

Definition get (w : World) (baseURL endpoint : string) (options : value) : M value :=
  request w baseURL endpoint (VObj (set_field "method" (VStr "GET") (spread options))).

Definition post (w : World) (baseURL endpoint : string) (data options : value) : M value :=
  request w baseURL endpoint
    (VObj (set_field "body" (json_text data)
             (set_field "method" (VStr "POST") (spread options)))).

Definition put (w : World) (baseURL endpoint : string) (data options : value) : M value :=
  request w baseURL endpoint
    (VObj (set_field "body" (json_text data)
             (set_field "method" (VStr "PUT") (spread options)))).

Definition patch (w : World) (baseURL endpoint : string) (data options : value) : M value :=
  request w baseURL endpoint
    (VObj (set_field "body" (json_text data)
             (set_field "method" (VStr "PATCH") (spread options)))).

Definition delete (w : World) (baseURL endpoint : string) (options : value) : M value :=
  request w baseURL endpoint (VObj (set_field "method" (VStr "DELETE") (spread options))).

End APIService.

(** *** [class RequestBatcher] *)
Module RequestBatcher.

(** [this.queue], by the requests of its items, and [this.timer], by the
    instant at which the timer fires. *)
Record batcher := mkBatcher { queue : list value; timer : option Z }.

(** [new RequestBatcher(batchDelay)]. *)
Definition create : batcher := mkBatcher [] None.

(** [add(request)], called at the instant [t]: a timer is set when none
    is pending. *)
Definition add (batchDelay t : Z) (request : value) (b : batcher) : batcher :=
  mkBatcher (queue b ++ [request])
    (match timer b with
     | Some fires => Some fires
     | None => Some (t + batchDelay)%Z
     end).

(** The start of [flush()]: [this.queue.splice(0)] and [this.timer = null]. *)
Definition take (b : batcher) : list value * batcher := (queue b, mkBatcher [] None).

(** [batch.forEach((item, index) => item.resolve(results[index]))], from
    [index] on, for [n] items: how the promise of each item settles.  When
    the callback throws, the [catch] block rejects the items that are not
    settled yet. *)
Fixpoint distribute (results : value) (index n : nat) : list (outcome value) :=
  match n with
  | O => []
  | S n' =>
      match get_index results index with
      | Fulfilled v => Fulfilled v :: distribute results (S index) n'
      | Rejected e => replicate (S n') (Rejected e)
      end
  end.


End RequestBatcher.

End Guide.

(** ** The reference solutions *)

Module Solutions.

(** Solution 1.1, [safeFetch(url, options = {})].  The options passed on
    are [{...options, signal: controller.signal}]: a [signal] of the
    caller is replaced by the one of the 5000 ms timer. *)
Definition safeFetch (w : World) (url : string) (options : value) : M value :=
  let options := or_empty_object options in
  s ← get_state;
  let signal := VSignal (Some (now s + 5000)%Z) in
  try_catch
    (response ← fetch w url (VObj (set_field "signal" signal (spread options)));
     if negb (ok response)
     then throw (JsError "Error"
                   ("HTTP Error " +:+ Z_to_string (status response) +:+ ": " +:+
                    statusText response))
     else json response)
    (fun error =>
       if String.eqb (error_name error) "AbortError"
       then throw (JsError "Error" "Request timeout after 5 seconds")
       else throw error).

(** *** Solution 1.2, [fetchDashboardData()] (the challenge file has the
    same function) *)

Module Dashboard.

(** What [fetchSafe] returns: [{ key, data, error }]. *)
Record settled := mkSettled { key : string; data : value; error : value }.

(** [fetchSafe(key, url)]: a promise that never rejects. *)
Definition fetchSafe (w : World) (key url : string) : M settled :=
  try_catch
    (response ← fetch w url VUndefined;
     if negb (ok response) then throw (JsError "Error" ("Failed to fetch " +:+ key))
     else
       d ← json response;
       ret (mkSettled key d VNull))
    (fun error => ret (mkSettled key VNull (VStr (error_message error)))).

(** [output.errors.push(entry)]. *)
Definition push_error (entry : value) (output : list (string * value))
  : list (string * value) :=
  match assoc "errors" output with
  | Some (VArr errors) => set_field "errors" (VArr (errors ++ [entry])) output
  | _ => output
  end.

(** The body of [results.forEach(...)], for the keys of [endpoints]. *)
Definition organize (output : list (string * value)) (r : settled)
  : list (string * value) :=
  if truthy (error r)
  then set_field (key r) VNull (push_error (VObj [(key r, error r)]) output)
  else set_field (key r) (data r) output.

Definition fetchDashboardData (w : World) : M value :=
  results ← Promise_all
              [fetchSafe w "users" "https://jsonplaceholder.typicode.com/users";
               fetchSafe w "posts" "https://jsonplaceholder.typicode.com/posts";
               fetchSafe w "comments" "https://jsonplaceholder.typicode.com/comments"];
  ret (VObj (fold_left organize results [("errors", VArr [])])).

End Dashboard.

(** *** Solution 1.3 *)

(** [posts.length === 0]. *)
Definition is_zero (v : value) : bool :=
  match v with VNum 0 => true | _ => false end.

(** Solution 1.3, [fetchUserPostComments(userId)]. *)
Definition fetchUserPostComments (w : World) (userId : value) : M value :=
  try_catch
    (userResponse ← fetch w ("https://jsonplaceholder.typicode.com/users/" +:+
                             to_string userId) VUndefined;
     if negb (ok userResponse) then throw (JsError "Error" "Failed to fetch user")
     else
       user ← json userResponse;
       id ← lift (get_prop user "id");
       postsResponse ← fetch w ("https://jsonplaceholder.typicode.com/posts?userId=" +:+
                                to_string id) VUndefined;
       if negb (ok postsResponse) then throw (JsError "Error" "Failed to fetch posts")
       else
         posts ← json postsResponse;
         len ← lift (get_prop posts "length");
         if is_zero len
         then ret (VObj [("user", user); ("posts", posts); ("comments", VArr [])])
         else
           first ← lift (get_index posts 0);
           postId ← lift (get_prop first "id");
           commentsResponse ← fetch w ("https://jsonplaceholder.typicode.com/comments?postId=" +:+
                                       to_string postId) VUndefined;
           if negb (ok commentsResponse)
           then throw (JsError "Error" "Failed to fetch comments")
           else
             comments ← json commentsResponse;
             ret (VObj [("user", user); ("posts", posts); ("comments", comments)]))
    (fun error =>
       throw (JsError "Error" ("Sequential fetch failed: " +:+ error_message error))).

(** *** Solution 2.1, [class DebouncedSearch] *)

(** The timers and the requests of the searches overlap: the class is
    modelled by what each call of [search] or [clear], each timer that
    fires and each answer does to the object. *)
Module DebouncedSearch.

Section Search.

(** [this.apiUrl]. *)
Variable apiUrl : string.

(** A call of [search(query)]: its timer is pending; its timer was
    cleared before it fired, and nothing is left that could settle its
    promise; its request is unanswered; or it is settled (or has
    thrown). *)
Inductive phase :=
| Debouncing (query : string)
| Abandoned
| Fetching
| Done (o : outcome value).

(** [this.timeoutId] and [this.abortController], each by the call that
    set it. *)
Record searcher := mkSearcher {
  timeoutId : option nat;
  abortController : option nat;
  searches : list phase;       (* the calls of [search], oldest first *)
  requested : list string      (* the URLs fetched, oldest first *)
}.

(** [new DebouncedSearch(apiUrl, delay)]. *)
Definition create : searcher := mkSearcher None None [] [].

(** [clearTimeout(id)]: the callback of a timer that did not fire yet
    will not run. *)
Definition clearTimeout (id : nat) (a : searcher) : searcher :=
  match searches a !! id with
  | Some (Debouncing _) =>
      mkSearcher (timeoutId a) (abortController a) (<[id := Abandoned]> (searches a))
        (requested a)
  | _ => a
  end.

(** [controller.abort()]: the request made with its signal rejects with
    an [AbortError], which the [catch] block of the timer's callback
    turns into [resolve([])]. *)
Definition abort (c : nat) (a : searcher) : searcher :=
  match searches a !! c with
  | Some Fetching =>
      mkSearcher (timeoutId a) (abortController a)
        (<[c := Done (Fulfilled (VArr []))]> (searches a)) (requested a)
  | _ => a
  end.

(** The first two statements of [search]. *)
Definition cancel_previous (a : searcher) : searcher :=
  let a := match timeoutId a with Some id => clearTimeout id a | None => a end in
  match abortController a with Some c => abort c a | None => a end.

(** [clear()]. *)
Definition clear (a : searcher) : searcher :=
  let a := match timeoutId a with
           | Some id =>
               let a := clearTimeout id a in
               mkSearcher None (abortController a) (searches a) (requested a)
           | None => a
           end in
  match abortController a with
  | Some c =>
      let a := abort c a in
      mkSearcher (timeoutId a) None (searches a) (requested a)
  | None => a
  end.

Definition add_search (p : phase) (a : searcher) : searcher :=
  mkSearcher (timeoutId a) (abortController a) (searches a ++ [p]) (requested a).

(** [search(query)]: for an empty or blank query it clears and returns
    [Promise.resolve([])]; [query.trim] is not a function when [query] is
    truthy and not a string; otherwise it sets the timer. *)
Definition search (query : value) (a : searcher) : searcher :=
  let a := cancel_previous a in
  match query with
  | VStr q =>
      if negb (truthy query) || blank q
      then add_search (Done (Fulfilled (VArr []))) (clear a)
      else
        mkSearcher (Some (length (searches a))) (abortController a)
          (searches a ++ [Debouncing q]) (requested a)
  | _ =>
      if negb (truthy query)
      then add_search (Done (Fulfilled (VArr []))) (clear a)
      else add_search (Done (Rejected (JsError "TypeError" "query.trim is not a function"))) a
  end.

(** The timer of call [i] fires: the callback runs to its
    [await fetch]. *)
Definition on_timer (i : nat) (a : searcher) : searcher :=
  match searches a !! i with
  | Some (Debouncing q) =>
      mkSearcher (timeoutId a) (Some i) (<[i := Fetching]> (searches a))
        (requested a ++ [apiUrl +:+ "?q=" +:+ encodeURIComponent q])
  | _ => a
  end.

(** The answer to the request of call [i] arrives: the rest of the
    callback. *)
Definition on_answer (i : nat) (ans : answer) (a : searcher) : searcher :=
  match searches a !! i with
  | Some Fetching =>
      let o :=
        match ans with
        | NetworkError msg => Rejected (JsError "TypeError" msg)
        | Respond code text b =>
            if negb ((200 <=? code) && (code <=? 299))%Z
            then Rejected (JsError "Error" "Search failed")
            else match b with
                 | JsonBody results => Fulfilled results
                 | BadBody msg => Rejected (JsError "SyntaxError" msg)
                 end
        end in
      mkSearcher (timeoutId a) (abortController a) (<[i := Done o]> (searches a))
        (requested a)
  | _ => a
  end.

Inductive event :=
| Search (query : value)
| Clear
| Timer (i : nat)
| Answer (i : nat) (ans : answer).

Definition step (a : searcher) (ev : event) : searcher :=
  match ev with
  | Search query => search query a
  | Clear => clear a
  | Timer i => on_timer i a
  | Answer i ans => on_answer i ans a
  end.

Definition run (events : list event) (a : searcher) : searcher := fold_left step events a.

End Search.

End DebouncedSearch.

(** *** Solution 2.2, [class CachedFetch] *)
Module CachedFetch.

Definition _getCacheKey (url : string) (options : value) : outcome string :=
  let options := or_empty_object options in
  match get_prop options "method" with
  | Rejected e => Rejected e
  | Fulfilled method =>
      match get_prop options "body" with
      | Rejected e => Rejected e
      | Fulfilled b =>
          Fulfilled (to_string (js_or method (VStr "GET")) +:+ ":" +:+ url +:+ ":" +:+
                     to_string (js_or b (VStr "")))
      end
  end.

Definition _isCacheValid (ttl : Z) (e : entry) : M bool :=
  t ← date_now; ret (t - timestamp e <? ttl)%Z.

(** The part of [fetch] after the cache check. *)
Definition request (w : World) (key url : string) (options : value) : M value :=
  try_catch
    (response ← Net.fetch w url options;
     if negb (ok response)
     then throw (JsError "Error"
                   ("HTTP " +:+ Z_to_string (status response) +:+ ": " +:+
                    statusText response))
     else
       d ← json response;
       t ← date_now;
       modify (fun s => set_cache (<[key := mkEntry d t]> (cache s)) s);;
       ret d)
    (fun error => throw error).

Definition fetch (w : World) (ttl : Z) (url : string) (options : value) : M value :=
  let options := or_empty_object options in
  key ← lift (_getCacheKey url options);
  s ← get_state;
  match cache s !! key with
  | Some e =>
      valid ← _isCacheValid ttl e;
      if valid : bool
      then ret (data e)
      else
        modify (fun s => set_cache (base.delete key (cache s)) s);;
        request w key url options
  | None => request w key url options
  end.

Definition clear : M unit := modify (set_cache ∅).

Definition clearKey (url : string) (options : value) : M unit :=
  key ← lift (_getCacheKey url options);
  modify (fun s => set_cache (base.delete key (cache s)) s).

End CachedFetch.

(** *** Solution 2.3, [fetchWithRetry] *)

(** The [try] block of [fetchWithRetry]: one attempt. *)
Definition try_block (w : World) (url : string) (options : value) : M value :=
  response ← fetch w url options;
  if negb (ok response)
  then
    if ((400 <=? status response) && (status response <? 500))%Z
    then throw (JsError "Error"
                  ("Client error " +:+ Z_to_string (status response) +:+ ": " +:+
                   statusText response))
    else throw (JsError "Error"
                  ("Server error " +:+ Z_to_string (status response) +:+ ": " +:+
                   statusText response))
  else json response.

(** The test of the [catch] block that rethrows at once. *)
Definition not_retryable (error : exn) : bool :=
  includes (error_message error) "Client error" ||
  (negb (String.eqb (error_name error) "TypeError") &&
   negb (includes (error_message error) "Server error")).

(** The [for (let attempt = 0; attempt <= maxRetries; attempt++)] loop,
    with [remaining] the iterations still allowed; the statement after the
    loop is [throw lastError]. *)
Fixpoint retry_loop (w : World) (url : string) (options : value) (maxRetries : nat)
    (remaining attempt : nat) (lastError : exn) : M value :=
  match remaining with
  | O => throw lastError
  | S remaining' =>
      try_catch (try_block w url options)
        (fun error =>
           if not_retryable error then throw error
           else if attempt =? maxRetries
           then throw (JsError "Error"
                         ("Failed after " +:+ nat_to_string (maxRetries + 1) +:+
                          " attempts: " +:+ error_message error))
           else
             sleep (2 ^ Z.of_nat attempt * 1000)%Z;;
             retry_loop w url options maxRetries remaining' (S attempt) error)
  end.

(** [fetchWithRetry(url, options = {}, maxRetries = 3)]. *)
Definition fetchWithRetry (w : World) (url : string) (options : value)
    (maxRetries : nat) : M value :=
  retry_loop w url (or_empty_object options) maxRetries (S maxRetries) 0
    (Thrown VUndefined).

(** *** Solution 2.4, [class RequestBatcher] *)
Module RequestBatcher.

(** An item of [this.queue], without its two callbacks. *)
Record item := mkItem { url : string; options : value }.

(** [this.queue], and [this.timeoutId] by the instant at which the timer
    fires. *)
Record batcher := mkBatcher { queue : list item; timeoutId : option Z }.

(** [new RequestBatcher(batchUrl, delay)]. *)
Definition create : batcher := mkBatcher [] None.

(** [fetch(url, options = {})], called at the instant [t]: the pending
    timer is cleared and a new one is set. *)
Definition fetch (delay t : Z) (url : string) (options : value) (b : batcher) : batcher :=
  mkBatcher (queue b ++ [mkItem url (or_empty_object options)]) (Some (t + delay)%Z).

(** The start of [_processBatch()]: the queue is copied and emptied. *)
Definition take (b : batcher) : list item * batcher := (queue b, mkBatcher [] None).

(** [({ url, options }) => ({ url, method: options.method || 'GET', body: options.body })]. *)
Definition batch_entry (it : item) : outcome value :=
  and_then (get_prop (options it) "method") (fun method =>
  and_then (get_prop (options it) "body") (fun body =>
  Fulfilled (VObj [("url", VStr (url it));
                   ("method", js_or method (VStr "GET"));
                   ("body", body)]))).

(** [currentBatch.map(...)]. *)
Fixpoint batchRequest (batch : list item) : outcome (list value) :=
  match batch with
  | [] => Fulfilled []
  | it :: rest =>
      and_then (batch_entry it) (fun r =>
      and_then (batchRequest rest) (fun rs => Fulfilled (r :: rs)))
  end.

(** The body of the callback of [currentBatch.forEach] for the item at
    [index]: how the promise of the item settles, unless the callback
    throws. *)
Definition settle (results : value) (index : nat) : outcome (outcome value) :=
  and_then (get_prop results "responses") (fun responses =>
  and_then (get_index responses index) (fun result =>
  and_then (get_prop result "error") (fun error =>
  if truthy error
  then Fulfilled (Rejected (JsError "Error" (to_string error)))
  else and_then (get_prop result "data") (fun d => Fulfilled (Fulfilled d))))).

(** [currentBatch.forEach(...)], from [index] on, for [n] items.  When
    the callback throws, the [catch] block rejects the items that are not
    settled yet. *)
Fixpoint distribute (results : value) (index n : nat) : list (outcome value) :=
  match n with
  | O => []
  | S n' =>
      match settle results index with
      | Fulfilled o => o :: distribute results (S index) n'
      | Rejected e => replicate (S n') (Rejected e)
      end
  end.

(** The rest of [_processBatch()], for the batch taken: how the promises
    of its items settle, in the order of the batch. *)
Definition _processBatch (w : World) (batchUrl : string) (currentBatch : list item)
  : M (list (outcome value)) :=
  match currentBatch with
  | [] => ret []
  | _ =>
      try_catch
        (requests ← lift (batchRequest currentBatch);
         response ← Net.fetch w batchUrl
                      (VObj [("method", VStr "POST");
                             ("headers", VObj [("Content-Type", VStr "application/json")]);
                             ("body", match JSON_stringify (VObj [("requests", VArr requests)]) with
                                      | Some text => VStr text
                                      | None => VUndefined
                                      end)]);
         if negb (ok response) then throw (JsError "Error" "Batch request failed")
         else
           results ← json response;
           ret (distribute results 0 (length currentBatch)))
        (fun error => ret (replicate (length currentBatch) (Rejected error)))
  end.

End RequestBatcher.

(** *** Solution 3.1, [class AuthAPI] *)

(** Calls of [_request] overlap, so the class is modelled by what each
    piece of code between two [await]s does to the object: a call of
    [_request] is at its [await fetch], at its
    [await this._refreshToken()], or settled; an event is a call made by
    the page or an answer of the transport. *)
Module AuthAPI.

Inductive phase :=
| AwaitResponse
| AwaitRefresh (p : nat)
| Settled (o : outcome value).

(** One call of [_request(endpoint, options)]; [pending] is the options
    object of the [fetch] it made last. *)
Record call := mkCall {
  endpoint : string;
  options : value;
  pending : value;
  ph : phase
}.

Record api := mkApi {
  baseURL : string;
  token : value;                 (* [this.token] *)
  refreshPromise : option nat;   (* [this.refreshPromise], a promise by its number *)
  storage : option string;       (* [localStorage]'s 'auth_token' *)
  tasks : list call;             (* the calls of [_request], oldest first *)
  refreshes : nat;               (* the refresh promises created so far *)
  inflight : list nat;           (* the refreshes whose [fetch] is unanswered *)
  sent : list (string * value)   (* the [fetch] calls made, oldest first *)
}.

(** [new AuthAPI(baseURL)], on a page whose [localStorage] holds [stored]. *)
Definition create (url : string) (stored : option string) : api :=
  mkApi url VNull None stored [] 0 [] [].

Definition set_token (t : value) (a : api) : api :=
  mkApi (baseURL a) t (refreshPromise a) (storage a) (tasks a) (refreshes a)
    (inflight a) (sent a).
Definition set_tasks (l : list call) (a : api) : api :=
  mkApi (baseURL a) (token a) (refreshPromise a) (storage a) l (refreshes a)
    (inflight a) (sent a).
Definition log_sent (r : string * value) (a : api) : api :=
  mkApi (baseURL a) (token a) (refreshPromise a) (storage a) (tasks a) (refreshes a)
    (inflight a) (sent a ++ [r]).

Definition with_phase (p : phase) (t : call) : call :=
  mkCall (endpoint t) (options t) (pending t) p.

Definition set_phase (i : nat) (p : phase) (a : api) : api :=
  set_tasks (alter (with_phase p) i (tasks a)) a.

(** The [headers] object [_request] builds. *)
Definition headers_for (tok : value) (opts : value) : outcome (list (string * value)) :=
  match get_prop opts "headers" with
  | Rejected e => Rejected e
  | Fulfilled h =>
      let headers := spread_into [("Content-Type", VStr "application/json")] (spread h) in
      Fulfilled (if truthy tok
                 then set_field "Authorization" (VStr ("Bearer " +:+ to_string tok)) headers
                 else headers)
  end.

(** [if (!this.token) this.token = localStorage.getItem('auth_token')]. *)
Definition load_token (a : api) : api :=
  if truthy (token a) then a
  else set_token (match storage a with Some t => VStr t | None => VNull end) a.

(** Call [i] runs [_request] from its start to its [await fetch]. *)
Definition dispatch (i : nat) (a : api) : api :=
  match tasks a !! i with
  | None => a
  | Some t =>
      let a := load_token a in
      let opts := or_empty_object (options t) in
      match headers_for (token a) opts with
      | Rejected e => set_phase i (Settled (Rejected e)) a
      | Fulfilled headers =>
          let request := VObj (set_field "headers" (VObj headers) (spread opts)) in
          log_sent (baseURL a +:+ endpoint t, request)
            (set_tasks (<[i := mkCall (endpoint t) (options t) request AwaitResponse]>
                          (tasks a)) a)
      end
  end.

(** The request of the refresh: [POST /auth/refresh] with the current
    token. *)
Definition refresh_request (a : api) : string * value :=
  (baseURL a +:+ "/auth/refresh",
   VObj [("method", VStr "POST");
         ("headers", VObj [("Authorization", VStr ("Bearer " +:+ to_string (token a)))])]).

(** Call [i] runs [await this._refreshToken()]: it joins the pending
    refresh, or creates one, whose body runs to its [await fetch]. *)
Definition _refreshToken (i : nat) (a : api) : api :=
  match refreshPromise a with
  | Some p => set_phase i (AwaitRefresh p) a
  | None =>
      let p := refreshes a in
      set_phase i (AwaitRefresh p)
        (mkApi (baseURL a) (token a) (Some p) (storage a) (tasks a) (S p)
           (inflight a ++ [p]) (sent a ++ [refresh_request a]))
  end.

(** [response.json()]. *)
Definition parse (b : body) : outcome value :=
  match b with
  | JsonBody v => Fulfilled v
  | BadBody msg => Rejected (JsError "SyntaxError" msg)
  end.

(** The answer to the [fetch] of call [i] arrives: the rest of [_request]. *)
Definition on_response (i : nat) (ans : answer) (a : api) : api :=
  match tasks a !! i with
  | Some t =>
      match ph t with
      | AwaitResponse =>
          match ans with
          | NetworkError msg => set_phase i (Settled (Rejected (JsError "TypeError" msg))) a
          | Respond code text b =>
              if (code =? 401)%Z then _refreshToken i a
              else if negb ((200 <=? code) && (code <=? 299))%Z
              then set_phase i
                     (Settled (Rejected (JsError "Error"
                                           ("HTTP " +:+ Z_to_string code +:+ ": " +:+ text))))
                     a
              else set_phase i (Settled (parse b)) a
          end
      | _ => a
      end
  | None => a
  end.

(** What the body of the refresh makes of the answer to its [fetch]:
    the new token, or the error it throws. *)
Definition refreshed (ans : answer) : outcome value :=
  match ans with
  | NetworkError msg => Rejected (JsError "TypeError" msg)
  | Respond code text b =>
      if negb ((200 <=? code) && (code <=? 299))%Z
      then Rejected (JsError "Error" "Token refresh failed")
      else
        match parse b with
        | Rejected e => Rejected e
        | Fulfilled v => get_prop v "token"
        end
  end.

Definition waits_for (p : nat) (t : call) : bool :=
  match ph t with AwaitRefresh q => p =? q | _ => false end.

(** The calls among [idx] that awaited refresh [p] go on, in that
    order: each calls [this._request(endpoint, options)] again. *)
Definition resume (p : nat) (idx : list nat) (a : api) : api :=
  fold_left (fun a i =>
               match tasks a !! i with
               | Some t => if waits_for p t then dispatch i a else a
               | None => a
               end) idx a.

(** All the calls that awaited refresh [p] go on, oldest first. *)
Definition resume_all (p : nat) (a : api) : api :=
  resume p (seq 0 (length (tasks a))) a.

(** The calls that awaited refresh [p] reject with its error. *)
Definition reject_all (p : nat) (e : exn) (a : api) : api :=
  set_tasks (map (fun t => if waits_for p t then with_phase (Settled (Rejected e)) t else t)
               (tasks a)) a.

(** [logout()]. *)
Definition logout (a : api) : api :=
  mkApi (baseURL a) VNull None None (tasks a) (refreshes a) (inflight a) (sent a).

(** [isAuthenticated()]. *)
Definition isAuthenticated (a : api) : bool :=
  truthy (token a) ||
  match storage a with
  | Some item => negb (String.eqb item "")
  | None => false
  end.

(** The answer to the [fetch] of refresh [p] arrives: the rest of the
    body of the refresh ([try], [catch], [finally]), and then the calls
    that awaited it. *)
Definition on_refresh_response (p : nat) (ans : answer) (a : api) : api :=
  if bool_decide (p ∈ inflight a)
  then
    let a := mkApi (baseURL a) (token a) (refreshPromise a) (storage a) (tasks a)
               (refreshes a) (filter (fun q => q <> p) (inflight a)) (sent a) in
    match refreshed ans with
    | Fulfilled tok =>
        resume_all p
          (mkApi (baseURL a) tok None (Some (to_string tok)) (tasks a) (refreshes a)
             (inflight a) (sent a))
    | Rejected e =>
        let a := logout a in
        reject_all p e
          (mkApi (baseURL a) (token a) None (storage a) (tasks a) (refreshes a)
             (inflight a) (sent a))
    end
  else a.

(** The page calls [_request(endpoint, options)] (through [get], [post],
    [put] or [delete]). *)
Definition on_call (path : string) (opts : value) (a : api) : api :=
  dispatch (length (tasks a))
    (set_tasks (tasks a ++ [mkCall path opts VUndefined AwaitResponse]) a).

Inductive event :=
| Call (path : string) (opts : value)
| Response (i : nat) (ans : answer)
| RefreshResponse (p : nat) (ans : answer).

Definition step (a : api) (ev : event) : api :=
  match ev with
  | Call path opts => on_call path opts a
  | Response i ans => on_response i ans a
  | RefreshResponse p ans => on_refresh_response p ans a
  end.

Definition run (events : list event) (a : api) : api := fold_left step events a.

(** The phase of call [i]. *)
Definition phase_of (a : api) (i : nat) : option phase := ph <$> tasks a !! i.

(** The [Authorization] header of the request call [i] made last. *)
Definition authorization (a : api) (i : nat) : option value :=
  match tasks a !! i with
  | Some t =>
      match pending t with
      | VObj fields =>
          match assoc "headers" fields with
          | Some (VObj headers) => assoc "Authorization" headers
          | _ => None
          end
      | _ => None
      end
  | None => None
  end.

End AuthAPI.

(** *** Solution 3.3, [class PaginatedFeed] *)

(** Calls of [loadNext()] may overlap with each other and with [reset()],
    so the class is modelled like [AuthAPI]: by what each piece of code
    between two [await]s does to the object. *)
Module PaginatedFeed.

Section Feed.

(** JavaScript's [a < n] for a number [n]: on numbers it is the order of
    the integers, which is all that the statements below use of it. *)
Variable less_than : value -> Z -> bool.

(** [this.apiUrl] and [this.pageSize]. *)
Variable apiUrl : string.
Variable pageSize : Z.

(** A call of [loadNext()]: it waits for the answer to its request for
    [nextPage], or it has returned or thrown. *)
Inductive load :=
| Loading (nextPage : nat)
| Finished (o : outcome value).

Record feed := mkFeed {
  _currentPage : nat;
  _items : list value;
  _isLoading : bool;
  _hasMore : bool;
  loads : list load;           (* the calls of [loadNext()], oldest first *)
  requested : list string      (* the URLs fetched, oldest first *)
}.

(** [new PaginatedFeed(apiUrl, pageSize)]. *)
Definition create : feed := mkFeed 0 [] false true [] [].

(** [reset()]: calls that wait for an answer are not touched. *)
Definition reset (f : feed) : feed :=
  mkFeed 0 [] false true (loads f) (requested f).

Definition page_url (page : nat) : string :=
  apiUrl +:+ "?page=" +:+ nat_to_string page +:+ "&limit=" +:+ Z_to_string pageSize.

(** A call of [loadNext()], up to its [await fetch]: it returns at once
    when a page is loading or when no more is to come. *)
Definition loadNext (f : feed) : feed :=
  if _isLoading f || negb (_hasMore f)
  then mkFeed (_currentPage f) (_items f) (_isLoading f) (_hasMore f)
         (loads f ++ [Finished (Fulfilled VUndefined)]) (requested f)
  else mkFeed (_currentPage f) (_items f) true (_hasMore f)
         (loads f ++ [Loading (S (_currentPage f))])
         (requested f ++ [page_url (S (_currentPage f))]).

(** The [try] block from the answer on, for a call that asked for
    [nextPage]: what the call returns or throws, with the fields
    [_currentPage], [_items] and [_hasMore] it leaves. *)
Definition received (nextPage : nat) (ans : answer) (f : feed)
  : outcome value * (nat * list value * bool) :=
  let unchanged := (_currentPage f, _items f, _hasMore f) in
  match ans with
  | NetworkError msg => (Rejected (JsError "TypeError" msg), unchanged)
  | Respond code text b =>
      if negb ((200 <=? code) && (code <=? 299))%Z
      then (Rejected (JsError "Error" "Failed to load page"), unchanged)
      else
        match b with
        | BadBody msg => (Rejected (JsError "SyntaxError" msg), unchanged)
        | JsonBody data =>
            match get_prop data "length" with
            | Rejected e => (Rejected e, unchanged)
            | Fulfilled len =>
                if is_zero len
                then (Fulfilled VUndefined, (_currentPage f, _items f, false))
                else
                  let hasMore := if less_than len pageSize then false else _hasMore f in
                  match iterate data with
                  | Rejected e => (Rejected e, (_currentPage f, _items f, hasMore))
                  | Fulfilled new => (Fulfilled VUndefined, (nextPage, _items f ++ new, hasMore))
                  end
            end
        end
  end.

(** The answer to the request of call [i] arrives: the rest of
    [loadNext()], with its [finally] block. *)
Definition on_answer (i : nat) (ans : answer) (f : feed) : feed :=
  match loads f !! i with
  | Some (Loading nextPage) =>
      let '(o, (page, items, hasMore)) := received nextPage ans f in
      mkFeed page items false hasMore (<[i := Finished o]> (loads f)) (requested f)
  | _ => f
  end.

Inductive event :=
| LoadNext
| Reset
| Answer (i : nat) (ans : answer).

Definition step (f : feed) (ev : event) : feed :=
  match ev with
  | LoadNext => loadNext f
  | Reset => reset f
  | Answer i ans => on_answer i ans f
  end.

Definition run (events : list event) (f : feed) : feed := fold_left step events f.

End Feed.

End PaginatedFeed.

End Solutions.

(** ** The challenge templates *)

Module Challenges.

(** Challenge 1.1, [safeFetch(url, options = {})], as the challenge file
    has it.  The block of [if (!fetchResponse.ok)] holds a template
    literal on [response], a name that neither the function nor the
    snippet binds: evaluating it throws a [ReferenceError]. *)
Definition safeFetch (w : World) (url : string) (options : value) : M value :=
  let options := or_empty_object options in
  s ← get_state;
  let signal := VSignal (Some (now s + 5000)%Z) in
  try_catch
    (fetchResponse ← fetch w url (VObj (set_field "signal" signal (spread options)));
     if negb (ok fetchResponse)
     then throw (JsError "ReferenceError" "response is not defined")
     else json fetchResponse)
    (fun error =>
       if String.eqb (error_name error) "AbortError"
       then throw (JsError "Error" "Request timeout after 5 seconds")
       else throw error).

(** Challenge 1.3, [fetchUserPostComments(userId)], as the template has
    it: [posts] is read from [userResponse], whose body [user] was read
    from already. *)
Definition fetchUserPostComments (w : World) (userId : value) : M value :=
  try_catch
    (userResponse ← fetch w ("https://jsonplaceholder.typicode.com/users/" +:+
                             to_string userId) VUndefined;
     if negb (ok userResponse) then throw (JsError "Error" "Failed to fetch user")
     else
       user ← json userResponse;
       id ← lift (get_prop user "id");
       postsResponse ← fetch w ("https://jsonplaceholder.typicode.com/posts?userId=" +:+
                                to_string id) VUndefined;
       if negb (ok postsResponse) then throw (JsError "Error" "Failed to fetch posts")
       else
         posts ← json userResponse;
         first ← lift (get_index posts 0);
         postId ← lift (get_prop first "id");
         commentsResponse ← fetch w ("https://jsonplaceholder.typicode.com/comments?postId=" +:+
                                     to_string postId) VUndefined;
         if negb (ok commentsResponse)
         then throw (JsError "Error" "Failed to fetch comments")
         else
           comments ← json commentsResponse;
           ret (VObj [("user", user); ("posts", posts); ("comments", comments)]))
    (fun error =>
       throw (JsError "Error" ("Sequential fetch failed: " +:+ error_message error))).



End Challenges.

(** ** The pattern sheet: [class AuthAPI] with [request] *)

Module Patterns.

(** *** [retry(fn, maxRetries = 3)] *)

(** The loop [for (let i = 0; i <= maxRetries; i++)] with [remaining]
    the iterations still allowed; [fn] is the computation that a call of
    [fn()] starts.  Leaving the loop returns [undefined]. *)
Fixpoint retry_loop (fn : M value) (maxRetries remaining i : nat) : M value :=
  match remaining with
  | O => ret VUndefined
  | S remaining' =>
      try_catch fn
        (fun error =>
           if i =? maxRetries then throw error
           else
             sleep (2 ^ Z.of_nat i * 1000)%Z;;
             retry_loop fn maxRetries remaining' (S i))
  end.

Definition retry (fn : M value) (maxRetries : nat) : M value :=
  retry_loop fn maxRetries (S maxRetries) 0.

(** *** [cachedFetch(url, ttl = 60000)]

    The [Map] is keyed by the URL; the [time] of an entry is the
    [timestamp] of the record. *)
Definition cachedFetch (w : World) (url : string) (ttl : Z) : M value :=
  let request :=
    response ← fetch w url VUndefined;
    d ← json response;
    t ← date_now;
    modify (fun s => set_cache (<[url := mkEntry d t]> (cache s)) s);;
    ret d in
  s ← get_state;
  match cache s !! url with
  | Some cached =>
      if (now s - timestamp cached <? ttl)%Z
      then ret (data cached)
      else request
  | None => request
  end.

Section AuthAPI.

(** [this.refreshToken()].  The class calls it and does not define it;
    here it is any computation that, from the current token, gives the
    token to go on with. *)
Variable refreshToken : value -> M value.

(** [request(endpoint, options = {})], with [this.token] as [tok].  The
    function calls itself after a refresh; [fuel] bounds the calls, and
    [None] says that the bound was reached before the promise settled. *)
Fixpoint request (fuel : nat) (w : World) (baseURL : string) (tok : value)
    (endpoint : string) (options : value) : M (option value) :=
  match fuel with
  | O => ret None
  | S fuel' =>
      let opts := or_empty_object options in
      h ← lift (get_prop opts "headers");
      let headers := spread_into [("Content-Type", VStr "application/json")] (spread h) in
      let headers :=
        if truthy tok
        then set_field "Authorization" (VStr ("Bearer " +:+ to_string tok)) headers
        else headers in
      response ← fetch w (baseURL +:+ endpoint)
                   (VObj (set_field "headers" (VObj headers) (spread opts)));
      if (status response =? 401)%Z
      then
        tok' ← refreshToken tok;
        request fuel' w baseURL tok' endpoint options
      else if negb (ok response)
      then throw (JsError "Error" ("HTTP " +:+ Z_to_string (status response)))
      else v ← json response; ret (Some v)
  end.

End AuthAPI.

(** *** [class InfiniteScroll] *)
Module InfiniteScroll.

Section Scroll.

(** [this.apiUrl] and [this.pageSize]. *)
Variable apiUrl : string.
Variable pageSize : Z.

(** A call of [loadNext()]: it waits for the answer to its request, or
    it has returned or thrown. *)
Inductive load :=
| Loading
| Finished (o : outcome value).

Record scroll := mkScroll {
  page : nat;
  items : list value;
  isLoading : bool;
  hasMore : bool;
  loads : list load;           (* the calls of [loadNext()], oldest first *)
  requested : list string      (* the URLs fetched, oldest first *)
}.

(** [new InfiniteScroll(apiUrl, pageSize)]. *)
Definition create : scroll := mkScroll 0 [] false true [] [].

Definition page_url (page : nat) : string :=
  apiUrl +:+ "?page=" +:+ nat_to_string page +:+ "&limit=" +:+ Z_to_string pageSize.

(** A call of [loadNext()], up to its [await fetch]; [this.page++] comes
    before the request. *)
Definition loadNext (f : scroll) : scroll :=
  if isLoading f || negb (hasMore f)
  then mkScroll (page f) (items f) (isLoading f) (hasMore f)
         (loads f ++ [Finished (Fulfilled VUndefined)]) (requested f)
  else mkScroll (S (page f)) (items f) true (hasMore f)
         (loads f ++ [Loading]) (requested f ++ [page_url (S (page f))]).

(** The [try] block from the answer on: what the call returns or throws,
    with the fields [items] and [hasMore] it leaves.  The status is not
    looked at. *)
Definition received (ans : answer) (f : scroll) : outcome value * (list value * bool) :=
  let unchanged := (items f, hasMore f) in
  match ans with
  | NetworkError msg => (Rejected (JsError "TypeError" msg), unchanged)
  | Respond code text (BadBody msg) => (Rejected (JsError "SyntaxError" msg), unchanged)
  | Respond code text (JsonBody newItems) =>
      match get_prop newItems "length" with
      | Rejected e => (Rejected e, unchanged)
      | Fulfilled len =>
          if Solutions.is_zero len then (Fulfilled newItems, (items f, false))
          else
            match iterate newItems with
            | Rejected e => (Rejected e, unchanged)
            | Fulfilled new => (Fulfilled newItems, (items f ++ new, hasMore f))
            end
      end
  end.

(** The answer to the request of call [i] arrives: the rest of
    [loadNext()], with its [finally] block. *)
Definition on_answer (i : nat) (ans : answer) (f : scroll) : scroll :=
  match loads f !! i with
  | Some Loading =>
      let '(o, (new_items, more)) := received ans f in
      mkScroll (page f) new_items false more (<[i := Finished o]> (loads f)) (requested f)
  | _ => f
  end.

Inductive event :=
| LoadNext
| Answer (i : nat) (ans : answer).

Definition step (f : scroll) (ev : event) : scroll :=
  match ev with
  | LoadNext => loadNext f
  | Answer i ans => on_answer i ans f
  end.

Definition run (events : list event) (f : scroll) : scroll := fold_left step events f.

End Scroll.

End InfiniteScroll.

End Patterns.

Import Solutions.AuthAPI.

(** * The vocabulary of the statements *)

(** ** Runs and transports *)

(** Every call is answered with the status [code]. *)
Definition always_status (w : World) (code : Z) : Prop :=
  forall i url o, exists latency text b, w i url o = (latency, Respond code text b).

(** No status text of the transport contains the words the retry loop of
    the solutions looks for in an error message. *)
Definition plain_status_text (w : World) : Prop :=
  forall i url o latency code text b,
    w i url o = (latency, Respond code text b) -> includes text "Client error" = false.

(** A fresh page: time 0, nothing fetched, nothing cached. *)
Definition fresh : state := mkState 0 [] [] ∅ ∅.

(** The statement of a lemma about a run often needs only the result. *)
Definition result {A} (r : outcome A * state) : outcome A := r.1.
Definition final {A} (r : outcome A * state) : state := r.2.
Definition fetches {A} (s : state) (r : outcome A * state) : nat :=
  length (calls (final r)) - length (calls s).

(** ** Backoff and retries *)

(** The delays the guide's loop waits: [delay], [2 * delay], [4 * delay], ... *)
Definition doubling (delay : Z) (k : nat) : list Z :=
  map (fun j => (delay * 2 ^ Z.of_nat j)%Z) (seq 0 k).

(** The delays the solutions' loop waits from attempt [n] on:
    [Math.pow(2, attempt) * 1000]. *)
Definition powers_of_two (n k : nat) : list Z :=
  map (fun j => (2 ^ Z.of_nat (n + j) * 1000)%Z) (seq 0 k).

(** A transport that answers every call with 500 Internal Server Error. *)
Definition always_500 : World :=
  fun _ _ _ => (20%Z, Respond 500 "Internal Server Error" (BadBody "Unexpected token <")).


(** A state the page can be in: only responses obtained so far can have
    had their body read. *)
Definition well_formed (s : state) : Prop :=
  forall i, i ∈ consumed s -> i < length (calls s).


(** ** Caches *)

(** [this.cache] without the entry of [key]. *)
Definition evicted (key : string) (s : state) : state :=
  set_cache (delete key (cache s)) s.

(** A transport that is down. *)
Definition offline : World := fun _ _ _ => (20%Z, NetworkError "Failed to fetch").

(** A page at time [t] whose caches hold the users fetched at time 0. *)
Definition cached_at_0 (t : Z) : state :=
  mkState t [] [] ∅
    (<["GET:/api/users:" := mkEntry (VNum 1) 0]>
       (<["/api/users{}" := mkEntry (VNum 1) 0]> ∅)).

(** A transport that answers every call with 200 OK and the user list. *)
Definition users_ok : World :=
  fun _ _ _ => (20%Z, Respond 200 "OK" (JsonBody (VArr [VObj [("id", VNum 1)]]))).

(** ** Sequential requests and the deduplicating wrapper *)




(** ** Kinds of failure *)

(** The kinds of failure a caller can tell apart by the [name] and the
    [message] of the error it catches. *)
Inductive failure_kind :=
| TimeoutKind
| NetworkKind
| HttpStatusKind
| DecodingKind
| CancelledKind
| OtherKind.

Definition kind_of (e : exn) : failure_kind :=
  let name := error_name e in
  let message := error_message e in
  if String.eqb name "AbortError" then CancelledKind
  else if String.eqb name "TypeError" then NetworkKind
  else if String.eqb name "SyntaxError" then DecodingKind
  else if String.eqb name "Error" && String.prefix "Request timeout" message then TimeoutKind
  else if String.eqb name "Error" && String.prefix "HTTP Error " message then HttpStatusKind
  else OtherKind.

Definition timeout_error : exn := JsError "Error" "Request timeout after 5 seconds".

(** The options [safeFetch] passes to [fetch] when called at time [t]. *)
Definition with_timer (t : Z) (options : value) : value :=
  VObj (set_field "signal" (VSignal (Some (t + 5000)%Z)) (spread (or_empty_object options))).

(** A transport that does not answer within a minute. *)
Definition hanging : World :=
  fun _ _ _ => (60000%Z, Respond 200 "OK" (JsonBody VNull)).

(** The error a run ended with, if it ended with one. *)
Definition rejection {A} (o : outcome A) : option exn :=
  match o with Fulfilled _ => None | Rejected e => Some e end.

(** ** Sessions of [AuthAPI] *)

(** What [_request] leaves of call [t] when it is run again with the
    token [tok]. *)
Definition redispatched (tok : value) (t : call) : call :=
  match headers_for tok (or_empty_object (options t)) with
  | Rejected e => with_phase (Settled (Rejected e)) t
  | Fulfilled headers =>
      mkCall (endpoint t) (options t)
        (VObj (set_field "headers" (VObj headers) (spread (or_empty_object (options t)))))
        AwaitResponse
  end.

(** The [headers] of the options of a call can be read. *)
Definition readable (t : call) : Prop :=
  is_fulfilled (get_prop (or_empty_object (options t)) "headers") = true.

(** The states the class can be in: the pending refresh is the one whose
    [fetch] is unanswered, the calls that wait for a refresh wait for the
    pending one, and a call that is not settled got past the reading of
    its headers. *)
Record consistent (a : api) : Prop := {
  one_inflight :
    inflight a = match refreshPromise a with Some p => [p] | None => [] end;
  waiters_wait_for_it :
    forall i t p, tasks a !! i = Some t -> ph t = AwaitRefresh p ->
                  refreshPromise a = Some p;
  unsettled_readable :
    forall i t, tasks a !! i = Some t ->
                (forall o, ph t <> Settled o) -> readable t
}.

(** The fields of the object that the calls of [_request] leave alone. *)
Definition same_session (a b : api) : Prop :=
  baseURL b = baseURL a /\ refreshPromise b = refreshPromise a /\
  storage b = storage a /\ refreshes b = refreshes a /\ inflight b = inflight a.

(** The answers "401" to the calls [callers], in the order of their
    arrival. *)
Definition unauthorized (arrivals : list (nat * string * body)) : list event :=
  map (fun r => Response r.1.1 (Respond 401 r.1.2 r.2)) arrivals.

Definition callers (arrivals : list (nat * string * body)) : list nat :=
  map (fun r => r.1.1) arrivals.

(** A session with the token "t1" and two calls awaiting their responses. *)
Definition two_calls : api :=
  run [Call "/users" (VObj [("method", VStr "GET")]);
       Call "/posts" (VObj [("method", VStr "GET")])]
    (set_token (VStr "t1") (create "https://api.example.com" None)).

Definition answer_401 : answer := Respond 401 "Unauthorized" (BadBody "").

Definition answer_token (t : string) : answer :=
  Respond 200 "OK" (JsonBody (VObj [("token", VStr t)])).

(** Call [i] receives a 401 and the refresh it starts is answered, once
    for each element of the list: the status text and body of the 401 and
    the answer to the refresh. *)
Fixpoint rounds (i p : nat) (l : list (string * body * answer)) : list event :=
  match l with
  | [] => []
  | r :: rest =>
      Response i (Respond 401 r.1.1 r.1.2) :: RefreshResponse p r.2 :: rounds i (S p) rest
  end.

(** The answer to a refresh carries a usable token. *)
Definition refresh_succeeds (r : string * body * answer) : Prop :=
  exists tok, refreshed r.2 = Fulfilled tok /\ truthy tok = true.

(** How many of the calls of [fetch] went to [url]. *)
Definition dispatches (url : string) (s : state) : nat :=
  length (filter (fun c => c.1 = url) (calls s)).

(** A refresh that succeeds, whatever requests it makes on the way. *)
Definition refresh_always_succeeds (refreshToken : value -> M value) : Prop :=
  forall tok s, exists tok' extra s',
    refreshToken tok s = (Fulfilled tok', s') /\ calls s' = calls s ++ extra.

(** Two rounds: each 401 is followed by a refresh that brings a token. *)
Definition two_rounds : list (string * body * answer) :=
  [("Unauthorized", BadBody "", answer_token "t2");
   ("Unauthorized", BadBody "", answer_token "t3")].

(** ** Requests made together and one after the other *)

(** [response.ok], by the status. *)
Definition ok_status (code : Z) : bool := ((200 <=? code) && (code <=? 299))%Z.

(** What [fetch(url).then(r => r.json())] makes of the answer of the
    transport: the status is not looked at. *)
Definition reply_value (a : answer) : outcome value :=
  match a with
  | NetworkError msg => Rejected (JsError "TypeError" msg)
  | Respond _ _ (JsonBody v) => Fulfilled v
  | Respond _ _ (BadBody msg) => Rejected (JsError "SyntaxError" msg)
  end.

(** The data an answer delivers to a caller that checks [response.ok]:
    [null] stands for none. *)
Definition delivered (a : answer) : value :=
  match a with
  | Respond code _ (JsonBody v) => if ok_status code then v else VNull
  | _ => VNull
  end.

(** The message of the error with which the request for [key] fails, if
    it fails. *)
Definition failure (key : string) (a : answer) : option string :=
  match a with
  | NetworkError msg => Some msg
  | Respond code _ b =>
      if ok_status code
      then match b with JsonBody _ => None | BadBody msg => Some msg end
      else Some ("Failed to fetch " +:+ key)
  end.

(** The entry of [errors] for [key]: none when the message is empty. *)
Definition reported (key : string) (a : answer) : list value :=
  match failure key a with
  | Some msg => if String.eqb msg "" then [] else [VObj [(key, VStr msg)]]
  | None => []
  end.

Definition users_url : string := "https://jsonplaceholder.typicode.com/users".
Definition posts_url : string := "https://jsonplaceholder.typicode.com/posts".
Definition comments_url : string := "https://jsonplaceholder.typicode.com/comments".
Definition users1_url : string := "https://jsonplaceholder.typicode.com/users/1".
Definition posts_of (id : value) : string :=
  "https://jsonplaceholder.typicode.com/posts?userId=" +:+ to_string id.

(** A computation that calls [fetch] once, for [url] without options,
    and settles by what the transport answers. *)
Definition single_fetch {A} (w : World) (m : M A) (url : string)
    (f : answer -> outcome A) : Prop :=
  forall s, well_formed s ->
    result (m s) = f (w (length (calls s)) url VUndefined).2 /\
    calls (final (m s)) = calls s ++ [(url, VUndefined)] /\
    well_formed (final (m s)).

(** What [fetchSafe(key, url)] makes of the answer of the transport. *)
Definition safe_result (key : string) (a : answer) : Solutions.Dashboard.settled :=
  Solutions.Dashboard.mkSettled key (delivered a)
    (match failure key a with Some msg => VStr msg | None => VNull end).

(** A transport whose second answer is a network failure. *)
Definition posts_down : World := fun i _ _ =>
  (20%Z,
   match i with
   | 1 => NetworkError "Failed to fetch"
   | _ => Respond 200 "OK" (JsonBody (VArr [VObj [("id", VNum 1)]]))
   end).

(** A transport for a user who wrote nothing. *)
Definition no_posts : World := fun i _ _ =>
  (20%Z,
   match i with
   | 0 => Respond 200 "OK" (JsonBody (VObj [("id", VNum 1); ("name", VStr "Leanne")]))
   | _ => Respond 200 "OK" (JsonBody (VArr []))
   end).

(** ** Retries, caches and services *)


(* vocabulary *)
(** A computation that waits for no timer of its own. *)
Definition quiet (fn : M value) : Prop := forall s, sleeps (fn s).2 = sleeps s.



(** The run sent one request, to [url], with the given method, with the
    given body when one is named, and with a [headers] object. *)
Definition sends (s : state) (r : outcome value * state) (url method : string)
    (body : option value) : Prop :=
  exists request headers,
    calls (final r) = calls s ++ [(url, VObj request)] /\
    assoc "method" request = Some (VStr method) /\
    assoc "headers" request = Some (VObj headers) /\
    match body with Some b => assoc "body" request = Some b | None => True end.

(** ** Sessions and batches *)


(** The options [fetchProtected] sends for the token [tok]. *)
Definition bearer (tok : value) : value :=
  VObj [("headers", VObj [("Authorization", VStr ("Bearer " +:+ to_string tok))])].

(** A transport whose every answer is 401. *)
Definition always_401 : World :=
  fun _ _ _ => (20%Z, Respond 401 "Unauthorized" (JsonBody VNull)).

(** A transport that lets everyone in, with the token "t1". *)
Definition login_ok : World :=
  fun _ _ _ => (20%Z, Respond 200 "OK"
                        (JsonBody (VObj [("token", VStr "t1"); ("user", VStr "ada")]))).

(** How the promise of an item settles by the entry of [responses] that
    answers it. *)
Definition answered (entry : value) : outcome value :=
  match get_prop entry "error" with
  | Fulfilled error =>
      if truthy error then Rejected (JsError "Error" (to_string error))
      else match get_prop entry "data" with
           | Fulfilled d => Fulfilled d
           | Rejected e => Rejected e
           end
  | Rejected e => Rejected e
  end.

Definition is_object (v : value) : Prop := exists fields, v = VObj fields.

(** The error of reading [error] of an entry that is not there. *)
Definition no_entry : exn :=
  JsError "TypeError" "Cannot read properties of undefined (reading 'error')".

(** The options of the request that carries the batch [requests]. *)
Definition batch_options (requests : list value) : value :=
  VObj [("method", VStr "POST");
        ("headers", VObj [("Content-Type", VStr "application/json")]);
        ("body", match JSON_stringify (VObj [("requests", VArr requests)]) with
                 | Some text => VStr text
                 | None => VUndefined
                 end)].


(** The calls of [add] of the guide's batcher, each with its instant. *)
Definition adds (batchDelay : Z) (l : list (Z * value))
    (b : Guide.RequestBatcher.batcher) : Guide.RequestBatcher.batcher :=
  fold_left (fun b c => Guide.RequestBatcher.add batchDelay c.1 c.2 b) l b.

(** The calls of [fetch] of the solutions' batcher, each with its instant. *)
Definition queued (delay : Z) (l : list (Z * string * value))
    (b : Solutions.RequestBatcher.batcher) : Solutions.RequestBatcher.batcher :=
  fold_left (fun b c => Solutions.RequestBatcher.fetch delay c.1.1 c.1.2 c.2 b) l b.

(** A batch endpoint that answers two requests: the first with data, the
    second with an error. *)
Definition two_answers : World :=
  fun _ _ _ =>
    (20%Z, Respond 200 "OK"
             (JsonBody (VObj [("responses",
                               VArr [VObj [("data", VNum 1)];
                                     VObj [("error", VStr "not found")]])]))).

Definition three_items : list Solutions.RequestBatcher.item :=
  [Solutions.RequestBatcher.mkItem "/api/users/1" (VObj []);
   Solutions.RequestBatcher.mkItem "/api/posts" (VObj []);
   Solutions.RequestBatcher.mkItem "/api/comments" (VObj [])].

(** ** Feeds *)

(** The answer that carries the page [p]. *)
Definition page_answer (p : list value) : answer := Respond 200 "OK" (JsonBody (VArr p)).

(** A page that is not the last: it has elements, and as many as were
    asked for. *)
Definition full (pageSize : Z) (p : list value) : Prop :=
  p <> [] /\ (pageSize <= Z.of_nat (length p))%Z.

(** The pages are loaded one after the other: call [i] of [loadNext()]
    is answered with the first page before the next call is made. *)
Fixpoint loading (i : nat) (pages : list (list value))
  : list Solutions.PaginatedFeed.event :=
  match pages with
  | [] => []
  | p :: rest =>
      Solutions.PaginatedFeed.LoadNext ::
      Solutions.PaginatedFeed.Answer i (page_answer p) :: loading (S i) rest
  end.

(** No page is loading, and more may come. *)
Definition idle (f : Solutions.PaginatedFeed.feed) : Prop :=
  Solutions.PaginatedFeed._isLoading f = false /\
  Solutions.PaginatedFeed._hasMore f = true.

(** An answer with which a load fails. *)
Definition failed_answer (ans : answer) : Prop :=
  match ans with
  | NetworkError _ => True
  | Respond code _ b =>
      ok_status code = false \/ exists msg, b = BadBody msg
  end.

Definition no_reset (ev : Solutions.PaginatedFeed.event) : Prop :=
  ev <> Solutions.PaginatedFeed.Reset.

(** The states the feed is in when [reset()] is not called: at most one
    call waits for an answer, and then [_isLoading] is set, more is to
    come and the page asked for is the one after [_currentPage]. *)
Record orderly (f : Solutions.PaginatedFeed.feed) : Prop := {
  loading_is_flagged :
    forall i p, Solutions.PaginatedFeed.loads f !! i = Some (Solutions.PaginatedFeed.Loading p) ->
      Solutions.PaginatedFeed._isLoading f = true /\
      Solutions.PaginatedFeed._hasMore f = true /\
      p = S (Solutions.PaginatedFeed._currentPage f);
  one_at_a_time :
    forall i j p q,
      Solutions.PaginatedFeed.loads f !! i = Some (Solutions.PaginatedFeed.Loading p) ->
      Solutions.PaginatedFeed.loads f !! j = Some (Solutions.PaginatedFeed.Loading q) ->
      i = j
}.

(** Nothing more is to come and no call waits for an answer. *)
Definition exhausted (f : Solutions.PaginatedFeed.feed) : Prop :=
  Solutions.PaginatedFeed._hasMore f = false /\
  forall i p,
    Solutions.PaginatedFeed.loads f !! i <> Some (Solutions.PaginatedFeed.Loading p).

(** The fields of the feed that the page shows. *)
Definition shown (f : Solutions.PaginatedFeed.feed) : nat * list value * list string :=
  (Solutions.PaginatedFeed._currentPage f, Solutions.PaginatedFeed._items f,
   Solutions.PaginatedFeed.requested f).

(** An answer that carries no page, whatever its status: the transport
    failed, or the body is not JSON. *)
Definition unreadable (ans : answer) : Prop :=
  match ans with
  | NetworkError _ => True
  | Respond _ _ (BadBody _) => True
  | Respond _ _ (JsonBody _) => False
  end.

(** The order of the integers; [false] when the left side is not a
    number. *)
Definition number_less_than (v : value) (n : Z) : bool :=
  match v with
  | VNum m => (m <? n)%Z
  | _ => false
  end.

(** ** Debounced searches *)





(** * Properties *)

(** ** Running the monad *)

Lemma bind_run {A B} (m : M A) (k : A -> M B) (s : state) :
  (m ≫= k) s =
  match m s with
  | (Fulfilled a, s') => k a s'
  | (Rejected e, s') => (Rejected e, s')
  end.
Proof. reflexivity. Qed.

Lemma try_catch_run {A} (m : M A) (h : exn -> M A) (s : state) :
  try_catch m h s =
  match m s with
  | (Fulfilled a, s') => (Fulfilled a, s')
  | (Rejected e, s') => h e s'
  end.
Proof. reflexivity. Qed.

(** ** Strings *)




(** ** What [fetch] and [json] do to the logs *)

Lemma fetch_logs w url o s :
  calls (fetch w url o s).2 = calls s ++ [(url, o)] /\
  sleeps (fetch w url o s).2 = sleeps s /\
  cache (fetch w url o s).2 = cache s /\
  consumed (fetch w url o s).2 = consumed s.
Proof.
  unfold fetch. destruct (w _ url o) as [latency a].
  destruct (signal_of o) as [t|]; [destruct (t <=? _)%Z|]; try destruct a; auto.
Qed.

Lemma fetch_no_signal w url o s latency a :
  signal_of o = None ->
  w (length (calls s)) url o = (latency, a) ->
  fetch w url o s =
  (match a with
   | NetworkError msg => Rejected (JsError "TypeError" msg)
   | Respond code text b => Fulfilled (mkResponse (length (calls s)) code text b)
   end,
   set_now (now s + Z.max 0 latency)%Z (log_call (url, o) s)).
Proof. intros Hsig Hw. unfold fetch. rewrite Hw, Hsig. destruct a; reflexivity. Qed.

Lemma json_logs r s :
  calls (json r s).2 = calls s /\ sleeps (json r s).2 = sleeps s /\
  cache (json r s).2 = cache s /\ now (json r s).2 = now s.
Proof.
  unfold json. destruct (decide _); [auto|]. destruct (payload r); auto.
Qed.

(** ** The retry loop of the guide *)

Lemma guide_attempt_logs w url o s :
  calls (Guide.try_block w url o s).2 = calls s ++ [(url, o)] /\
  sleeps (Guide.try_block w url o s).2 = sleeps s.
Proof.
  unfold Guide.try_block. rewrite bind_run.
  pose proof (fetch_logs w url o s) as (Hc & Hs & _).
  destruct (fetch w url o s) as [[r|e] s1]; simpl in *; [|auto].
  destruct (negb (ok r)); [auto|].
  pose proof (json_logs r s1) as (Hc' & Hs' & _).
  rewrite Hc', Hs'. auto.
Qed.

Lemma guide_attempt_status w url o s code :
  signal_of o = None ->
  (exists latency text b, w (length (calls s)) url o = (latency, Respond code text b)) ->
  ((200 <=? code) && (code <=? 299))%Z = false ->
  result (Guide.try_block w url o s) = Rejected (JsError "Error" ("HTTP " +:+ Z_to_string code)).
Proof.
  intros Hsig (latency & text & b & Hw) Hok.
  unfold result, Guide.try_block. rewrite bind_run.
  rewrite (fetch_no_signal _ _ _ _ _ _ Hsig Hw).
  unfold ok. simpl. rewrite Hok. reflexivity.
Qed.

Lemma doubling_S delay k : doubling delay (S k) = delay :: doubling (delay * 2) k.
Proof.
  unfold doubling. simpl. f_equal; [lia|].
  rewrite <- seq_shift, map_map. apply map_ext. intros j.
  rewrite Nat2Z.inj_succ, Z.pow_succ_r by lia. lia.
Qed.


Lemma guide_loop_always_failing w url o retries code :
  always_status w code ->
  ((200 <=? code) && (code <=? 299))%Z = false ->
  signal_of o = None ->
  forall remaining i delay s,
    i + remaining = retries ->
    let r := Guide.retry_loop w url o retries remaining i delay s in
    result r = (if remaining =? 0 then Fulfilled VUndefined
                else Rejected (JsError "Error" ("HTTP " +:+ Z_to_string code))) /\
    calls (final r) = calls s ++ replicate remaining (url, o) /\
    sleeps (final r) = sleeps s ++ doubling delay (remaining - 1).
Proof.
  intros Hw Hok Hsig. induction remaining as [|remaining IH]; intros i delay s Hi.
  - simpl. rewrite !app_nil_r. auto.
  - cbn zeta. simpl Guide.retry_loop. rewrite try_catch_run.
    pose proof (guide_attempt_status w url o s code Hsig (Hw _ _ _) Hok) as Hres.
    pose proof (guide_attempt_logs w url o s) as [Hc Hs].
    destruct (Guide.try_block w url o s) as [res s1].
    unfold result in Hres. simpl in Hres, Hc, Hs. subst res.
    destruct (Z.eqb_spec (Z.of_nat i) (Z.of_nat retries - 1)) as [Hlast|Hmore].
    + assert (remaining = 0) by lia. subst remaining.
      simpl. rewrite Hc, Hs, app_nil_r. auto.
    + rewrite bind_run. simpl.
      specialize (IH (S i) (delay * 2)%Z
                    (set_now (now s1 + Z.max 0 delay)%Z (log_sleep delay s1))
                    ltac:(lia)).
      cbn zeta in IH. destruct IH as (Hr & Hc' & Hs').
      destruct remaining as [|remaining]; [lia|].
      split; [exact Hr|]. split.
      * rewrite Hc'. simpl. rewrite Hc, <- app_assoc. reflexivity.
      * rewrite Hs'. simpl. rewrite Hs, Nat.sub_0_r, doubling_S, <- app_assoc.
        reflexivity.
Qed.

(** ** The retry loop of the solutions *)

Lemma solutions_attempt_logs w url o s :
  calls (Solutions.try_block w url o s).2 = calls s ++ [(url, o)] /\
  sleeps (Solutions.try_block w url o s).2 = sleeps s.
Proof.
  unfold Solutions.try_block. rewrite bind_run.
  pose proof (fetch_logs w url o s) as (Hc & Hs & _).
  destruct (fetch w url o s) as [[r|e] s1]; simpl in *; [|auto].
  destruct (negb (ok r)); [destruct (_ && _)%Z; auto|].
  pose proof (json_logs r s1) as (Hc' & Hs' & _).
  rewrite Hc', Hs'. auto.
Qed.

Lemma powers_of_two_S n k :
  powers_of_two n (S k) = (2 ^ Z.of_nat n * 1000)%Z :: powers_of_two (S n) k.
Proof.
  unfold powers_of_two. simpl. f_equal; [rewrite Nat.add_0_r; reflexivity|].
  rewrite <- seq_shift, map_map. apply map_ext. intros j.
  replace (n + S j) with (S (n + j)) by lia. reflexivity.
Qed.



Lemma server_error_500_retryable text :
  includes text "Client error" = false ->
  Solutions.not_retryable
    (JsError "Error" ("Server error " +:+ Z_to_string 500 +:+ ": " +:+ text)) = false.
Proof.
  intros H. unfold Solutions.not_retryable. cbn. cbv [String.append]. cbn.
  rewrite H. reflexivity.
Qed.

Lemma solutions_attempt_status w url o s code latency text b :
  signal_of o = None ->
  w (length (calls s)) url o = (latency, Respond code text b) ->
  ((200 <=? code) && (code <=? 299))%Z = false ->
  result (Solutions.try_block w url o s) =
  Rejected (JsError "Error"
              ((if ((400 <=? code) && (code <? 500))%Z
                then "Client error " else "Server error ") +:+
               Z_to_string code +:+ ": " +:+ text)).
Proof.
  intros Hsig Hw Hok.
  unfold result, Solutions.try_block. rewrite bind_run.
  rewrite (fetch_no_signal _ _ _ _ _ _ Hsig Hw).
  unfold ok. simpl. rewrite Hok. simpl.
  destruct ((400 <=? code) && (code <? 500))%Z; reflexivity.
Qed.

Lemma solutions_loop_always_500 w url o maxRetries :
  always_status w 500 ->
  plain_status_text w ->
  signal_of o = None ->
  forall remaining n last s,
    n + remaining = S maxRetries ->
    0 < remaining ->
    let r := Solutions.retry_loop w url o maxRetries remaining n last s in
    (exists text,
       result r =
       Rejected (JsError "Error"
                   ("Failed after " +:+ nat_to_string (maxRetries + 1) +:+
                    " attempts: " +:+
                    ("Server error " +:+ Z_to_string 500 +:+ ": " +:+ text)))) /\
    calls (final r) = calls s ++ replicate remaining (url, o) /\
    sleeps (final r) = sleeps s ++ powers_of_two n (remaining - 1).
Proof.
  intros Hw Hplain Hsig.
  induction remaining as [|remaining IH]; intros n last s Hn Hpos; [lia|].
  cbn zeta. simpl Solutions.retry_loop. rewrite try_catch_run.
  destruct (Hw (length (calls s)) url o) as (latency & text & b & Hreply).
  pose proof (solutions_attempt_status w url o s 500 latency text b Hsig Hreply eq_refl)
    as Hres.
  pose proof (solutions_attempt_logs w url o s) as [Hc Hs].
  destruct (Solutions.try_block w url o s) as [res s1].
  unfold result in Hres. simpl in Hres, Hc, Hs. subst res.
  rewrite (server_error_500_retryable text (Hplain _ _ _ _ _ _ _ Hreply)).
  destruct (Nat.eqb_spec n maxRetries) as [Hlast|Hmore].
  - assert (remaining = 0) by lia. subst remaining.
    simpl. rewrite Hc, Hs, app_nil_r. eauto.
  - rewrite bind_run. simpl.
    specialize (IH (S n)
                  (JsError "Error" ("Server error " +:+ Z_to_string 500 +:+ ": " +:+ text))
                  (set_now (now s1 + Z.max 0 (2 ^ Z.of_nat n * 1000))%Z
                     (log_sleep (2 ^ Z.of_nat n * 1000)%Z s1))
                  ltac:(lia) ltac:(lia)).
    cbn zeta in IH. destruct IH as (Hr & Hc' & Hs').
    destruct remaining as [|remaining]; [lia|].
    split; [exact Hr|]. split.
    + rewrite Hc'. simpl. rewrite Hc, <- app_assoc. reflexivity.
    + rewrite Hs'. simpl. rewrite Hs, Nat.sub_0_r, powers_of_two_S, <- app_assoc.
      reflexivity.
Qed.

(** C2, as the solutions implement it and as the guide implements it.
    Against a transport that answers every call with status 500 (and whose
    status text does not itself read "Client error"), and with no abort
    signal in the options: [Solutions.fetchWithRetry] with [maxRetries = N]
    calls [fetch] exactly [N + 1] times and then rejects with
    "Failed after N+1 attempts: Server error 500: ..."; the guide's
    [fetchWithRetry] with [retries = N] calls [fetch] exactly [N] times and
    rejects with "HTTP 500" (it returns [undefined] when [N = 0]). *)
Theorem C2_retry_bound (w : World) (url : string) (options : value) (N : nat)
    (delay : Z) (s : state) :
  always_status w 500 ->
  plain_status_text w ->
  signal_of (or_empty_object options) = None ->
  (let r := Solutions.fetchWithRetry w url options N s in
   fetches s r = N + 1 /\
   exists text,
     result r =
     Rejected (JsError "Error"
                 ("Failed after " +:+ nat_to_string (N + 1) +:+
                  " attempts: Server error 500: " +:+ text))) /\
  (let r := Guide.fetchWithRetry w url options N delay s in
   fetches s r = N /\
   result r = (if N =? 0 then Fulfilled VUndefined
               else Rejected (JsError "Error" "HTTP 500"))).
Proof.
  intros Hw Hplain Hsig. split.
  - destruct (solutions_loop_always_500 w url (or_empty_object options) N
                Hw Hplain Hsig (S N) 0 (Thrown VUndefined) s ltac:(lia) ltac:(lia))
      as ((text & Hr) & Hc & _).
    cbn zeta. unfold Solutions.fetchWithRetry, fetches. split.
    + rewrite Hc, length_app, length_replicate. lia.
    + exists text. rewrite Hr. reflexivity.
  - destruct (guide_loop_always_failing w url (or_empty_object options) N 500
                Hw eq_refl Hsig N 0 delay s ltac:(lia)) as (Hr & Hc & _).
    cbn zeta. unfold Guide.fetchWithRetry, fetches. split.
    + rewrite Hc, length_app, length_replicate. lia.
    + rewrite Hr. reflexivity.
Qed.

Lemma always_500_status : always_status always_500 500.
Proof. intros i url o. unfold always_500. eauto. Qed.

Lemma always_500_plain : plain_status_text always_500.
Proof.
  intros i url o latency code text b H. unfold always_500 in H.
  injection H as _ _ <- _. reflexivity.
Qed.

Lemma C2_retry_bound_witness :
  (fetches fresh (Solutions.fetchWithRetry always_500 "/api/data" (VObj []) 3 fresh) = 4 /\
   exists text,
     result (Solutions.fetchWithRetry always_500 "/api/data" (VObj []) 3 fresh) =
     Rejected (JsError "Error"
                 ("Failed after " +:+ nat_to_string 4 +:+
                  " attempts: Server error 500: " +:+ text))) /\
  (fetches fresh (Guide.fetchWithRetry always_500 "/api/data" (VObj []) 3 1000 fresh) = 3 /\
   result (Guide.fetchWithRetry always_500 "/api/data" (VObj []) 3 1000 fresh) =
   Rejected (JsError "Error" "HTTP 500")).
Proof.
  exact (C2_retry_bound always_500 "/api/data" (VObj []) 3 1000 fresh
           always_500_status always_500_plain eq_refl).
Defined.

(** The guide's [fetchWithRetry] with [retries = 3] stops after three
    calls of [fetch], not after [3 + 1]. *)
Lemma C2_guide_counts_attempts :
  fetches fresh (Guide.fetchWithRetry always_500 "/api/data" (VObj []) 3 1000 fresh)
  <> 3 + 1.
Proof. vm_compute. discriminate. Qed.

(** ** Which failures the solutions retry *)












Lemma doubling_lookup (base : Z) (k n : nat) :
  n < k -> doubling base k !! n = Some (base * 2 ^ Z.of_nat n)%Z.
Proof.
  intros Hn. unfold doubling. rewrite list_lookup_fmap.
  rewrite lookup_seq_lt by lia. reflexivity.
Qed.

Example backoff_of_the_guide :
  sleeps (final (Guide.fetchWithRetry always_500 "/api/data" (VObj []) 4 250 fresh))
  = [250; 500; 1000]%Z.
Proof. vm_compute. reflexivity. Qed.

Example backoff_of_the_solutions :
  sleeps (final (Solutions.fetchWithRetry always_500 "/api/data" (VObj []) 3 fresh))
  = [1000; 2000; 4000]%Z.
Proof. vm_compute. reflexivity. Qed.

(** ** The caches *)

Lemma guide_request_spec w key url o s :
  let r := Guide.RequestCache.request w key url o s in
  calls (final r) = calls s ++ [(url, o)] /\
  (forall d, result r = Fulfilled d ->
     cache (final r) = <[key := mkEntry d (now (final r))]> (cache s)) /\
  (forall e, result r = Rejected e -> cache (final r) = cache s).
Proof.
  cbn zeta. unfold Guide.RequestCache.request, result, final. rewrite bind_run.
  pose proof (fetch_logs w url o s) as (Hc & _ & Hca & _).
  destruct (fetch w url o s) as [[resp|e] s1]; simpl in *; [|repeat split; auto; discriminate].
  rewrite bind_run.
  pose proof (json_logs resp s1) as (Hc' & _ & Hca' & _).
  destruct (json resp s1) as [[d|e] s2]; simpl in *.
  - repeat split; [congruence| |discriminate].
    intros d' [= <-]. congruence.
  - repeat split; [congruence|discriminate|]. intros; congruence.
Qed.

Lemma solutions_request_spec w key url o s :
  let r := Solutions.CachedFetch.request w key url o s in
  calls (final r) = calls s ++ [(url, o)] /\
  (forall d, result r = Fulfilled d ->
     cache (final r) = <[key := mkEntry d (now (final r))]> (cache s)) /\
  (forall e, result r = Rejected e -> cache (final r) = cache s).
Proof.
  cbn zeta. unfold Solutions.CachedFetch.request, result, final.
  rewrite try_catch_run, bind_run.
  pose proof (fetch_logs w url o s) as (Hc & _ & Hca & _).
  destruct (fetch w url o s) as [[resp|e] s1]; simpl in *; [|repeat split; auto; discriminate].
  destruct (negb (ok resp)); simpl; [repeat split; auto; discriminate|].
  rewrite bind_run.
  pose proof (json_logs resp s1) as (Hc' & _ & Hca' & _).
  destruct (json resp s1) as [[d|e] s2]; simpl in *.
  - repeat split; [congruence| |discriminate].
    intros d' [= <-]. congruence.
  - repeat split; [congruence|discriminate|]. intros; congruence.
Qed.

Lemma cachedfetch_lookup w ttl url options s key e :
  Solutions.CachedFetch._getCacheKey url options = Fulfilled key ->
  cache s !! key = Some e ->
  Solutions.CachedFetch.fetch w ttl url options s =
  if (now s - timestamp e <? ttl)%Z then (Fulfilled (data e), s)
  else Solutions.CachedFetch.request w key url (or_empty_object options) (evicted key s).
Proof.
  intros Hkey He.
  assert (Hkey' : Solutions.CachedFetch._getCacheKey url (or_empty_object options)
                  = Fulfilled key) by (destruct options; exact Hkey).
  unfold Solutions.CachedFetch.fetch. rewrite bind_run.
  unfold lift. rewrite Hkey', bind_run. simpl. rewrite He, bind_run. simpl.
  destruct (now s - timestamp e <? ttl)%Z; reflexivity.
Qed.




Lemma cached_at_0_solutions t :
  cache (cached_at_0 t) !! "GET:/api/users:" = Some (mkEntry (VNum 1) 0).
Proof. apply lookup_insert_eq. Qed.













(** ** Challenge 5.2: the deduplicating wrapper *)



(** ** Timeouts and cancellation *)

Lemma assoc_set_field key v fields : assoc key (set_field key v fields) = Some v.
Proof.
  induction fields as [|[k x] rest IH]; simpl.
  - rewrite String.eqb_refl. reflexivity.
  - destruct (String.eqb k key) eqn:Hk; simpl; rewrite Hk; [reflexivity | exact IH].
Qed.

Lemma set_field_twice key v v' fields :
  set_field key v (set_field key v' fields) = set_field key v fields.
Proof.
  induction fields as [|[k x] rest IH]; simpl.
  - rewrite String.eqb_refl. reflexivity.
  - destruct (String.eqb k key) eqn:Hk; simpl; rewrite Hk; [reflexivity | f_equal; exact IH].
Qed.

Lemma fetch_with_signal w url fields t s :
  assoc "signal" fields = Some (VSignal (Some t)) ->
  fetch w url (VObj fields) s =
  let reply := w (length (calls s)) url (VObj fields) in
  let arrival := (now s + Z.max 0 reply.1)%Z in
  let s' := log_call (url, VObj fields) s in
  if (t <=? arrival)%Z then (Rejected AbortError, set_now (Z.max (now s) t) s')
  else (match reply.2 with
        | NetworkError msg => Rejected (JsError "TypeError" msg)
        | Respond code text b => Fulfilled (mkResponse (length (calls s)) code text b)
        end, set_now arrival s').
Proof.
  intros Hsig. unfold fetch. simpl. rewrite Hsig.
  destruct (w (length (calls s)) url (VObj fields)) as [latency a]. simpl.
  destruct (_ <=? _)%Z; [reflexivity|]. destruct a; reflexivity.
Qed.

(** What [safeFetch] does, by what the transport does with its one call. *)
Lemma safeFetch_result w url options s :
  let reply := w (length (calls s)) url (with_timer (now s) options) in
  result (Solutions.safeFetch w url options s) =
  if (5000 <=? Z.max 0 reply.1)%Z then Rejected timeout_error
  else match reply.2 with
       | NetworkError msg => Rejected (JsError "TypeError" msg)
       | Respond code text b =>
           if ((200 <=? code) && (code <=? 299))%Z
           then result (json (mkResponse (length (calls s)) code text b)
                          (set_now (now s + Z.max 0 reply.1)%Z
                             (log_call (url, with_timer (now s) options) s)))
           else Rejected (JsError "Error"
                            ("HTTP Error " +:+ Z_to_string code +:+ ": " +:+ text))
       end.
Proof.
  cbn zeta. unfold result, Solutions.safeFetch. rewrite bind_run. simpl.
  rewrite try_catch_run, bind_run.
  fold (with_timer (now s) options). unfold with_timer.
  rewrite (fetch_with_signal w url _ (now s + 5000)%Z s (assoc_set_field _ _ _)).
  cbn zeta.
  set (reply := w (length (calls s)) url _).
  replace (now s + 5000 <=? now s + Z.max 0 reply.1)%Z
    with (5000 <=? Z.max 0 reply.1)%Z by lia.
  destruct (5000 <=? Z.max 0 reply.1)%Z; [reflexivity|].
  destruct reply.2 as [msg|code text b]; [reflexivity|].
  unfold ok. simpl.
  destruct ((200 <=? code) && (code <=? 299))%Z; simpl; [|reflexivity].
  unfold json. simpl. destruct (decide _); [reflexivity|]. destruct b; reflexivity.
Qed.

Lemma safeFetch_ignores_signal w url fields sig s :
  Solutions.safeFetch w url (VObj (set_field "signal" sig fields)) s =
  Solutions.safeFetch w url (VObj fields) s.
Proof.
  unfold Solutions.safeFetch. simpl. rewrite !bind_run. simpl.
  rewrite set_field_twice. reflexivity.
Qed.

Lemma fetchWithTimeout_result w url timeout s :
  let options := VObj [("signal", VSignal (Some (now s + Z.max 0 timeout)%Z))] in
  let reply := w (length (calls s)) url options in
  result (Guide.fetchWithTimeout w url timeout s) =
  if (Z.max 0 timeout <=? Z.max 0 reply.1)%Z then Rejected AbortError
  else match reply.2 with
       | NetworkError msg => Rejected (JsError "TypeError" msg)
       | Respond code text b =>
           result (json (mkResponse (length (calls s)) code text b)
                     (set_now (now s + Z.max 0 reply.1)%Z (log_call (url, options) s)))
       end.
Proof.
  cbn zeta. unfold result, Guide.fetchWithTimeout. rewrite bind_run. simpl.
  rewrite try_catch_run, bind_run.
  rewrite (fetch_with_signal w url
             [("signal", VSignal (Some (now s + Z.max 0 timeout)%Z))]
             (now s + Z.max 0 timeout)%Z s eq_refl).
  cbn zeta.
  set (reply := w (length (calls s)) url _).
  replace (now s + Z.max 0 timeout <=? now s + Z.max 0 reply.1)%Z
    with (Z.max 0 timeout <=? Z.max 0 reply.1)%Z by lia.
  destruct (Z.max 0 timeout <=? Z.max 0 reply.1)%Z; [reflexivity|].
  destruct reply.2 as [msg|code text b]; [reflexivity|].
  simpl. unfold json. simpl. destruct (decide _); [reflexivity|]. destruct b; reflexivity.
Qed.

Lemma kind_of_http_error (rest : string) :
  kind_of (JsError "Error" ("HTTP Error " +:+ rest)) = HttpStatusKind.
Proof. unfold kind_of. cbv [String.append]. simpl. destruct rest; reflexivity. Qed.

(** C8, as [safeFetch] and [fetchWithTimeout] implement it.  A rejection
    of [safeFetch] is of one of four kinds that the caller can tell apart
    by the error's name and message, and the kind tells the cause: the
    5000 ms timer fired before the transport answered (timeout), the
    transport failed (network), it answered with a failure status (HTTP
    status), or the body was not JSON (decoding).  No rejection is of the
    cancellation kind: [safeFetch] replaces a [signal] of the caller by
    its timer's, so that a caller's abort changes nothing in the run.
    [fetchWithTimeout] takes no signal of the caller, and its own timer's
    abort reaches the caller as the plain [AbortError]. *)
Theorem C8_failure_kinds (w : World) (url : string) (options : value) (s : state)
    (e : exn) :
  well_formed s ->
  result (Solutions.safeFetch w url options s) = Rejected e ->
  let reply := w (length (calls s)) url (with_timer (now s) options) in
  match kind_of e with
  | TimeoutKind => (5000 <= Z.max 0 reply.1)%Z /\ e = timeout_error
  | NetworkKind =>
      (Z.max 0 reply.1 < 5000)%Z /\
      exists msg, reply.2 = NetworkError msg /\ e = JsError "TypeError" msg
  | HttpStatusKind =>
      (Z.max 0 reply.1 < 5000)%Z /\
      exists code text b,
        reply.2 = Respond code text b /\
        ((200 <=? code) && (code <=? 299))%Z = false /\
        e = JsError "Error" ("HTTP Error " +:+ Z_to_string code +:+ ": " +:+ text)
  | DecodingKind =>
      (Z.max 0 reply.1 < 5000)%Z /\
      exists code text msg,
        reply.2 = Respond code text (BadBody msg) /\ e = JsError "SyntaxError" msg
  | CancelledKind | OtherKind => False
  end /\
  (forall fields sig,
     Solutions.safeFetch w url (VObj (set_field "signal" sig fields)) s =
     Solutions.safeFetch w url (VObj fields) s) /\
  (forall timeout,
     let sent := VObj [("signal", VSignal (Some (now s + Z.max 0 timeout)%Z))] in
     (Z.max 0 timeout <= Z.max 0 (w (length (calls s)) url sent).1)%Z ->
     result (Guide.fetchWithTimeout w url timeout s) = Rejected AbortError /\
     kind_of AbortError = CancelledKind).
Proof.
  intros Hwf Hres. cbn zeta. split; [|split].
  - rewrite safeFetch_result in Hres. cbn zeta in Hres.
    destruct (Z.leb_spec 5000 (Z.max 0 (w (length (calls s)) url
                                          (with_timer (now s) options)).1))
      as [Hslow|Hfast].
    { injection Hres as <-. simpl. auto. }
    destruct ((w (length (calls s)) url (with_timer (now s) options)).2)
      as [msg|code text b] eqn:Hans.
    { injection Hres as <-. simpl. eauto. }
    destruct ((200 <=? code) && (code <=? 299))%Z eqn:Hok.
    + unfold result, json in Hres. simpl in Hres.
      destruct (decide _) as [Hin|_]; [apply Hwf in Hin; lia|].
      destruct b as [v|msg]; [discriminate|].
      injection Hres as <-. simpl. eauto 10.
    + injection Hres as <-. rewrite kind_of_http_error. eauto 10.
  - intros fields sig. apply safeFetch_ignores_signal.
  - intros timeout Hslow. split; [|reflexivity].
    rewrite fetchWithTimeout_result. cbn zeta.
    replace (Z.max 0 timeout <=? _)%Z with true by lia. reflexivity.
Qed.

Lemma fresh_well_formed : well_formed fresh.
Proof. intros i Hi. apply not_elem_of_empty in Hi. destruct Hi. Qed.

Lemma C8_failure_kinds_witness :
  result (Solutions.safeFetch hanging "/api/users" (VObj []) fresh) =
  Rejected timeout_error /\
  kind_of timeout_error = TimeoutKind /\
  (5000 <= Z.max 0 (hanging O "/api/users" (with_timer 0 (VObj []))).1)%Z.
Proof.
  split; [reflexivity|]. split; [reflexivity|].
  exact (proj1 (proj1 (C8_failure_kinds hanging "/api/users" (VObj []) fresh
                         timeout_error fresh_well_formed eq_refl))).
Defined.

(** A run of [safeFetch] in which the caller aborts its signal after
    10 ms ends with the error of a run that the timer ended; and the
    timer-driven abort of [fetchWithTimeout] gives the error that a
    [fetch] aborted by its caller gives. *)
Lemma C8_abort_and_timeout_look_alike :
  rejection (result (Solutions.safeFetch hanging "/api/users"
                       (VObj [("signal", VSignal (Some 10%Z))]) fresh)) =
  Some timeout_error /\
  rejection (result (Solutions.safeFetch hanging "/api/users" (VObj []) fresh)) =
  Some timeout_error /\
  rejection (result (Guide.fetchWithTimeout hanging "/api/users" 5000 fresh)) =
  Some AbortError /\
  rejection (result (fetch hanging "/api/users"
                       (VObj [("signal", VSignal (Some 10%Z))]) fresh)) =
  Some AbortError.
Proof. repeat split; reflexivity. Qed.

Lemma same_session_refl a : same_session a a.
Proof. repeat split. Qed.

Lemma same_session_trans a b c : same_session a b -> same_session b c -> same_session a c.
Proof.
  intros (H1 & H2 & H3 & H4 & H5) (G1 & G2 & G3 & G4 & G5).
  repeat split; congruence.
Qed.

Lemma load_token_truthy a : truthy (token a) = true -> load_token a = a.
Proof. intros H. unfold load_token. rewrite H. reflexivity. Qed.

Lemma load_token_frame a : same_session a (load_token a) /\ tasks (load_token a) = tasks a.
Proof. unfold load_token. destruct (truthy (token a)); repeat split. Qed.

Lemma dispatch_frame i a :
  same_session a (dispatch i a) /\
  (truthy (token a) = true -> token (dispatch i a) = token a).
Proof.
  unfold dispatch. destruct (tasks a !! i) as [t|]; [|split; [apply same_session_refl|auto]].
  destruct (load_token_frame a) as [Hs _]. split.
  - destruct (headers_for _ _); exact Hs.
  - intros Htok. rewrite (load_token_truthy a Htok).
    destruct (headers_for _ _); reflexivity.
Qed.

Lemma dispatch_lookup i a j :
  tasks (dispatch i a) !! j =
  if decide (i = j) then redispatched (token (load_token a)) <$> tasks a !! j
  else tasks a !! j.
Proof.
  unfold dispatch. destruct (tasks a !! i) as [t|] eqn:Ht.
  - destruct (load_token_frame a) as [_ Htasks].
    unfold redispatched.
    destruct (headers_for (token (load_token a)) (or_empty_object (options t)))
      as [headers|e] eqn:Hh; simpl; rewrite Htasks.
    + rewrite list_lookup_insert. destruct (decide (i = j)) as [<-|Hne].
      * rewrite decide_True by (split; [reflexivity|eapply lookup_lt_Some; eauto]).
        rewrite Ht. simpl. rewrite Hh. reflexivity.
      * rewrite decide_False by tauto. reflexivity.
    + rewrite list_lookup_alter. destruct (decide (i = j)) as [<-|Hne]; [|reflexivity].
      rewrite Ht. simpl. rewrite Hh. reflexivity.
  - destruct (decide (i = j)) as [<-|Hne]; [|reflexivity]. rewrite Ht. reflexivity.
Qed.

Lemma resume_spec p idx :
  NoDup idx ->
  forall a,
    same_session a (resume p idx a) /\
    (truthy (token a) = true -> token (resume p idx a) = token a) /\
    forall j,
      match tasks a !! j with
      | None => tasks (resume p idx a) !! j = None
      | Some t =>
          exists tok,
            (truthy (token a) = true -> tok = token a) /\
            tasks (resume p idx a) !! j =
            Some (if bool_decide (j ∈ idx) && waits_for p t
                  then redispatched tok t else t)
      end.
Proof.
  induction 1 as [|i rest Hi Hnd IH]; intros a.
  - simpl. split; [apply same_session_refl|]. split; [auto|].
    intros j. destruct (tasks a !! j) as [t|]; [|reflexivity].
    exists (token a). split; [auto|]. reflexivity.
  - simpl.
    set (a' := match tasks a !! i with
               | Some t => if waits_for p t then dispatch i a else a
               | None => a
               end).
    assert (Hframe : same_session a a' /\
                     (truthy (token a) = true -> token a' = token a)).
    { unfold a'. destruct (tasks a !! i) as [t|]; [|split; [apply same_session_refl|auto]].
      destruct (waits_for p t); [apply dispatch_frame|split; [apply same_session_refl|auto]]. }
    assert (Hlook : forall j,
               tasks a' !! j =
               if decide (i = j)
               then (fun t => if waits_for p t
                              then redispatched (token (load_token a)) t else t)
                      <$> tasks a !! j
               else tasks a !! j).
    { intros j. unfold a'. destruct (tasks a !! i) as [t|] eqn:Ht.
      - destruct (waits_for p t) eqn:Hw.
        + rewrite dispatch_lookup. destruct (decide (i = j)) as [<-|]; [|reflexivity].
          rewrite Ht. simpl. rewrite Hw. reflexivity.
        + destruct (decide (i = j)) as [<-|]; [|reflexivity].
          rewrite Ht. simpl. rewrite Hw. reflexivity.
      - destruct (decide (i = j)) as [<-|]; [|reflexivity]. rewrite Ht. reflexivity. }
    destruct Hframe as [Hsess Htok].
    destruct (IH a') as (Hsess' & Htok' & Htasks').
    split; [eapply same_session_trans; eauto|].
    split; [intros Ht; rewrite Htok', Htok; auto; rewrite Htok; auto|].
    intros j. specialize (Htasks' j). rewrite (Hlook j) in Htasks'.
    destruct (decide (i = j)) as [<-|Hne].
    + destruct (tasks a !! i) as [t|]; simpl in Htasks'; [|exact Htasks'].
      destruct Htasks' as (tok' & _ & Hr).
      rewrite bool_decide_eq_false_2 in Hr by exact Hi. simpl in Hr.
      exists (token (load_token a)). split.
      * intros Ht. rewrite load_token_truthy by exact Ht. reflexivity.
      * rewrite Hr. rewrite bool_decide_eq_true_2 by (apply elem_of_cons; auto).
        reflexivity.
    + destruct (tasks a !! j) as [t|]; [|exact Htasks'].
      destruct Htasks' as (tok' & Htok'' & Hr).
      exists tok'. split.
      * intros Ht. rewrite Htok'' by (rewrite Htok; auto). auto.
      * rewrite Hr. f_equal.
        destruct (decide (j ∈ rest)) as [Hin|Hnin].
        -- rewrite !bool_decide_eq_true_2; auto. apply elem_of_cons; auto.
        -- rewrite !bool_decide_eq_false_2; auto.
           rewrite elem_of_cons. intros [->|]; tauto.
Qed.

Lemma redispatched_phase tok t :
  options (redispatched tok t) = options t /\
  endpoint (redispatched tok t) = endpoint t /\
  ((exists e, ph (redispatched tok t) = Settled (Rejected e)) \/
   (ph (redispatched tok t) = AwaitResponse /\ readable t)).
Proof.
  unfold redispatched, headers_for, readable.
  destruct (get_prop (or_empty_object (options t)) "headers") as [h|e]; simpl; eauto 6.
Qed.

Lemma redispatched_readable tok t :
  readable t ->
  exists headers,
    headers_for tok (or_empty_object (options t)) = Fulfilled headers /\
    redispatched tok t =
    mkCall (endpoint t) (options t)
      (VObj (set_field "headers" (VObj headers) (spread (or_empty_object (options t)))))
      AwaitResponse.
Proof.
  unfold readable, redispatched, headers_for.
  destruct (get_prop (or_empty_object (options t)) "headers") as [h|e]; [|discriminate].
  intros _. eauto.
Qed.

Lemma set_phase_lookup i p a j :
  tasks (set_phase i p a) !! j =
  if decide (i = j) then with_phase p <$> tasks a !! j else tasks a !! j.
Proof.
  unfold set_phase. simpl. rewrite list_lookup_alter.
  destruct (decide (i = j)) as [<-|]; reflexivity.
Qed.

Lemma reject_all_lookup p e a j :
  tasks (reject_all p e a) !! j =
  (fun t => if waits_for p t then with_phase (Settled (Rejected e)) t else t)
    <$> tasks a !! j.
Proof. unfold reject_all. simpl. apply list_lookup_fmap. Qed.

Lemma waits_for_spec p t : waits_for p t = true <-> ph t = AwaitRefresh p.
Proof.
  unfold waits_for. destruct (ph t) as [|q|o]; try (split; discriminate).
  rewrite Nat.eqb_eq. split; [intros ->; reflexivity|intros [= ->]; reflexivity].
Qed.

(** ** The states of [AuthAPI] stay consistent *)

Lemma create_consistent url stored : consistent (create url stored).
Proof. split; simpl; [reflexivity| |]; intros i t; rewrite lookup_nil; discriminate. Qed.

Lemma on_call_consistent path opts a : consistent a -> consistent (on_call path opts a).
Proof.
  intros [H1 H2 H3]. unfold on_call.
  set (a1 := set_tasks (tasks a ++ [mkCall path opts VUndefined AwaitResponse]) a).
  destruct (dispatch_frame (length (tasks a)) a1) as [(_ & Hp & _ & _ & Hin) _].
  assert (Hlook : forall j t,
             tasks (dispatch (length (tasks a)) a1) !! j = Some t ->
             tasks a !! j = Some t \/
             exists tok, t = redispatched tok (mkCall path opts VUndefined AwaitResponse)).
  { intros j t. rewrite dispatch_lookup. simpl.
    destruct (decide (length (tasks a) = j)) as [<-|Hne].
    - rewrite lookup_app_r, Nat.sub_diag by lia. simpl. intros [= <-]. eauto.
    - intros Hj. left.
      destruct (decide (j < length (tasks a))) as [Hlt|Hge].
      + rewrite lookup_app_l in Hj by exact Hlt. exact Hj.
      + rewrite lookup_app_r in Hj by lia.
        destruct (j - length (tasks a)) as [|k] eqn:Hk; [lia|].
        simpl in Hj. rewrite lookup_nil in Hj. discriminate. }
  split.
  - rewrite Hin, Hp. exact H1.
  - intros j t p Hj Hph. rewrite Hp. simpl.
    destruct (Hlook j t Hj) as [Hold|[tok ->]]; [eauto|].
    destruct (redispatched_phase tok (mkCall path opts VUndefined AwaitResponse))
      as (_ & _ & [[e He]|[He _]]); congruence.
  - intros j t Hj Hph.
    destruct (Hlook j t Hj) as [Hold|[tok ->]]; [eauto|].
    destruct (redispatched_phase tok (mkCall path opts VUndefined AwaitResponse))
      as (Ho & _ & [[e He]|[_ Hr]]).
    + exfalso. eapply Hph. exact He.
    + unfold readable in *. rewrite Ho. exact Hr.
Qed.

Lemma set_phase_consistent i p a :
  consistent a ->
  (forall q, p = AwaitRefresh q -> refreshPromise a = Some q) ->
  (forall t, tasks a !! i = Some t -> forall o, ph t <> Settled o) ->
  consistent (set_phase i p a).
Proof.
  intros [H1 H2 H3] Hp Hi. split.
  - exact H1.
  - intros j t q. rewrite set_phase_lookup. simpl.
    destruct (decide (i = j)) as [<-|]; [|eauto].
    destruct (tasks a !! i) as [t0|]; [|discriminate].
    simpl. intros [= <-]. simpl. auto.
  - intros j t. rewrite set_phase_lookup.
    destruct (decide (i = j)) as [<-|]; [|eauto].
    destruct (tasks a !! i) as [t0|] eqn:Ht0; [|discriminate].
    simpl. intros [= <-] _. unfold readable. simpl.
    apply (H3 i t0 Ht0), (Hi t0 eq_refl).
Qed.

Lemma _refreshToken_consistent i a :
  consistent a ->
  (forall t, tasks a !! i = Some t -> forall o, ph t <> Settled o) ->
  consistent (_refreshToken i a).
Proof.
  intros Ha Hi. unfold _refreshToken.
  destruct (refreshPromise a) as [p|] eqn:Hp.
  - apply set_phase_consistent; auto. intros q [= <-]. exact Hp.
  - apply set_phase_consistent; simpl; auto.
    + destruct Ha as [H1 H2 H3]. split; simpl.
      * rewrite H1, Hp. reflexivity.
      * intros j t q Hj Hq. rewrite (H2 j t q Hj Hq) in Hp. discriminate.
      * exact H3.
    + intros q [= <-]. reflexivity.
Qed.

Lemma on_response_consistent i ans a : consistent a -> consistent (on_response i ans a).
Proof.
  intros Ha. unfold on_response.
  destruct (tasks a !! i) as [t|] eqn:Ht; [|exact Ha].
  destruct (ph t) eqn:Hph; try exact Ha.
  assert (Hi : forall t0, tasks a !! i = Some t0 -> forall o, ph t0 <> Settled o).
  { intros t0 Ht0 o. rewrite Ht in Ht0. injection Ht0 as <-. rewrite Hph. discriminate. }
  destruct ans as [msg|code text b].
  - apply set_phase_consistent; auto. discriminate.
  - destruct (code =? 401)%Z; [apply _refreshToken_consistent; auto|].
    destruct (negb _); apply set_phase_consistent; auto; discriminate.
Qed.

Lemma on_refresh_response_consistent p ans a :
  consistent a -> consistent (on_refresh_response p ans a).
Proof.
  intros [H1 H2 H3]. unfold on_refresh_response.
  destruct (bool_decide (p ∈ inflight a)) eqn:Hin; [|split; assumption].
  apply bool_decide_eq_true in Hin.
  assert (Hp : refreshPromise a = Some p).
  { rewrite H1 in Hin. destruct (refreshPromise a) as [q|].
    - apply list_elem_of_singleton in Hin. congruence.
    - apply elem_of_nil in Hin. destruct Hin. }
  assert (Hfil : filter (fun q => q <> p) (inflight a) = []).
  { rewrite H1, Hp. rewrite filter_cons, decide_False by auto. reflexivity. }
  rewrite Hfil.
  destruct (refreshed ans) as [tok|e].
  - set (a1 := mkApi (baseURL a) tok None (Some (to_string tok)) (tasks a)
                 (refreshes a) [] (sent a)).
    change (consistent (resume p (seq 0 (length (tasks a1))) a1)).
    destruct (resume_spec p (seq 0 (length (tasks a1))) (NoDup_seq _ _) a1)
      as ((_ & Hrp & _ & _ & Hinf) & _ & Htasks).
    assert (Hafter : forall j t,
               tasks (resume p (seq 0 (length (tasks a1))) a1) !! j = Some t ->
               exists t0, tasks a !! j = Some t0 /\
                 ((ph t0 <> AwaitRefresh p /\ t = t0) \/
                  (exists tok', t = redispatched tok' t0))).
    { intros j t Hj. specialize (Htasks j).
      change (tasks a1 !! j) with (tasks a !! j) in Htasks.
      destruct (tasks a !! j) as [t0|] eqn:Ht0; [|congruence].
      destruct Htasks as (tok' & _ & Hr). rewrite Hr in Hj. injection Hj as <-.
      exists t0. split; [reflexivity|].
      rewrite bool_decide_eq_true_2
        by (apply elem_of_seq; split; [lia|]; simpl; eapply lookup_lt_Some; eauto).
      simpl. destruct (waits_for p t0) eqn:Hw; [eauto|].
      left. split; [|reflexivity]. intros Hph. apply waits_for_spec in Hph. congruence. }
    split.
    + rewrite Hinf, Hrp. reflexivity.
    + intros j t q Hj Hq. exfalso.
      destruct (Hafter j t Hj) as (t0 & Ht0 & [[Hne ->]|[tok' ->]]).
      * pose proof (H2 j t0 q Ht0 Hq) as Hq'. rewrite Hp in Hq'. congruence.
      * destruct (redispatched_phase tok' t0) as (_ & _ & [[e He]|[He _]]); congruence.
    + intros j t Hj Hns.
      destruct (Hafter j t Hj) as (t0 & Ht0 & [[Hne ->]|[tok' ->]]); [eauto|].
      destruct (redispatched_phase tok' t0) as (Ho & _ & [[e He]|[_ Hr]]).
      * exfalso. eapply Hns. exact He.
      * unfold readable in *. rewrite Ho. exact Hr.
  - set (a1 := mkApi (baseURL a) VNull None None (tasks a) (refreshes a) [] (sent a)).
    change (consistent (reject_all p e a1)). split.
    + reflexivity.
    + intros j t q. rewrite reject_all_lookup.
      change (tasks a1 !! j) with (tasks a !! j).
      destruct (tasks a !! j) as [t0|] eqn:Ht0; [|discriminate]. simpl.
      destruct (waits_for p t0) eqn:Hw; intros [= <-]; simpl; [discriminate|].
      intros Hq. exfalso. pose proof (H2 j t0 q Ht0 Hq) as Hq'.
      rewrite Hp in Hq'. injection Hq' as ->.
      apply waits_for_spec in Hq. congruence.
    + intros j t. rewrite reject_all_lookup.
      change (tasks a1 !! j) with (tasks a !! j).
      destruct (tasks a !! j) as [t0|] eqn:Ht0; [|discriminate]. simpl.
      destruct (waits_for p t0) eqn:Hw; intros [= <-]; simpl.
      * intros Hns. exfalso. eapply Hns. reflexivity.
      * eauto.
Qed.

Lemma step_consistent a ev : consistent a -> consistent (step a ev).
Proof.
  destruct ev; simpl;
    [apply on_call_consistent | apply on_response_consistent
     | apply on_refresh_response_consistent].
Qed.

Lemma run_consistent events a : consistent a -> consistent (run events a).
Proof.
  revert a. induction events as [|ev events IH]; intros a Ha; [exact Ha|].
  simpl. apply IH, step_consistent, Ha.
Qed.

(** ** Calls that meet a 401 *)

Lemma phase_of_lookup a i p :
  phase_of a i = Some p <-> exists t, tasks a !! i = Some t /\ ph t = p.
Proof.
  unfold phase_of. destruct (tasks a !! i) as [t|]; simpl; split.
  - intros [= <-]. eauto.
  - intros (t' & [= <-] & <-). reflexivity.
  - discriminate.
  - intros (t' & Ht & _). discriminate.
Qed.

(** While refresh [p] is pending, a call that meets a 401 waits for it:
    no request is sent, nothing else changes. *)
Lemma unauthorized_join p arrivals :
  forall a,
    consistent a ->
    refreshPromise a = Some p ->
    NoDup (callers arrivals) ->
    (forall i, i ∈ callers arrivals -> phase_of a i = Some AwaitResponse) ->
    let a1 := run (unauthorized arrivals) a in
    same_session a a1 /\ token a1 = token a /\ sent a1 = sent a /\
    forall j,
      tasks a1 !! j =
      (fun t => if bool_decide (j ∈ callers arrivals)
                then with_phase (AwaitRefresh p) t else t) <$> tasks a !! j.
Proof.
  induction arrivals as [|[[i text] b] rest IH]; intros a Ha Hp Hnd Hph; cbn zeta.
  - simpl. split; [apply same_session_refl|]. repeat split.
    intros j. destruct (tasks a !! j); reflexivity.
  - simpl in Hnd. apply NoDup_cons in Hnd as [Hi Hnd].
    simpl run. unfold on_response.
    destruct (proj1 (phase_of_lookup a i AwaitResponse)
                (Hph i ltac:(simpl; apply elem_of_cons; auto))) as (t & Ht & Hpht).
    rewrite Ht, Hpht. simpl. unfold _refreshToken. rewrite Hp.
    set (a' := set_phase i (AwaitRefresh p) a).
    assert (Ha' : consistent a').
    { apply set_phase_consistent; auto.
      - intros q [= <-]. exact Hp.
      - intros t0 Ht0 o. rewrite Ht in Ht0. injection Ht0 as <-. rewrite Hpht.
        discriminate. }
    assert (Hph' : forall i', i' ∈ callers rest -> phase_of a' i' = Some AwaitResponse).
    { intros i' Hi'. unfold phase_of, a'. rewrite set_phase_lookup.
      destruct (decide (i = i')) as [<-|]; [contradiction|].
      apply Hph. simpl. apply elem_of_cons. auto. }
    destruct (IH a' Ha' Hp Hnd Hph') as (Hs & Htok & Hsent & Hl).
    split; [exact Hs|]. split; [exact Htok|]. split; [exact Hsent|].
    intros j. rewrite Hl. unfold a'. rewrite set_phase_lookup. simpl callers.
    destruct (decide (i = j)) as [<-|Hne].
    + rewrite Ht. simpl. f_equal.
      rewrite bool_decide_eq_false_2 by exact Hi.
      rewrite bool_decide_eq_true_2 by (apply elem_of_cons; auto). reflexivity.
    + destruct (tasks a !! j) as [t'|]; [|reflexivity]. simpl. f_equal.
      change (map (fun r : nat * string * body => r.1.1) rest) with (callers rest).
      destruct (decide (j ∈ callers rest)) as [Hin|Hnin].
      * rewrite (bool_decide_eq_true_2 _ Hin).
        rewrite bool_decide_eq_true_2 by (apply elem_of_cons; auto). reflexivity.
      * rewrite (bool_decide_eq_false_2 _ Hnin).
        rewrite bool_decide_eq_false_2; [reflexivity|].
        rewrite elem_of_cons. intros [->|]; tauto.
Qed.

Lemma inflight_of_consistent a p :
  consistent a -> refreshPromise a = Some p -> inflight a = [p].
Proof. intros [H1 _ _] Hp. rewrite H1, Hp. reflexivity. Qed.

Lemma on_refresh_response_pending p ans a :
  inflight a = [p] ->
  on_refresh_response p ans a =
  match refreshed ans with
  | Fulfilled tok =>
      resume p (seq 0 (length (tasks a)))
        (mkApi (baseURL a) tok None (Some (to_string tok)) (tasks a) (refreshes a) []
           (sent a))
  | Rejected e =>
      reject_all p e
        (mkApi (baseURL a) VNull None None (tasks a) (refreshes a) [] (sent a))
  end.
Proof.
  intros Hin. unfold on_refresh_response. rewrite Hin.
  rewrite bool_decide_eq_true_2 by (apply list_elem_of_singleton; reflexivity).
  rewrite filter_cons, decide_False by auto. rewrite filter_nil.
  destruct (refreshed ans); reflexivity.
Qed.

(** When the pending refresh [p] settles, every call that waited for it
    goes on with the new token, or rejects with the error of the
    refresh. *)
Lemma refresh_settles p ans a :
  consistent a ->
  refreshPromise a = Some p ->
  let a2 := on_refresh_response p ans a in
  refreshes a2 = refreshes a /\ inflight a2 = [] /\ refreshPromise a2 = None /\
  match refreshed ans with
  | Fulfilled tok =>
      truthy tok = true ->
      token a2 = tok /\
      forall i t, tasks a !! i = Some t -> ph t = AwaitRefresh p ->
                  phase_of a2 i = Some AwaitResponse /\
                  authorization a2 i = Some (VStr ("Bearer " +:+ to_string tok))
  | Rejected e =>
      token a2 = VNull /\ storage a2 = None /\
      forall i t, tasks a !! i = Some t -> ph t = AwaitRefresh p ->
                  phase_of a2 i = Some (Settled (Rejected e))
  end.
Proof.
  intros Ha Hp. cbn zeta.
  rewrite (on_refresh_response_pending p ans a (inflight_of_consistent a p Ha Hp)).
  destruct (refreshed ans) as [tok|e].
  - set (a1 := mkApi (baseURL a) tok None (Some (to_string tok)) (tasks a)
                 (refreshes a) [] (sent a)).
    change (length (tasks a)) with (length (tasks a1)).
    destruct (resume_spec p (seq 0 (length (tasks a1))) (NoDup_seq _ _) a1)
      as ((_ & Hrp & _ & Hn & Hinf) & Htok & Htasks).
    split; [exact Hn|]. split; [exact Hinf|]. split; [exact Hrp|].
    intros Htruthy. split; [apply Htok; exact Htruthy|].
    intros i t Ht Hph. specialize (Htasks i).
    change (tasks a1 !! i) with (tasks a !! i) in Htasks. rewrite Ht in Htasks.
    destruct Htasks as (tok' & Htok' & Hr).
    rewrite (Htok' Htruthy) in Hr. change (token a1) with tok in Hr.
    rewrite bool_decide_eq_true_2 in Hr
      by (apply elem_of_seq; split; [lia|]; simpl; eapply lookup_lt_Some; eauto).
    rewrite (proj2 (waits_for_spec p t) Hph) in Hr. cbn [andb] in Hr.
    assert (Hread : readable t).
    { apply (unsettled_readable a Ha i t Ht). rewrite Hph. discriminate. }
    destruct (redispatched_readable tok t Hread) as (headers & Hh & Hre).
    rewrite Hre in Hr. split.
    + unfold phase_of. rewrite Hr. reflexivity.
    + unfold authorization. rewrite Hr. simpl. rewrite assoc_set_field.
      unfold headers_for in Hh.
      destruct (get_prop (or_empty_object (options t)) "headers"); [|discriminate].
      rewrite Htruthy in Hh. injection Hh as <-. apply assoc_set_field.
  - repeat split.
    intros i t Ht Hph. unfold phase_of. rewrite reject_all_lookup. simpl.
    rewrite Ht. simpl. rewrite (proj2 (waits_for_spec p t) Hph). reflexivity.
Qed.

(** C6, with the condition under which the code keeps it.  In a run made
    of calls and of the answers to them, at most one refresh is in flight
    at any time.  When N calls that are awaiting their responses each
    receive a 401 before the refresh settles, exactly one refresh is
    started (by the first 401) and the N callers all await it.  When it
    succeeds with a token, the token is stored and each of the N calls is
    sent again with it; when it fails, [logout()] clears the session and
    each of the N calls rejects with the error of the refresh. *)
Theorem C6_single_refresh (a : api) (arrivals : list (nat * string * body))
    (ans : answer) :
  consistent a ->
  refreshPromise a = None ->
  arrivals <> [] ->
  NoDup (callers arrivals) ->
  (forall i, i ∈ callers arrivals -> phase_of a i = Some AwaitResponse) ->
  let p := refreshes a in
  let a1 := run (unauthorized arrivals) a in
  let a2 := step a1 (RefreshResponse p ans) in
  (forall events, length (inflight (run events a)) <= 1) /\
  (refreshes a1 = S (refreshes a) /\ inflight a1 = [p] /\ refreshPromise a1 = Some p /\
   sent a1 = sent a ++ [refresh_request a] /\
   forall i, i ∈ callers arrivals -> phase_of a1 i = Some (AwaitRefresh p)) /\
  (refreshes a2 = S (refreshes a) /\ inflight a2 = [] /\ refreshPromise a2 = None /\
   match refreshed ans with
   | Fulfilled tok =>
       truthy tok = true ->
       token a2 = tok /\
       forall i, i ∈ callers arrivals ->
                 phase_of a2 i = Some AwaitResponse /\
                 authorization a2 i = Some (VStr ("Bearer " +:+ to_string tok))
   | Rejected e =>
       token a2 = VNull /\ storage a2 = None /\
       forall i, i ∈ callers arrivals -> phase_of a2 i = Some (Settled (Rejected e))
   end).
Proof.
  intros Ha Hnone Hne Hnd Hph. cbn zeta.
  destruct arrivals as [|[[i0 text0] b0] rest]; [contradiction|].
  assert (Hcap : forall events, length (inflight (run events a)) <= 1).
  { intros events. destruct (run_consistent events a Ha) as [H1 _ _].
    rewrite H1. destruct (refreshPromise (run events a)); cbv [length]; lia. }
  split; [exact Hcap|].
  (* the first 401 starts the refresh *)
  set (a' := on_response i0 (Respond 401 text0 b0) a).
  assert (Ha' : consistent a') by (apply on_response_consistent, Ha).
  destruct (proj1 (phase_of_lookup a i0 AwaitResponse)
              (Hph i0 ltac:(simpl; apply elem_of_cons; auto))) as (t0 & Ht0 & Hpht0).
  assert (Hstart : a' = set_phase i0 (AwaitRefresh (refreshes a))
                          (mkApi (baseURL a) (token a) (Some (refreshes a)) (storage a)
                             (tasks a) (S (refreshes a)) (inflight a ++ [refreshes a])
                             (sent a ++ [refresh_request a]))).
  { unfold a', on_response. rewrite Ht0, Hpht0. simpl. unfold _refreshToken.
    rewrite Hnone. reflexivity. }
  assert (Hp' : refreshPromise a' = Some (refreshes a)) by (rewrite Hstart; reflexivity).
  simpl in Hnd. apply NoDup_cons in Hnd as [Hi0 Hnd].
  assert (Hph' : forall i, i ∈ callers rest -> phase_of a' i = Some AwaitResponse).
  { intros i Hi. unfold phase_of. rewrite Hstart, set_phase_lookup. simpl.
    destruct (decide (i0 = i)) as [<-|]; [contradiction|].
    apply Hph. simpl. apply elem_of_cons. auto. }
  destruct (unauthorized_join (refreshes a) rest a' Ha' Hp' Hnd Hph')
    as ((_ & Hrp & _ & Hrn & Hinf) & _ & Hsent & Hl).
  cbn zeta in Hrp, Hrn, Hinf, Hsent, Hl.
  change (run (unauthorized ((i0, text0, b0) :: rest)) a)
    with (run (unauthorized rest) a').
  set (a1 := run (unauthorized rest) a') in *.
  assert (Ha1 : consistent a1) by (apply run_consistent, Ha').
  assert (Hwait : forall i, i ∈ callers ((i0, text0, b0) :: rest) ->
                    exists t, tasks a1 !! i = Some t /\ ph t = AwaitRefresh (refreshes a)).
  { intros i Hi. rewrite Hl, Hstart, set_phase_lookup. simpl tasks.
    destruct (proj1 (phase_of_lookup a i AwaitResponse) (Hph i Hi)) as (t & Ht & _).
    simpl in Hi. apply elem_of_cons in Hi.
    destruct (decide (i0 = i)) as [<-|Hne0].
    - rewrite Ht. simpl. eexists. split; [reflexivity|].
      destruct (bool_decide _); reflexivity.
    - destruct Hi as [->|Hi]; [congruence|].
      rewrite Ht. simpl. eexists. split; [reflexivity|].
      rewrite bool_decide_eq_true_2 by exact Hi. reflexivity. }
  split.
  - rewrite Hrn, Hinf, Hrp, Hsent, Hstart. simpl.
    rewrite (one_inflight a Ha), Hnone. simpl.
    repeat split.
    intros i Hi. apply phase_of_lookup. apply Hwait, Hi.
  - change (step a1 (RefreshResponse (refreshes a) ans))
      with (on_refresh_response (refreshes a) ans a1).
    assert (Hp1 : refreshPromise a1 = Some (refreshes a)) by congruence.
    destruct (refresh_settles (refreshes a) ans a1 Ha1 Hp1) as (Hn2 & Hi2 & Hp2 & Hout).
    split; [rewrite Hn2, Hrn, Hstart; reflexivity|].
    split; [exact Hi2|]. split; [exact Hp2|].
    destruct (refreshed ans) as [tok|e].
    + intros Htruthy. destruct (Hout Htruthy) as [Htok Hcalls].
      split; [exact Htok|]. intros i Hi.
      destruct (Hwait i Hi) as (t & Ht & Hpht). eapply Hcalls; eauto.
    + destruct Hout as (Htok & Hst & Hcalls). split; [exact Htok|]. split; [exact Hst|].
      intros i Hi. destruct (Hwait i Hi) as (t & Ht & Hpht). eapply Hcalls; eauto.
Qed.

Lemma two_calls_consistent : consistent two_calls.
Proof.
  apply run_consistent. split; simpl; [reflexivity| |];
    intros i t; rewrite lookup_nil; discriminate.
Qed.

Lemma C6_single_refresh_witness :
  let a1 := run (unauthorized [(0, "Unauthorized", BadBody ""); (1, "Unauthorized", BadBody "")])
              two_calls in
  let a2 := step a1 (RefreshResponse 0 (answer_token "t2")) in
  refreshes a1 = 1 /\ inflight a1 = [0] /\ refreshes a2 = 1 /\ token a2 = VStr "t2" /\
  authorization a2 0 = Some (VStr "Bearer t2") /\
  authorization a2 1 = Some (VStr "Bearer t2").
Proof.
  assert (Hnd : NoDup (callers [(0, "Unauthorized", BadBody "");
                                (1, "Unauthorized", BadBody "")])).
  { simpl. apply NoDup_cons. split.
    - intros H. apply list_elem_of_singleton in H. discriminate.
    - apply NoDup_singleton. }
  assert (Hph : forall i,
             i ∈ callers [(0, "Unauthorized", BadBody ""); (1, "Unauthorized", BadBody "")] ->
             phase_of two_calls i = Some AwaitResponse).
  { intros i Hi. simpl in Hi. apply elem_of_cons in Hi as [->|Hi]; [reflexivity|].
    apply list_elem_of_singleton in Hi as ->. reflexivity. }
  destruct (C6_single_refresh two_calls
              [(0, "Unauthorized", BadBody ""); (1, "Unauthorized", BadBody "")]
              (answer_token "t2") two_calls_consistent eq_refl
              ltac:(discriminate) Hnd Hph)
    as (_ & (Hr1 & Hi1 & _) & (Hr2 & _ & _ & Hout)).
  cbn zeta. simpl refreshed in Hout. destruct (Hout eq_refl) as [Htok Hcalls].
  split; [exact Hr1|]. split; [exact Hi1|]. split; [exact Hr2|]. split; [exact Htok|].
  split.
  - apply (Hcalls 0). simpl. apply elem_of_cons. auto.
  - apply (Hcalls 1). simpl. apply elem_of_cons. right. apply list_elem_of_singleton.
    reflexivity.
Defined.

(** Two calls made together each receive a 401, the second one after the
    refresh that the first one started has settled: a second refresh is
    started. *)
Lemma C6_late_401_starts_second_refresh :
  refreshes (run [Response 0 answer_401;
                  RefreshResponse 0 (answer_token "t2");
                  Response 1 answer_401] two_calls) <> 1.
Proof. vm_compute. discriminate. Qed.

(** ** One call that keeps meeting a 401 *)

Lemma resume_none p idx a :
  (forall j t, j ∈ idx -> tasks a !! j = Some t -> waits_for p t = false) ->
  resume p idx a = a.
Proof.
  induction idx as [|j rest IH]; intros Hno; [reflexivity|].
  unfold resume in *. simpl.
  destruct (tasks a !! j) as [t|] eqn:Ht.
  - rewrite (Hno j t (list_elem_of_here _ _) Ht).
    apply IH. intros j' t' Hj'. apply Hno, list_elem_of_further, Hj'.
  - apply IH. intros j' t' Hj'. apply Hno, list_elem_of_further, Hj'.
Qed.

Lemma resume_single p i t idx a :
  NoDup idx ->
  tasks a !! i = Some t ->
  waits_for p t = true ->
  (forall j t', j <> i -> tasks a !! j = Some t' -> waits_for p t' = false) ->
  resume p idx a = if bool_decide (i ∈ idx) then dispatch i a else a.
Proof.
  intros Hnd Ht Hw Hothers. induction Hnd as [|j rest Hj Hnd IH].
  - reflexivity.
  - destruct (decide (j = i)) as [->|Hne].
    + rewrite bool_decide_eq_true_2 by apply list_elem_of_here.
      unfold resume. simpl. rewrite Ht, Hw.
      apply (resume_none p rest (dispatch i a)).
      intros j' t' Hj' Ht'. rewrite dispatch_lookup in Ht'.
      destruct (decide (i = j')) as [<-|Hne']; [contradiction|].
      eapply Hothers; eauto.
    + unfold resume in *. simpl.
      assert (Hstep : match tasks a !! j with
                      | Some t0 => if waits_for p t0 then dispatch j a else a
                      | None => a
                      end = a).
      { destruct (tasks a !! j) as [t0|] eqn:Ht0; [|reflexivity].
        rewrite (Hothers j t0 Hne Ht0). reflexivity. }
      rewrite Hstep, IH.
      destruct (decide (i ∈ rest)) as [Hin|Hnin].
      * rewrite !bool_decide_eq_true_2; auto. apply list_elem_of_further, Hin.
      * rewrite !bool_decide_eq_false_2; auto.
        rewrite elem_of_cons. intros [->|]; tauto.
Qed.

Lemma dispatch_readable i t a :
  tasks a !! i = Some t ->
  readable t ->
  truthy (token a) = true ->
  exists request,
    dispatch i a =
    log_sent (baseURL a +:+ endpoint t, request)
      (set_tasks (<[i := mkCall (endpoint t) (options t) request AwaitResponse]> (tasks a)) a).
Proof.
  intros Ht Hread Htok. unfold dispatch. rewrite Ht, (load_token_truthy a Htok).
  unfold readable in Hread. unfold headers_for.
  destruct (get_prop (or_empty_object (options t)) "headers"); [|discriminate].
  eauto.
Qed.

(** One round: the 401 starts a refresh, its answer brings a token, and
    the call is sent again. *)
Lemma round_spec i text b ans tok a :
  consistent a ->
  refreshPromise a = None ->
  phase_of a i = Some AwaitResponse ->
  refreshed ans = Fulfilled tok ->
  truthy tok = true ->
  let a2 := run [Response i (Respond 401 text b); RefreshResponse (refreshes a) ans] a in
  consistent a2 /\ refreshPromise a2 = None /\ phase_of a2 i = Some AwaitResponse /\
  refreshes a2 = S (refreshes a) /\ length (sent a2) = length (sent a) + 2 /\
  authorization a2 i = Some (VStr ("Bearer " +:+ to_string tok)).
Proof.
  intros Ha Hnone Hph Hans Htok. cbn zeta.
  assert (Hcons : consistent (run [Response i (Respond 401 text b);
                                   RefreshResponse (refreshes a) ans] a))
    by (apply run_consistent, Ha).
  split; [exact Hcons|]. clear Hcons.
  apply phase_of_lookup in Hph as (t & Ht & Hpht).
  pose (a0 := mkApi (baseURL a) (token a) (Some (refreshes a)) (storage a) (tasks a)
                (S (refreshes a)) (inflight a ++ [refreshes a])
                (sent a ++ [refresh_request a])).
  pose (a1 := set_phase i (AwaitRefresh (refreshes a)) a0).
  pose (t1 := with_phase (AwaitRefresh (refreshes a)) t).
  pose (a1' := mkApi (baseURL a1) tok None (Some (to_string tok)) (tasks a1)
                 (refreshes a1) [] (sent a1)).
  assert (Ht1 : tasks a1 !! i = Some t1).
  { unfold a1. rewrite set_phase_lookup, decide_True by reflexivity.
    change (tasks a0 !! i) with (tasks a !! i). rewrite Ht. reflexivity. }
  assert (Hothers : forall j t', j <> i -> tasks a1' !! j = Some t' ->
                                 waits_for (refreshes a) t' = false).
  { intros j t' Hne Hj. change (tasks a1' !! j) with (tasks a1 !! j) in Hj.
    unfold a1 in Hj. rewrite set_phase_lookup, decide_False in Hj by auto.
    change (tasks a0 !! j) with (tasks a !! j) in Hj.
    destruct (waits_for (refreshes a) t') eqn:Hw; [|reflexivity].
    apply waits_for_spec in Hw.
    pose proof (waiters_wait_for_it a Ha j t' _ Hj Hw). congruence. }
  assert (Heq : run [Response i (Respond 401 text b);
                     RefreshResponse (refreshes a) ans] a = dispatch i a1').
  { simpl run. unfold on_response. rewrite Ht, Hpht. simpl.
    unfold _refreshToken. rewrite Hnone. fold a0. fold a1.
    assert (Hin1 : inflight a1 = [refreshes a]).
    { simpl. rewrite (one_inflight a Ha), Hnone. reflexivity. }
    rewrite (on_refresh_response_pending (refreshes a) ans a1 Hin1), Hans.
    fold a1'. change (length (tasks a1)) with (length (tasks a1')).
    rewrite (resume_single (refreshes a) i t1 _ a1' (NoDup_seq _ _) Ht1
               ltac:(apply waits_for_spec; reflexivity) Hothers).
    rewrite bool_decide_eq_true_2; [reflexivity|].
    apply elem_of_seq. split; [lia|]. simpl. eapply lookup_lt_Some. exact Ht1. }
  rewrite Heq.
  assert (Hread : readable t1).
  { unfold readable. simpl. apply (unsettled_readable a Ha i t Ht).
    rewrite Hpht. discriminate. }
  destruct (dispatch_readable i t1 a1' Ht1 Hread Htok) as (request & Hd).
  destruct (redispatched_readable tok t1 Hread) as (headers & Hh & Hre).
  assert (Hl : tasks (dispatch i a1') !! i = Some (redispatched tok t1)).
  { rewrite dispatch_lookup, decide_True by reflexivity.
    rewrite (load_token_truthy a1' Htok).
    change (tasks a1' !! i) with (tasks a1 !! i). rewrite Ht1. reflexivity. }
  rewrite Hre in Hl.
  split; [rewrite Hd; reflexivity|]. split.
  { unfold phase_of. rewrite Hl. reflexivity. }
  split; [rewrite Hd; reflexivity|]. split.
  { rewrite Hd. simpl. rewrite !length_app. simpl. lia. }
  unfold authorization. rewrite Hl. simpl. rewrite assoc_set_field.
  unfold headers_for in Hh.
  destruct (get_prop (or_empty_object (options t1)) "headers"); [|discriminate].
  rewrite Htok in Hh. injection Hh as <-. apply assoc_set_field.
Qed.

Lemma rounds_spec i l :
  Forall refresh_succeeds l ->
  forall a,
    consistent a ->
    refreshPromise a = None ->
    phase_of a i = Some AwaitResponse ->
    let a2 := run (rounds i (refreshes a) l) a in
    consistent a2 /\ refreshPromise a2 = None /\ phase_of a2 i = Some AwaitResponse /\
    refreshes a2 = refreshes a + length l /\
    length (sent a2) = length (sent a) + 2 * length l.
Proof.
  induction 1 as [|[[text b] ans] rest (tok & Hans & Htok) Hrest IH];
    intros a Ha Hnone Hph; cbn zeta.
  - change (run (rounds i (refreshes a) []) a) with a.
    change (length (@nil (string * body * answer))) with 0.
    split; [exact Ha|]. split; [exact Hnone|]. split; [exact Hph|]. split; lia.
  - destruct (round_spec i text b ans tok a Ha Hnone Hph Hans Htok)
      as (Ha2 & Hn2 & Hp2 & Hr2 & Hs2 & _).
    cbn zeta in Ha2, Hn2, Hp2, Hr2, Hs2.
    set (a2 := run [Response i (Respond 401 text b); RefreshResponse (refreshes a) ans] a)
      in *.
    change (run (rounds i (refreshes a) ((text, b, ans) :: rest)) a)
      with (run (rounds i (S (refreshes a)) rest) a2).
    destruct (IH a2 Ha2 Hn2 Hp2) as (Ha3 & Hn3 & Hp3 & Hr3 & Hs3).
    cbn zeta in Ha3, Hn3, Hp3, Hr3, Hs3. rewrite Hr2 in Ha3, Hn3, Hp3, Hr3, Hs3.
    split; [exact Ha3|]. split; [exact Hn3|]. split; [exact Hp3|].
    change (length ((text, b, ans) :: rest)) with (S (length rest)).
    split; lia.
Qed.

Lemma assoc_set_field_ne key key' v fields :
  key <> key' -> assoc key (set_field key' v fields) = assoc key fields.
Proof.
  intros Hne. induction fields as [|[k x] rest IH]; simpl.
  - destruct (String.eqb_spec key' key); [congruence|reflexivity].
  - destruct (String.eqb_spec k key') as [->|Hk]; simpl.
    + destruct (String.eqb_spec key' key); [congruence|reflexivity].
    + destruct (String.eqb_spec k key); [reflexivity|exact IH].
Qed.

(** With a server that keeps answering 401 and a refresh that keeps
    succeeding, [request] goes round for as long as it is let: for every
    bound, the bound is reached with that many requests sent. *)
Lemma patterns_request_unbounded refreshToken w baseURL endpoint options :
  refresh_always_succeeds refreshToken ->
  always_status w 401 ->
  is_fulfilled (get_prop (or_empty_object options) "headers") = true ->
  assoc "signal" (spread (or_empty_object options)) = None ->
  forall fuel tok s,
    let r := Patterns.request refreshToken fuel w baseURL tok endpoint options s in
    result r = Fulfilled None /\
    dispatches (baseURL +:+ endpoint) s + fuel <= dispatches (baseURL +:+ endpoint) (final r).
Proof.
  intros Hrefresh Hw Hread Hsig.
  assert (Hstep : forall fuel tok s, exists tok' s',
             Patterns.request refreshToken (S fuel) w baseURL tok endpoint options s =
             Patterns.request refreshToken fuel w baseURL tok' endpoint options s' /\
             S (dispatches (baseURL +:+ endpoint) s) <=
             dispatches (baseURL +:+ endpoint) s').
  { intros fuel tok s. simpl Patterns.request. rewrite bind_run. unfold lift at 1.
    destruct (get_prop (or_empty_object options) "headers") as [h|e]; [|discriminate].
    cbn zeta. rewrite bind_run.
    match goal with |- context [fetch w ?u ?o s] =>
      set (o' := o);
      destruct (Hw (length (calls s)) u o') as (latency & text & b & Hreply);
      assert (Hnosig : signal_of o' = None)
    end.
    { unfold o'. simpl. rewrite assoc_set_field_ne by discriminate. rewrite Hsig.
      reflexivity. }
    rewrite (fetch_no_signal _ _ _ _ _ _ Hnosig Hreply). simpl.
    rewrite bind_run.
    destruct (Hrefresh tok (set_now (now s + Z.max 0 latency)%Z
                              (log_call (baseURL +:+ endpoint, o') s)))
      as (tok' & extra & s' & Hr & Hcalls).
    rewrite Hr. exists tok', s'. split; [reflexivity|].
    unfold dispatches. rewrite Hcalls. simpl.
    rewrite !filter_app, !length_app, filter_cons, decide_True by reflexivity.
    simpl. lia. }
  induction fuel as [|fuel IH]; intros tok s; cbn zeta.
  - simpl. split; [reflexivity|]. unfold final. simpl. lia.
  - destruct (Hstep fuel tok s) as (tok' & s' & -> & Hs').
    destruct (IH tok' s') as [Hres Hcount]. cbn zeta in Hres, Hcount.
    split; [exact Hres|]. lia.
Qed.

Lemma first_call url stored path opts :
  is_fulfilled (get_prop (or_empty_object opts) "headers") = true ->
  let a := on_call path opts (create url stored) in
  consistent a /\ refreshPromise a = None /\ phase_of a 0 = Some AwaitResponse /\
  refreshes a = 0 /\ length (sent a) = 1.
Proof.
  intros Hread. cbn zeta.
  split; [apply on_call_consistent, create_consistent|].
  unfold on_call, dispatch, phase_of. simpl. unfold headers_for.
  destruct (get_prop (or_empty_object opts) "headers"); [|discriminate].
  simpl. auto.
Qed.

(** C7, as the two classes implement it.  In the solutions' [AuthAPI] a
    401 never settles a call: the call awaits the refresh (the pending one,
    or one it starts).  When the refresh brings a token the call is sent
    again with it; when the refresh fails the call rejects with the error
    of the refresh.  The code sets no bound on this: a call whose every
    response is a 401, each followed by a successful refresh, is sent again
    each time, so that after n such rounds n refreshes were made and the
    call is awaiting the response to its (n+1)-th request.  The pattern
    sheet's [request] has the same recursion: with a refresh that always
    succeeds and a server that always answers 401 it never settles. *)
Theorem C7_refresh_on_401 (url : string) (stored : option string) (path : string)
    (opts : value) (l : list (string * body * answer)) :
  is_fulfilled (get_prop (or_empty_object opts) "headers") = true ->
  Forall refresh_succeeds l ->
  let a := run (Call path opts :: rounds 0 0 l) (create url stored) in
  (phase_of a 0 = Some AwaitResponse /\ refreshes a = length l /\
   length (sent a) = 1 + 2 * length l) /\
  (forall text b,
     phase_of (step a (Response 0 (Respond 401 text b))) 0 =
     Some (AwaitRefresh (refreshes a))) /\
  (forall text b ans tok,
     refreshed ans = Fulfilled tok ->
     truthy tok = true ->
     let a2 := run [Response 0 (Respond 401 text b); RefreshResponse (refreshes a) ans] a in
     phase_of a2 0 = Some AwaitResponse /\
     authorization a2 0 = Some (VStr ("Bearer " +:+ to_string tok))) /\
  (forall text b ans e,
     refreshed ans = Rejected e ->
     phase_of (run [Response 0 (Respond 401 text b); RefreshResponse (refreshes a) ans] a) 0
     = Some (Settled (Rejected e))) /\
  (forall refreshToken w tok fuel s,
     refresh_always_succeeds refreshToken ->
     always_status w 401 ->
     assoc "signal" (spread (or_empty_object opts)) = None ->
     let r := Patterns.request refreshToken fuel w url tok path opts s in
     result r = Fulfilled None /\
     dispatches (url +:+ path) s + fuel <= dispatches (url +:+ path) (final r)).
Proof.
  intros Hread Hl. cbn zeta.
  destruct (first_call url stored path opts Hread) as (Ha0 & Hn0 & Hp0 & Hr0 & Hs0).
  cbn zeta in Ha0, Hn0, Hp0, Hr0, Hs0.
  change (run (Call path opts :: rounds 0 0 l) (create url stored))
    with (run (rounds 0 0 l) (on_call path opts (create url stored))).
  set (a0 := on_call path opts (create url stored)) in *.
  pose proof (rounds_spec 0 l Hl a0 Ha0 Hn0 Hp0) as Hrounds.
  cbn zeta in Hrounds. rewrite Hr0, Hs0 in Hrounds.
  destruct Hrounds as (Ha & Hn & Hp & Hr & Hs).
  set (a := run (rounds 0 0 l) a0) in *.
  pose proof Hp as Hphase.
  apply phase_of_lookup in Hp as (t & Ht & Hpht).
  assert (H401 : forall text b,
             step a (Response 0 (Respond 401 text b)) =
             set_phase 0 (AwaitRefresh (refreshes a))
               (mkApi (baseURL a) (token a) (Some (refreshes a)) (storage a) (tasks a)
                  (S (refreshes a)) (inflight a ++ [refreshes a])
                  (sent a ++ [refresh_request a]))).
  { intros text b. simpl. unfold on_response. rewrite Ht, Hpht. simpl.
    unfold _refreshToken. rewrite Hn. reflexivity. }
  split; [|split; [|split; [|split]]].
  - split; [exact Hphase|]. split; lia.
  - intros text b. rewrite H401. unfold phase_of. rewrite set_phase_lookup.
    rewrite decide_True by reflexivity. simpl. rewrite Ht. reflexivity.
  - intros text b ans tok Hans Htok.
    destruct (round_spec 0 text b ans tok a Ha Hn Hphase Hans Htok)
      as (_ & _ & Hp2 & _ & _ & Hauth).
    exact (conj Hp2 Hauth).
  - intros text b ans e Hans.
    change (run [Response 0 (Respond 401 text b); RefreshResponse (refreshes a) ans] a)
      with (on_refresh_response (refreshes a) ans (step a (Response 0 (Respond 401 text b)))).
    assert (Ha1 : consistent (step a (Response 0 (Respond 401 text b))))
      by (apply step_consistent, Ha).
    assert (Hp1 : refreshPromise (step a (Response 0 (Respond 401 text b))) =
                  Some (refreshes a)) by (rewrite H401; reflexivity).
    destruct (refresh_settles (refreshes a) ans _ Ha1 Hp1) as (_ & _ & _ & Hout).
    rewrite Hans in Hout. destruct Hout as (_ & _ & Hcalls).
    apply (Hcalls 0 (with_phase (AwaitRefresh (refreshes a)) t)); [|reflexivity].
    rewrite H401, set_phase_lookup, decide_True by reflexivity.
    simpl. rewrite Ht. reflexivity.
  - intros refreshToken w tok fuel s Hrefresh Hw Hsig.
    apply patterns_request_unbounded; assumption.
Qed.

Lemma two_rounds_succeed : Forall refresh_succeeds two_rounds.
Proof.
  repeat constructor; eexists; split; reflexivity.
Qed.

Lemma C7_refresh_on_401_witness :
  let a := run (Call "/users" (VObj [("method", VStr "GET")]) :: rounds 0 0 two_rounds)
             (create "https://api.example.com" (Some "t1")) in
  phase_of a 0 = Some AwaitResponse /\ refreshes a = 2 /\ length (sent a) = 5.
Proof.
  exact (proj1 (C7_refresh_on_401 "https://api.example.com" (Some "t1") "/users"
                  (VObj [("method", VStr "GET")]) two_rounds eq_refl
                  two_rounds_succeed)).
Defined.

(** One call of [_request] whose first two responses are 401s: the refresh
    is made twice and the request sent three times, not once and twice. *)
Lemma C7_second_refresh_cycle :
  let a := run (Call "/users" (VObj [("method", VStr "GET")]) :: rounds 0 0 two_rounds)
             (create "https://api.example.com" (Some "t1")) in
  refreshes a <> 1 /\
  dispatches "https://api.example.com/users" (mkState 0 (sent a) [] ∅ ∅) <> 2.
Proof. vm_compute. split; discriminate. Qed.

(** * The other request helpers of the corpus *)

(** ** Runs of [fetch] without options *)

Lemma well_formed_set_now t s : well_formed s -> well_formed (set_now t s).
Proof. auto. Qed.

Lemma fetch_plain w url s :
  fetch w url VUndefined s =
  (match (w (length (calls s)) url VUndefined).2 with
   | NetworkError msg => Rejected (JsError "TypeError" msg)
   | Respond code text b => Fulfilled (mkResponse (length (calls s)) code text b)
   end,
   set_now (now s + Z.max 0 (w (length (calls s)) url VUndefined).1)%Z
     (log_call (url, VUndefined) s)).
Proof.
  destruct (w (length (calls s)) url VUndefined) as [latency a] eqn:Hw.
  apply (fetch_no_signal w url VUndefined s latency a eq_refl Hw).
Qed.

Lemma well_formed_fetch w url o s : well_formed s -> well_formed (fetch w url o s).2.
Proof.
  intros Hwf i Hi. destruct (fetch_logs w url o s) as (Hc & _ & _ & Hcons).
  rewrite Hcons in Hi. rewrite Hc, length_app. apply Hwf in Hi. simpl. lia.
Qed.

Lemma json_fresh code text b s n :
  n ∉ consumed s ->
  json (mkResponse n code text b) s =
  (match b with
   | JsonBody v => Fulfilled v
   | BadBody msg => Rejected (JsError "SyntaxError" msg)
   end, consume n s).
Proof.
  intros Hn. unfold json. simpl.
  destruct (decide _) as [Hin|_]; [contradiction|]. destruct b; reflexivity.
Qed.

Lemma well_formed_fresh s : well_formed s -> length (calls s) ∉ consumed s.
Proof. intros Hwf Hin. apply Hwf in Hin. lia. Qed.

Lemma well_formed_consume n s :
  well_formed s -> n < length (calls s) -> well_formed (consume n s).
Proof.
  intros Hwf Hn i Hi. simpl in *. apply elem_of_union in Hi as [Hi|Hi].
  - apply elem_of_singleton in Hi. subst. exact Hn.
  - apply Hwf. exact Hi.
Qed.

Lemma then_json_run w url s :
  well_formed s ->
  let r := Guide.then_json w url s in
  result r = reply_value (w (length (calls s)) url VUndefined).2 /\
  calls (final r) = calls s ++ [(url, VUndefined)] /\
  well_formed (final r).
Proof.
  intros Hwf. cbn zeta. unfold Guide.then_json, result, final. rewrite bind_run.
  pose proof (well_formed_fetch w url VUndefined s Hwf) as Hwf1.
  rewrite fetch_plain in *.
  destruct ((w (length (calls s)) url VUndefined).2) as [msg|code text b]; simpl in *.
  - auto.
  - set (s1 := set_now _ _) in *.
    rewrite (json_fresh code text b s1 (length (calls s)) (well_formed_fresh s Hwf)).
    split; [destruct b; reflexivity|]. split; [reflexivity|].
    apply well_formed_consume; [exact Hwf1|].
    unfold s1. simpl. rewrite length_app. simpl. lia.
Qed.

Lemma start_all_cons {A} t0 (m : M A) rest s :
  start_all t0 (m :: rest) s =
  (((m (set_now t0 s)).1, now (m (set_now t0 s)).2)
     :: (start_all t0 rest (m (set_now t0 s)).2).1,
   (start_all t0 rest (m (set_now t0 s)).2).2).
Proof.
  simpl. destruct (m (set_now t0 s)) as [o s1]. simpl.
  destruct (start_all t0 rest s1) as [os s2]. reflexivity.
Qed.

Lemma Promise_all_run {A} (ms : list (M A)) s :
  Promise_all ms s =
  let started := start_all (now s) ms s in
  match first_rejection started.1 with
  | Some (e, t) => (Rejected e, set_now t started.2)
  | None => (Fulfilled (values started.1),
             set_now (fold_right Z.max (now s) (map snd started.1)) started.2)
  end.
Proof. unfold Promise_all. destruct (start_all (now s) ms s). reflexivity. Qed.

Lemma start_three {A} w (m0 m1 m2 : M A) u0 u1 u2 f0 f1 f2 t0 s :
  single_fetch w m0 u0 f0 -> single_fetch w m1 u1 f1 -> single_fetch w m2 u2 f2 ->
  well_formed s ->
  let n := length (calls s) in
  let started := start_all t0 [m0; m1; m2] s in
  exists t t' t'',
    started.1 = [(f0 (w n u0 VUndefined).2, t);
                 (f1 (w (n + 1) u1 VUndefined).2, t');
                 (f2 (w (n + 2) u2 VUndefined).2, t'')] /\
    calls started.2 = calls s ++ [(u0, VUndefined); (u1, VUndefined); (u2, VUndefined)] /\
    well_formed started.2.
Proof.
  intros H0 H1 H2 Hwf. cbn zeta.
  rewrite !start_all_cons. cbn [start_all fst snd].
  destruct (H0 (set_now t0 s) Hwf) as (Hr0 & Hc0 & Hwf0).
  unfold result, final in *.
  set (s0 := (m0 (set_now t0 s)).2) in *.
  destruct (H1 (set_now t0 s0) Hwf0) as (Hr1 & Hc1 & Hwf1).
  unfold result, final in *.
  set (s1 := (m1 (set_now t0 s0)).2) in *.
  destruct (H2 (set_now t0 s1) Hwf1) as (Hr2 & Hc2 & Hwf2).
  unfold result, final in *.
  set (s2 := (m2 (set_now t0 s1)).2) in *.
  simpl in Hc0, Hc1, Hc2, Hr0, Hr1, Hr2.
  assert (Hl0 : length (calls s0) = length (calls s) + 1)
    by (rewrite Hc0, length_app; simpl; lia).
  assert (Hl1 : length (calls s1) = length (calls s) + 2)
    by (rewrite Hc1, length_app; simpl; lia).
  rewrite Hl0 in Hr1. rewrite Hl1 in Hr2.
  exists (now s0), (now s1), (now s2).
  rewrite Hr0, Hr1, Hr2. split; [reflexivity|]. split; [|exact Hwf2].
  rewrite Hc2, Hc1, Hc0, <- !app_assoc. reflexivity.
Qed.

Lemma then_json_single w url : single_fetch w (Guide.then_json w url) url reply_value.
Proof. intros s Hwf. apply then_json_run, Hwf. Qed.

(** X1.  [parallelRequests()] of the guide never rejects.  Its three
    requests are made in the order users, posts, comments; when each of
    them is answered with a body that parses, whatever the status, it
    returns [{ users, posts, comments }]; when one of them fails, the
    [catch] block swallows the error and the function returns
    [undefined]. *)
Theorem parallelRequests_all_or_undefined (w : World) (s : state) :
  well_formed s ->
  let n := length (calls s) in
  let r := Guide.parallelRequests w s in
  calls (final r) =
    calls s ++ [(users_url, VUndefined); (posts_url, VUndefined); (comments_url, VUndefined)] /\
  result r =
    match reply_value (w n users_url VUndefined).2,
          reply_value (w (n + 1) posts_url VUndefined).2,
          reply_value (w (n + 2) comments_url VUndefined).2 with
    | Fulfilled users, Fulfilled posts, Fulfilled comments =>
        Fulfilled (VObj [("users", users); ("posts", posts); ("comments", comments)])
    | _, _, _ => Fulfilled VUndefined
    end.
Proof.
  intros Hwf. cbn zeta. unfold Guide.parallelRequests, result, final.
  rewrite try_catch_run, bind_run, Promise_all_run. cbn zeta.
  destruct (start_three w _ _ _ _ _ _ _ _ _ (now s) s
              (then_json_single w users_url) (then_json_single w posts_url)
              (then_json_single w comments_url) Hwf) as (t & t' & t'' & Hrs & Hc & _).
  cbn zeta in Hrs, Hc. fold users_url posts_url comments_url.
  rewrite Hrs.
  destruct (reply_value (w (length (calls s)) users_url VUndefined).2) as [u|e0];
  destruct (reply_value (w (length (calls s) + 1) posts_url VUndefined).2) as [p|e1];
  destruct (reply_value (w (length (calls s) + 2) comments_url VUndefined).2) as [c|e2];
    cbn [first_rejection values omap fst snd];
    repeat match goal with |- context [if ?b then _ else _] => destruct b end;
    simpl; auto.
Qed.

Lemma parallelRequests_all_or_undefined_witness :
  result (Guide.parallelRequests posts_down fresh) = Fulfilled VUndefined /\
  result (Guide.parallelRequests users_ok fresh) =
  Fulfilled (VObj [("users", VArr [VObj [("id", VNum 1)]]);
                   ("posts", VArr [VObj [("id", VNum 1)]]);
                   ("comments", VArr [VObj [("id", VNum 1)]])]).
Proof.
  split.
  - exact (proj2 (parallelRequests_all_or_undefined posts_down fresh fresh_well_formed)).
  - exact (proj2 (parallelRequests_all_or_undefined users_ok fresh fresh_well_formed)).
Defined.

Lemma fetchSafe_single w key url :
  single_fetch w (Solutions.Dashboard.fetchSafe w key url) url (fun a => Fulfilled (safe_result key a)).
Proof.
  intros s Hwf. unfold Solutions.Dashboard.fetchSafe, result, final. rewrite try_catch_run, bind_run.
  pose proof (well_formed_fetch w url VUndefined s Hwf) as Hwf1.
  rewrite fetch_plain in *.
  destruct ((w (length (calls s)) url VUndefined).2) as [msg|code text b]; simpl in *.
  - auto.
  - unfold ok, safe_result, delivered, failure, ok_status. simpl.
    destruct ((200 <=? code) && (code <=? 299))%Z; simpl; [|destruct b; auto].
    set (s1 := set_now _ _) in *.
    rewrite bind_run.
    rewrite (json_fresh code text b s1 (length (calls s)) (well_formed_fresh s Hwf)).
    assert (Hwf2 : well_formed (consume (length (calls s)) s1)).
    { apply well_formed_consume; [exact Hwf1|].
      unfold s1. simpl. rewrite length_app. simpl. lia. }
    destruct b; simpl; auto.
Qed.

Lemma failure_delivered key a msg : failure key a = Some msg -> delivered a = VNull.
Proof.
  destruct a as [m|code text [v|m]]; simpl; auto; destruct (ok_status code); auto; discriminate.
Qed.

(** X2.  [fetchDashboardData()] never rejects and makes its three
    requests whatever becomes of each.  Under each of the keys [users],
    [posts] and [comments] the object it returns holds the data of the
    request when the answer had a success status and a body that parses,
    and [null] otherwise; [errors] lists the failures in the order of the
    keys, each as [{ key: message }].  A failure whose message is the
    empty string is not listed, since the message itself is the test. *)
Theorem fetchDashboardData_isolates_failures (w : World) (s : state) :
  well_formed s ->
  let n := length (calls s) in
  let users := (w n users_url VUndefined).2 in
  let posts := (w (n + 1) posts_url VUndefined).2 in
  let comments := (w (n + 2) comments_url VUndefined).2 in
  let r := Solutions.Dashboard.fetchDashboardData w s in
  calls (final r) =
    calls s ++ [(users_url, VUndefined); (posts_url, VUndefined); (comments_url, VUndefined)] /\
  exists errors,
    result r = Fulfilled (VObj [("errors", VArr errors);
                                ("users", delivered users);
                                ("posts", delivered posts);
                                ("comments", delivered comments)]) /\
    errors = reported "users" users ++ reported "posts" posts ++ reported "comments" comments.
Proof.
  intros Hwf. cbn zeta. unfold Solutions.Dashboard.fetchDashboardData, result, final.
  rewrite bind_run, Promise_all_run. cbn zeta.
  destruct (start_three w _ _ _ _ _ _ _ _ _ (now s) s
              (fetchSafe_single w "users" users_url) (fetchSafe_single w "posts" posts_url)
              (fetchSafe_single w "comments" comments_url) Hwf)
    as (t & t' & t'' & Hrs & Hc & _).
  cbn zeta in Hrs, Hc. fold users_url posts_url comments_url.
  rewrite Hrs. cbn [first_rejection values omap fst snd].
  split; [exact Hc|].
  eexists. split; [|reflexivity].
  simpl. f_equal. f_equal.
  unfold reported, Solutions.Dashboard.organize, safe_result. simpl.
  destruct (failure "users" _) as [m0|] eqn:H0;
  destruct (failure "posts" _) as [m1|] eqn:H1;
  destruct (failure "comments" _) as [m2|] eqn:H2; simpl;
    try rewrite (failure_delivered _ _ _ H0);
    try rewrite (failure_delivered _ _ _ H1);
    try rewrite (failure_delivered _ _ _ H2);
    repeat match goal with |- context [String.eqb ?m ""] => destruct (String.eqb m "") end;
    simpl; reflexivity.
Qed.

Lemma fetchDashboardData_isolates_failures_witness :
  result (Solutions.Dashboard.fetchDashboardData posts_down fresh) =
  Fulfilled (VObj [("errors", VArr [VObj [("posts", VStr "Failed to fetch")]]);
                   ("users", VArr [VObj [("id", VNum 1)]]);
                   ("posts", VNull);
                   ("comments", VArr [VObj [("id", VNum 1)]])]).
Proof.
  destruct (fetchDashboardData_isolates_failures posts_down fresh fresh_well_formed)
    as (_ & errors & Hres & Herrors).
  rewrite Hres, Herrors. reflexivity.
Defined.

(** ** Sequential requests *)

Ltac run_fetch s' H :=
  match goal with
  | |- context [fetch ?w ?url ?o ?s] =>
      let Hl := fresh "Hlogs" in
      pose proof (fetch_logs w url o s) as (Hl & _ & _ & _);
      let r := fresh "response" in let e := fresh "e" in
      destruct (fetch w url o s) as [[r|e] s'] eqn:H; cbn [fst snd] in Hl |- *
  end.

Ltac run_json s' H :=
  match goal with
  | |- context [json ?r ?s] =>
      let Hl := fresh "Hlogs" in
      pose proof (json_logs r s) as (Hl & _ & _ & _);
      let v := fresh "v" in let e := fresh "e" in
      destruct (json r s) as [[v|e] s'] eqn:H; cbn [fst snd] in Hl |- *
  end.

Lemma lift_run {A} (o : outcome A) (s : state) : lift o s = (o, s).
Proof. reflexivity. Qed.

Ltac count_calls :=
  cbn [fst snd ret throw];
  repeat match goal with H : calls _ = _ |- _ => rewrite H; clear H end;
  rewrite ?length_app; cbn [length];
  first [ lia | split; [reflexivity | lia] ].




(** X5.  A user without posts.  When the user is found and the list of
    the posts is empty, the solutions' [fetchUserPostComments] returns
    [{ user, posts: [], comments: [] }] after two requests, and the
    guide's [sequentialRequests], which reads [posts[0].id] without
    looking at the length, returns [undefined] after two requests. *)
Theorem user_without_posts (w : World) (s : state) (user id : value)
    (latency latency' code code' : Z) (text text' : string) :
  well_formed s ->
  let n := length (calls s) in
  w n users1_url VUndefined = (latency, Respond code text (JsonBody user)) ->
  ok_status code = true ->
  get_prop user "id" = Fulfilled id ->
  w (n + 1) (posts_of id) VUndefined = (latency', Respond code' text' (JsonBody (VArr []))) ->
  ok_status code' = true ->
  result (Solutions.fetchUserPostComments w (VNum 1) s) =
    Fulfilled (VObj [("user", user); ("posts", VArr []); ("comments", VArr [])]) /\
  fetches s (Solutions.fetchUserPostComments w (VNum 1) s) = 2 /\
  result (Guide.sequentialRequests w s) = Fulfilled VUndefined /\
  fetches s (Guide.sequentialRequests w s) = 2.
Proof.
  intros Hwf n Hw0 Hok0 Hid Hw1 Hok1.
  assert (Hposts : forall s1,
            calls s1 = calls s ++ [(users1_url, VUndefined)] ->
            consumed s1 = {[n]} ∪ consumed s ->
            exists s2,
              (fetch w (posts_of id) VUndefined s1 =
               (Fulfilled (mkResponse (n + 1) code' text' (JsonBody (VArr []))), s2)) /\
              (json (mkResponse (n + 1) code' text' (JsonBody (VArr []))) s2 =
               (Fulfilled (VArr []), consume (n + 1) s2)) /\
              calls s2 = calls s ++ [(users1_url, VUndefined); (posts_of id, VUndefined)]).
  { intros s1 Hc Hcons. eexists. rewrite fetch_plain.
    assert (Hlen : length (calls s1) = n + 1) by (rewrite Hc, length_app; simpl; lia).
    rewrite Hlen, Hw1. cbn [fst snd]. split; [reflexivity|]. split.
    - apply json_fresh. simpl. rewrite Hcons. intros Hin.
      apply elem_of_union in Hin as [Hin|Hin].
      + apply elem_of_singleton in Hin. lia.
      + apply Hwf in Hin. lia.
    - simpl. rewrite Hc, <- app_assoc. reflexivity. }
  set (s1 := consume n (set_now (now s + Z.max 0 latency)%Z
                          (log_call (users1_url, VUndefined) s))).
  destruct (Hposts s1 eq_refl eq_refl) as (s2 & Hf & Hj & Hc).
  assert (Huser : forall k : Net.Response -> M value,
            (fetch w users1_url VUndefined ≫= k) s =
            k (mkResponse n code text (JsonBody user))
              (set_now (now s + Z.max 0 latency)%Z (log_call (users1_url, VUndefined) s))).
  { intros k. rewrite bind_run, fetch_plain. fold n. rewrite Hw0. reflexivity. }
  assert (Hjson : forall s0, consumed s0 = consumed s ->
            json (mkResponse n code text (JsonBody user)) s0 = (Fulfilled user, consume n s0)).
  { intros s0 Hs0. apply (json_fresh code text (JsonBody user)).
    rewrite Hs0. apply well_formed_fresh, Hwf. }
  unfold ok_status in Hok0, Hok1.
  unfold fetches, result, final, Solutions.fetchUserPostComments, Guide.sequentialRequests.
  rewrite !try_catch_run.
  change ("https://jsonplaceholder.typicode.com/users/" +:+ to_string (VNum 1))
    with users1_url.
  fold users1_url. rewrite !Huser.
  unfold ok. cbn [status negb]. rewrite Hok0. cbn [negb].
  rewrite !bind_run,
    !(Hjson (set_now (now s + Z.max 0 latency)%Z (log_call (users1_url, VUndefined) s))
        eq_refl).
  fold s1.
  rewrite !bind_run, !lift_run, Hid. fold (posts_of id).
  rewrite !bind_run, Hf. cbn [status]. rewrite Hok1. cbn [negb].
  rewrite !bind_run, Hj. simpl.
  rewrite Hc, length_app. simpl. repeat split; lia.
Qed.

Lemma user_without_posts_witness :
  result (Solutions.fetchUserPostComments no_posts (VNum 1) fresh) =
    Fulfilled (VObj [("user", VObj [("id", VNum 1); ("name", VStr "Leanne")]);
                     ("posts", VArr []); ("comments", VArr [])]) /\
  result (Guide.sequentialRequests no_posts fresh) = Fulfilled VUndefined.
Proof.
  destruct (user_without_posts no_posts fresh
              (VObj [("id", VNum 1); ("name", VStr "Leanne")]) (VNum 1)
              20 20 200 200 "OK" "OK" fresh_well_formed eq_refl eq_refl eq_refl
              eq_refl eq_refl) as (Hsol & _ & Hguide & _).
  exact (conj Hsol Hguide).
Defined.

(** ** The challenge file's [safeFetch] *)

(** X6.  [safeFetch] as the challenge file has it.  When the transport
    answers in time with a failure status, the function rejects with a
    [ReferenceError] (its [if (!fetchResponse.ok)] block evaluates a
    template literal on the unbound name [response]), where the solution
    rejects with "HTTP Error <status>: <statusText>".  In every other run
    (the timer fires first, the transport fails, or the status is a
    success) the two functions do the same. *)
Theorem template_safeFetch_status_failure (w : World) (url : string) (options : value)
    (s : state) :
  let reply := w (length (calls s)) url (with_timer (now s) options) in
  (forall code text b,
     reply.2 = Respond code text b -> ok_status code = false ->
     (Z.max 0 reply.1 < 5000)%Z ->
     result (Challenges.safeFetch w url options s) =
       Rejected (JsError "ReferenceError" "response is not defined") /\
     result (Solutions.safeFetch w url options s) =
       Rejected (JsError "Error" ("HTTP Error " +:+ Z_to_string code +:+ ": " +:+ text))) /\
  ((5000 <= Z.max 0 reply.1)%Z \/
   (exists msg, reply.2 = NetworkError msg) \/
   (exists code text b, reply.2 = Respond code text b /\ ok_status code = true) ->
   Challenges.safeFetch w url options s = Solutions.safeFetch w url options s).
Proof.
  cbn zeta. unfold result, Challenges.safeFetch, Solutions.safeFetch.
  rewrite !bind_run. simpl. rewrite !try_catch_run, !bind_run.
  fold (with_timer (now s) options). unfold with_timer.
  rewrite (fetch_with_signal w url _ (now s + 5000)%Z s (assoc_set_field _ _ _)).
  cbn zeta.
  set (reply := w (length (calls s)) url _).
  replace (now s + 5000 <=? now s + Z.max 0 reply.1)%Z
    with (5000 <=? Z.max 0 reply.1)%Z by lia.
  split.
  - intros code text b Hans Hok Hfast.
    replace (5000 <=? Z.max 0 reply.1)%Z with false by lia.
    rewrite Hans. unfold ok, ok_status in *. simpl. rewrite Hok. simpl. auto.
  - intros [Hslow|[(msg & Hans)|(code & text & b & Hans & Hok)]].
    + replace (5000 <=? Z.max 0 reply.1)%Z with true by lia. reflexivity.
    + destruct (5000 <=? Z.max 0 reply.1)%Z; [reflexivity|]. rewrite Hans. reflexivity.
    + destruct (5000 <=? Z.max 0 reply.1)%Z; [reflexivity|]. rewrite Hans.
      unfold ok, ok_status in *. simpl. rewrite Hok. reflexivity.
Qed.

(** ** The pattern sheet's [retry] *)

(* props *)
Lemma retry_loop_backoff fn maxRetries remaining i s :
  quiet fn ->
  i + remaining = S maxRetries ->
  0 < remaining ->
  exists k s',
    i + k <= maxRetries /\
    Patterns.retry_loop fn maxRetries remaining i s = fn s' /\
    sleeps s' = sleeps s ++ powers_of_two i k /\
    (is_fulfilled (result (fn s')) = false -> i + k = maxRetries).
Proof.
  intros Hquiet. revert i s.
  induction remaining as [|remaining IH]; intros i s Hi Hpos; [lia|].
  simpl. rewrite try_catch_run.
  destruct (fn s) as [[v|e] s1] eqn:Hfn.
  - exists 0, s. rewrite Hfn, app_nil_r. simpl. repeat split; try lia.
  - destruct (Nat.eqb_spec i maxRetries) as [Hlast|Hmore].
    + exists 0, s. rewrite Hfn, app_nil_r. simpl. repeat split; lia.
    + rewrite bind_run. simpl.
      destruct (IH (S i)
                  (set_now (now s1 + Z.max 0 (2 ^ Z.of_nat i * 1000))%Z
                     (log_sleep (2 ^ Z.of_nat i * 1000)%Z s1))
                  ltac:(lia) ltac:(lia)) as (k & s' & Hk & Hrun & Hs & Hrej).
      exists (S k), s'. rewrite Hrun, Hs. simpl.
      pose proof (Hquiet s) as Hq. rewrite Hfn in Hq. simpl in Hq.
      rewrite Hq, powers_of_two_S, <- app_assoc. simpl.
      repeat split; try lia. intros H. apply Hrej in H. lia.
Qed.

(** X7.  [retry(fn, maxRetries)] of the pattern sheet, for an [fn] that
    waits for no timer of its own.  What [retry] returns or throws is what
    one call of [fn] returned or threw: the error of the last attempt is
    passed on as it is, and the loop is never left at its end.  Before
    that call the function waited 1000, 2000, 4000, ... ms, at most
    [maxRetries] times, and it rejects only after having waited all
    [maxRetries] times. *)
Theorem retry_backoff (fn : M value) (maxRetries : nat) (s : state) :
  quiet fn ->
  exists k s',
    k <= maxRetries /\
    Patterns.retry fn maxRetries s = fn s' /\
    sleeps s' = sleeps s ++ powers_of_two 0 k /\
    (is_fulfilled (result (Patterns.retry fn maxRetries s)) = false -> k = maxRetries).
Proof.
  intros Hquiet.
  destruct (retry_loop_backoff fn maxRetries (S maxRetries) 0 s Hquiet eq_refl ltac:(lia))
    as (k & s' & Hk & Hrun & Hs & Hrej).
  exists k, s'. unfold Patterns.retry. rewrite Hrun. auto.
Qed.

Lemma then_json_quiet w url : quiet (Guide.then_json w url).
Proof.
  intros s. unfold Guide.then_json. rewrite bind_run.
  pose proof (fetch_logs w url VUndefined s) as (_ & Hs & _).
  destruct (fetch w url VUndefined s) as [[r|e] s1]; simpl in *; [|exact Hs].
  pose proof (json_logs r s1) as (_ & Hs' & _). congruence.
Qed.

Lemma retry_backoff_witness :
  quiet (Guide.then_json offline "/api/data") /\
  exists k s',
    k <= 3 /\
    Patterns.retry (Guide.then_json offline "/api/data") 3 fresh =
      Guide.then_json offline "/api/data" s' /\
    sleeps s' = sleeps fresh ++ powers_of_two 0 k /\
    (is_fulfilled (result (Patterns.retry (Guide.then_json offline "/api/data") 3 fresh))
     = false -> k = 3).
Proof.
  split; [apply then_json_quiet|].
  exact (retry_backoff (Guide.then_json offline "/api/data") 3 fresh
           (then_json_quiet offline "/api/data")).
Defined.

(** ** What the caches keep *)

Lemma cachedfetch_miss w ttl url options s key :
  Solutions.CachedFetch._getCacheKey url options = Fulfilled key ->
  cache s !! key = None ->
  Solutions.CachedFetch.fetch w ttl url options s =
  Solutions.CachedFetch.request w key url (or_empty_object options) s.
Proof.
  intros Hkey He.
  assert (Hkey' : Solutions.CachedFetch._getCacheKey url (or_empty_object options)
                  = Fulfilled key) by (destruct options; exact Hkey).
  unfold Solutions.CachedFetch.fetch. rewrite bind_run.
  unfold lift. rewrite Hkey', bind_run. simpl. rewrite He. reflexivity.
Qed.

Lemma cachedfetch_key w ttl url options s d :
  result (Solutions.CachedFetch.fetch w ttl url options s) = Fulfilled d ->
  exists key, Solutions.CachedFetch._getCacheKey url options = Fulfilled key.
Proof.
  unfold result, Solutions.CachedFetch.fetch. rewrite bind_run. unfold lift.
  assert (Hkey : Solutions.CachedFetch._getCacheKey url (or_empty_object options) =
                 Solutions.CachedFetch._getCacheKey url options)
    by (destruct options; reflexivity).
  rewrite Hkey.
  destruct (Solutions.CachedFetch._getCacheKey url options) as [key|e]; [eauto|discriminate].
Qed.

Lemma cachedfetch_stores w ttl url options s d key :
  Solutions.CachedFetch._getCacheKey url options = Fulfilled key ->
  result (Solutions.CachedFetch.fetch w ttl url options s) = Fulfilled d ->
  exists e,
    cache (final (Solutions.CachedFetch.fetch w ttl url options s)) !! key = Some e /\
    data e = d.
Proof.
  intros Hkey.
  destruct (cache s !! key) as [e|] eqn:He.
  - rewrite (cachedfetch_lookup w ttl url options s key e Hkey He).
    destruct (now s - timestamp e <? ttl)%Z.
    + intros [= <-]. exists e. auto.
    + intros Hres.
      destruct (solutions_request_spec w key url (or_empty_object options) (evicted key s))
        as (_ & Hful & _).
      rewrite (Hful d Hres). eexists. split; [apply lookup_insert_eq|reflexivity].
  - rewrite (cachedfetch_miss w ttl url options s key Hkey He). intros Hres.
    destruct (solutions_request_spec w key url (or_empty_object options) s)
      as (_ & Hful & _).
    rewrite (Hful d Hres). eexists. split; [apply lookup_insert_eq|reflexivity].
Qed.

Lemma request_fetches_once w key url o s :
  fetches s (Solutions.CachedFetch.request w key url o s) = 1.
Proof.
  destruct (solutions_request_spec w key url o s) as (Hc & _).
  unfold fetches. rewrite Hc, length_app. simpl. lia.
Qed.

(** X8.  [CachedFetch.clearKey(url, options)] computes the key that
    [fetch(url, options)] stored its result under.  After a [fetch] that
    returned [d] the cache holds [d] under that key; [clearKey] removes
    that entry and no other, [clear] removes them all, and after either
    the next [fetch(url, options)] calls the transport once, at whatever
    time it is made. *)
Theorem clearKey_forgets_the_entry (w : World) (ttl : Z) (url : string) (options : value)
    (s : state) (d : value) :
  result (Solutions.CachedFetch.fetch w ttl url options s) = Fulfilled d ->
  let s1 := final (Solutions.CachedFetch.fetch w ttl url options s) in
  let s2 := final (Solutions.CachedFetch.clearKey url options s1) in
  let s3 := final (Solutions.CachedFetch.clear s1) in
  exists key e,
    Solutions.CachedFetch._getCacheKey url options = Fulfilled key /\
    cache s1 !! key = Some e /\ data e = d /\
    cache s2 = delete key (cache s1) /\
    cache s3 = ∅ /\
    forall w' t,
      fetches (set_now t s2) (Solutions.CachedFetch.fetch w' ttl url options (set_now t s2)) = 1 /\
      fetches (set_now t s3) (Solutions.CachedFetch.fetch w' ttl url options (set_now t s3)) = 1.
Proof.
  intros Hres s1 s2 s3.
  destruct (cachedfetch_key w ttl url options s d Hres) as [key Hkey].
  destruct (cachedfetch_stores w ttl url options s d key Hkey Hres) as (e & He & Hd).
  fold s1 in He.
  assert (Hs2 : cache s2 = delete key (cache s1)).
  { unfold s2, Solutions.CachedFetch.clearKey, final. rewrite bind_run.
    unfold lift. rewrite Hkey. reflexivity. }
  exists key, e. repeat split; auto.
  - rewrite (cachedfetch_miss w' ttl url options (set_now t s2) key Hkey).
    + apply request_fetches_once.
    + simpl. rewrite Hs2. apply lookup_delete_eq.
  - rewrite (cachedfetch_miss w' ttl url options (set_now t s3) key Hkey).
    + apply request_fetches_once.
    + apply lookup_empty.
Qed.

Lemma getCacheKey_ignores key v url fields :
  key <> "method" -> key <> "body" ->
  Solutions.CachedFetch._getCacheKey url (VObj (set_field key v fields)) =
  Solutions.CachedFetch._getCacheKey url (VObj fields).
Proof.
  intros Hm Hb. unfold Solutions.CachedFetch._getCacheKey. simpl.
  rewrite !assoc_set_field_ne by congruence. reflexivity.
Qed.

(** X9.  The key of [CachedFetch] is made of the method, the URL and
    the body.  So, once [fetch(url, options)] has returned [d], a [fetch]
    of the same URL within the TTL returns [d] from the cache, without a
    request, also when its options carry other [headers], and also when
    they name the method "GET" that the first call left out. *)
Theorem cache_key_ignores_headers (w : World) (ttl : Z) (url : string)
    (fields : list (string * value)) (s : state) (d : value) :
  result (Solutions.CachedFetch.fetch w ttl url (VObj fields) s) = Fulfilled d ->
  let s1 := final (Solutions.CachedFetch.fetch w ttl url (VObj fields) s) in
  exists key e,
    Solutions.CachedFetch._getCacheKey url (VObj fields) = Fulfilled key /\
    cache s1 !! key = Some e /\ data e = d /\
    (forall w' t h,
       (t - timestamp e < ttl)%Z ->
       Solutions.CachedFetch.fetch w' ttl url (VObj (set_field "headers" h fields))
         (set_now t s1) = (Fulfilled d, set_now t s1)) /\
    (assoc "method" fields = None ->
     forall w' t,
       (t - timestamp e < ttl)%Z ->
       Solutions.CachedFetch.fetch w' ttl url (VObj (set_field "method" (VStr "GET") fields))
         (set_now t s1) = (Fulfilled d, set_now t s1)).
Proof.
  intros Hres s1.
  destruct (cachedfetch_key w ttl url (VObj fields) s d Hres) as [key Hkey].
  destruct (cachedfetch_stores w ttl url (VObj fields) s d key Hkey Hres) as (e & He & Hd).
  fold s1 in He. exists key, e. repeat split; auto.
  - intros w' t h Hage.
    rewrite (cachedfetch_lookup w' ttl url _ (set_now t s1) key e).
    + simpl. replace (t - timestamp e <? ttl)%Z with true by lia. rewrite Hd. reflexivity.
    + rewrite getCacheKey_ignores by discriminate. exact Hkey.
    + exact He.
  - intros Hnone w' t Hage.
    rewrite (cachedfetch_lookup w' ttl url _ (set_now t s1) key e).
    + simpl. replace (t - timestamp e <? ttl)%Z with true by lia. rewrite Hd. reflexivity.
    + rewrite <- Hkey. unfold Solutions.CachedFetch._getCacheKey. simpl.
      rewrite assoc_set_field, assoc_set_field_ne by discriminate.
      rewrite Hnone. reflexivity.
    + exact He.
Qed.

(** X10.  A [CachedFetch.fetch] that rejects adds nothing to the cache:
    every entry the cache holds afterwards was in it before. *)
Theorem cachedfetch_failure_stores_nothing (w : World) (ttl : Z) (url : string)
    (options : value) (s : state) (err : exn) :
  result (Solutions.CachedFetch.fetch w ttl url options s) = Rejected err ->
  cache (final (Solutions.CachedFetch.fetch w ttl url options s)) ⊆ cache s.
Proof.
  unfold result, final.
  destruct (Solutions.CachedFetch._getCacheKey url options) as [key|e0] eqn:Hkey.
  - destruct (cache s !! key) as [e|] eqn:He.
    + rewrite (cachedfetch_lookup w ttl url options s key e Hkey He).
      destruct (now s - timestamp e <? ttl)%Z; [discriminate|].
      intros Hres.
      destruct (solutions_request_spec w key url (or_empty_object options) (evicted key s))
        as (_ & _ & Hrej).
      unfold result, final in Hrej. rewrite (Hrej err Hres). simpl.
      apply delete_subseteq.
    + rewrite (cachedfetch_miss w ttl url options s key Hkey He). intros Hres.
      destruct (solutions_request_spec w key url (or_empty_object options) s)
        as (_ & _ & Hrej).
      unfold result, final in Hrej. rewrite (Hrej err Hres). reflexivity.
  - intros _. unfold Solutions.CachedFetch.fetch. rewrite bind_run. unfold lift.
    assert (Hkey' : Solutions.CachedFetch._getCacheKey url (or_empty_object options) =
                    Solutions.CachedFetch._getCacheKey url options)
      by (destruct options; reflexivity).
    rewrite Hkey', Hkey. reflexivity.
Qed.


Lemma cachedFetch_run w url ttl s :
  Patterns.cachedFetch w url ttl s =
  match cache s !! url with
  | Some cached =>
      if (now s - timestamp cached <? ttl)%Z then (Fulfilled (data cached), s)
      else Guide.RequestCache.request w url url VUndefined s
  | None => Guide.RequestCache.request w url url VUndefined s
  end.
Proof.
  unfold Patterns.cachedFetch. rewrite bind_run. simpl.
  destruct (cache s !! url) as [e|]; [destruct (_ <? _)%Z|]; reflexivity.
Qed.

Lemma guide_request_once w key url o s :
  fetches s (Guide.RequestCache.request w key url o s) = 1.
Proof.
  destruct (guide_request_spec w key url o s) as (Hc & _).
  unfold fetches. rewrite Hc, length_app. simpl. lia.
Qed.


(** X13.  [cachedFetch(url, ttl)] of the pattern sheet keeps its result
    under the URL.  After a call that returned [d], a call for the same
    URL returns [d] without a request as long as the age of the entry is
    below the TTL of that later call, and calls the transport once when
    it is not: the TTL that counts is the one of the call that reads. *)
Theorem cachedFetch_round_trip (w : World) (url : string) (ttl : Z) (s : state)
    (d : value) :
  result (Patterns.cachedFetch w url ttl s) = Fulfilled d ->
  let s1 := final (Patterns.cachedFetch w url ttl s) in
  exists e,
    cache s1 !! url = Some e /\ data e = d /\
    forall w' ttl' t,
      ((t - timestamp e < ttl')%Z ->
       Patterns.cachedFetch w' url ttl' (set_now t s1) = (Fulfilled d, set_now t s1)) /\
      ((ttl' <= t - timestamp e)%Z ->
       fetches (set_now t s1) (Patterns.cachedFetch w' url ttl' (set_now t s1)) = 1).
Proof.
  intros Hres s1.
  assert (He : exists e, cache s1 !! url = Some e /\ data e = d).
  { unfold s1. revert Hres. rewrite cachedFetch_run.
    destruct (guide_request_spec w url url VUndefined s) as (_ & Hful & _).
    destruct (cache s !! url) as [e|] eqn:He.
    - destruct (now s - timestamp e <? ttl)%Z.
      + intros [= <-]. exists e. auto.
      + intros Hres. rewrite (Hful d Hres). eexists. split; [apply lookup_insert_eq|reflexivity].
    - intros Hres. rewrite (Hful d Hres). eexists. split; [apply lookup_insert_eq|reflexivity]. }
  destruct He as (e & He & Hd). exists e. split; [exact He|]. split; [exact Hd|].
  intros w' ttl' t. rewrite cachedFetch_run. simpl. rewrite He. split; intros Hage.
  - replace (t - timestamp e <? ttl')%Z with true by lia. rewrite Hd. reflexivity.
  - replace (t - timestamp e <? ttl')%Z with false by lia. apply guide_request_once.
Qed.

(** ** The guide's [APIService] *)



Lemma request_sends w baseURL endpoint fields s :
  exists headers,
    get_prop (VObj fields) "headers" = Fulfilled headers /\
    calls (final (Guide.APIService.request w baseURL endpoint (VObj fields) s)) =
    calls s ++ [(baseURL +:+ endpoint,
                 VObj (set_field "headers"
                         (VObj (spread_into Guide.APIService.defaultHeaders (spread headers)))
                         fields))].
Proof.
  unfold Guide.APIService.request, final. simpl. rewrite bind_run, lift_run.
  eexists. split; [reflexivity|]. simpl.
  rewrite try_catch_run, !bind_run. simpl. rewrite bind_run.
  match goal with |- context [fetch ?w ?u ?o ?s] =>
    pose proof (fetch_logs w u o s) as (Hc & _);
    destruct (fetch w u o s) as [[resp|e] s1]; simpl in *; [|exact Hc]
  end.
  rewrite bind_run. simpl.
  destruct (negb (ok resp)); simpl; [exact Hc|].
  pose proof (json_logs resp s1) as (Hc' & _).
  destruct (json resp s1) as [[v|e] s2]; simpl in *; congruence.
Qed.

Ltac verb_sends :=
  match goal with
  | |- sends ?s (Guide.APIService.request ?w ?b ?e (VObj ?fields) ?s) _ _ _ =>
      destruct (request_sends w b e fields s) as (headers & _ & Hc);
      eexists; eexists; split; [exact Hc|];
      rewrite ?assoc_set_field, ?assoc_set_field_ne by discriminate;
      rewrite ?assoc_set_field, ?assoc_set_field_ne by discriminate;
      rewrite ?assoc_set_field; auto
  end.

(** X14.  The verbs of the guide's [APIService].  Each of [get], [post],
    [put], [patch] and [delete] makes one request, to
    [baseURL + endpoint], with a [headers] object and with its own method,
    whatever [method] the options of the caller name; [post], [put] and
    [patch] send [JSON.stringify(data)] as the body, whatever [body] the
    options name. *)
Theorem APIService_verbs (w : World) (baseURL endpoint : string) (data options : value)
    (s : state) :
  let url := baseURL +:+ endpoint in
  sends s (Guide.APIService.get w baseURL endpoint options s) url "GET" None /\
  sends s (Guide.APIService.post w baseURL endpoint data options s) url "POST"
    (Some (Guide.APIService.json_text data)) /\
  sends s (Guide.APIService.put w baseURL endpoint data options s) url "PUT"
    (Some (Guide.APIService.json_text data)) /\
  sends s (Guide.APIService.patch w baseURL endpoint data options s) url "PATCH"
    (Some (Guide.APIService.json_text data)) /\
  sends s (Guide.APIService.delete w baseURL endpoint options s) url "DELETE" None.
Proof.
  cbn zeta.
  unfold Guide.APIService.get, Guide.APIService.post, Guide.APIService.put,
    Guide.APIService.patch, Guide.APIService.delete.
  repeat split; verb_sends.
Qed.


Lemma clearKey_forgets_the_entry_witness :
  let s1 := final (Solutions.CachedFetch.fetch users_ok 60000 "/api/users" (VObj []) fresh) in
  let s2 := final (Solutions.CachedFetch.clearKey "/api/users" (VObj []) s1) in
  cache s2 !! "GET:/api/users:" = None /\
  fetches (set_now 30 s2)
    (Solutions.CachedFetch.fetch users_ok 60000 "/api/users" (VObj []) (set_now 30 s2)) = 1.
Proof.
  intros s1 s2.
  destruct (clearKey_forgets_the_entry users_ok 60000 "/api/users" (VObj []) fresh
              (VArr [VObj [("id", VNum 1)]]) eq_refl)
    as (key & e & Hkey & _ & _ & Hs2 & _ & Hnext).
  injection Hkey as <-. fold s1 s2 in Hs2. split.
  - rewrite Hs2. apply lookup_delete_eq.
  - apply (Hnext users_ok 30%Z).
Defined.

Lemma cache_key_ignores_headers_witness :
  let s1 := final (Solutions.CachedFetch.fetch users_ok 60000 "/api/users" (VObj []) fresh) in
  Solutions.CachedFetch.fetch offline 60000 "/api/users"
    (VObj [("headers", VObj [("Authorization", VStr "Bearer other")])]) (set_now 30 s1) =
  (Fulfilled (VArr [VObj [("id", VNum 1)]]), set_now 30 s1).
Proof.
  intros s1.
  destruct (cache_key_ignores_headers users_ok 60000 "/api/users" [] fresh
              (VArr [VObj [("id", VNum 1)]]) eq_refl)
    as (key & e & Hkey & He & _ & Hshare & _).
  injection Hkey as <-.
  assert (Ht : timestamp e = 20%Z).
  { change (cache s1 !! "GET:/api/users:" = Some e) in He.
    assert (Hs1 : cache s1 !! "GET:/api/users:" =
                  Some (mkEntry (VArr [VObj [("id", VNum 1)]]) 20)).
    { unfold s1.
      rewrite (cachedfetch_miss users_ok 60000 "/api/users" (VObj []) fresh
                 "GET:/api/users:" eq_refl (lookup_empty _)).
      apply lookup_insert_eq. }
    rewrite Hs1 in He. injection He as <-. reflexivity. }
  apply (Hshare offline 30%Z (VObj [("Authorization", VStr "Bearer other")])).
  rewrite Ht. lia.
Defined.

Lemma cachedfetch_failure_stores_nothing_witness :
  cache (final (Solutions.CachedFetch.fetch offline 1000 "/api/users" (VObj [])
                  (cached_at_0 5000)))
  ⊆ cache (cached_at_0 5000).
Proof.
  apply (cachedfetch_failure_stores_nothing offline 1000 "/api/users" (VObj [])
           (cached_at_0 5000) (JsError "TypeError" "Failed to fetch")).
  rewrite (cachedfetch_lookup offline 1000 "/api/users" (VObj []) (cached_at_0 5000)
             "GET:/api/users:" (mkEntry (VNum 1) 0) eq_refl (cached_at_0_solutions 5000)).
  reflexivity.
Defined.



Lemma cachedFetch_round_trip_witness :
  let s1 := final (Patterns.cachedFetch users_ok "/api/users" 60000 fresh) in
  Patterns.cachedFetch offline "/api/users" 60000 (set_now 30 s1) =
  (Fulfilled (VArr [VObj [("id", VNum 1)]]), set_now 30 s1).
Proof.
  intros s1.
  destruct (cachedFetch_round_trip users_ok "/api/users" 60000 fresh
              (VArr [VObj [("id", VNum 1)]]) eq_refl) as (e & He & _ & Hnext).
  fold s1 in He.
  assert (Hs1 : cache s1 !! "/api/users" = Some (mkEntry (VArr [VObj [("id", VNum 1)]]) 20)).
  { unfold s1. rewrite cachedFetch_run.
    change (cache fresh !! "/api/users") with (@lookup _ _ (gmap string entry) _ "/api/users" ∅).
    rewrite lookup_empty. apply lookup_insert_eq. }
  rewrite Hs1 in He. injection He as <-.
  apply (proj1 (Hnext offline 60000%Z 30%Z)). simpl. lia.
Defined.


(** ** The guide's [AuthService] *)

(** X16.  [AuthService.fetchProtected] on a 401.  The call rejects with
    "Session expired" after its one request, and the object is logged
    out: the token is [null] and the item of [localStorage] is removed.
    Every later [fetchProtected] on that object rejects with "Not
    authenticated" and makes no request. *)
Theorem session_expires_on_401 (w : World) (endpoint : string)
    (a : Guide.AuthService.service) (s : state) (latency : Z) (text : string) (b : body) :
  truthy (Guide.AuthService.token a) = true ->
  w (length (calls s)) (Guide.AuthService.baseURL +:+ endpoint)
    (bearer (Guide.AuthService.token a)) = (latency, Respond 401 text b) ->
  let r := Guide.AuthService.fetchProtected w endpoint a s in
  r.1.1 = Rejected (JsError "Error" "Session expired") /\
  r.1.2 = Guide.AuthService.mkService VNull None /\
  calls r.2 = calls s ++ [(Guide.AuthService.baseURL +:+ endpoint,
                           bearer (Guide.AuthService.token a))] /\
  forall w' endpoint' s',
    Guide.AuthService.fetchProtected w' endpoint' r.1.2 s' =
    (Rejected (JsError "Error" "Not authenticated"), r.1.2, s').
Proof.
  intros Htok Hw. cbn zeta.
  assert (Hrun : Guide.AuthService.fetchProtected w endpoint a s =
                 (Rejected (JsError "Error" "Session expired"),
                  Guide.AuthService.mkService VNull None,
                  set_now (now s + Z.max 0 latency)%Z
                    (log_call (Guide.AuthService.baseURL +:+ endpoint,
                               bearer (Guide.AuthService.token a)) s))).
  { unfold Guide.AuthService.fetchProtected. rewrite Htok. cbn [negb].
    fold (bearer (Guide.AuthService.token a)).
    rewrite (fetch_no_signal w _ (bearer (Guide.AuthService.token a)) s latency _
               eq_refl Hw).
    reflexivity. }
  rewrite Hrun. repeat split.
Qed.

Lemma session_expires_on_401_witness :
  let r := Guide.AuthService.fetchProtected always_401 "/profile"
             (Guide.AuthService.create (Some "t0")) fresh in
  r.1.1 = Rejected (JsError "Error" "Session expired") /\
  Guide.AuthService.fetchProtected always_401 "/profile" r.1.2 r.2 =
  (Rejected (JsError "Error" "Not authenticated"), r.1.2, r.2).
Proof.
  intros r.
  destruct (session_expires_on_401 always_401 "/profile"
              (Guide.AuthService.create (Some "t0")) fresh 20 "Unauthorized"
              (JsonBody VNull) eq_refl eq_refl) as (Hres & _ & _ & Hnext).
  split; [exact Hres|]. apply Hnext.
Defined.

(** X17.  [AuthService.login] and what follows.  When the transport
    answers the login with a success status and an object, [login] returns
    its [user], keeps its [token] in the object and keeps the token, as a
    string, in [localStorage].  With a token that is truthy, every later
    [fetchProtected(endpoint)] makes one request, to [baseURL + endpoint],
    with the header "Authorization: Bearer <token>".  With an answer that
    has no [token], the object is not authenticated, and [localStorage]
    holds the string "undefined", which a service created later takes for
    its token. *)
Theorem login_round_trip (w : World) (email password : value)
    (a : Guide.AuthService.service) (s : state) (latency code : Z) (text : string)
    (v tok user : value) :
  well_formed s ->
  w (length (calls s)) (Guide.AuthService.baseURL +:+ "/auth/login")
    (Guide.AuthService.login_request email password) =
    (latency, Respond code text (JsonBody v)) ->
  ok_status code = true ->
  destructure v "token" = Fulfilled tok ->
  destructure v "user" = Fulfilled user ->
  let r := Guide.AuthService.login w email password a s in
  r.1.1 = Fulfilled user /\
  r.1.2 = Guide.AuthService.mkService tok (Some (to_string tok)) /\
  (truthy tok = true ->
   forall w' endpoint s',
     calls (Guide.AuthService.fetchProtected w' endpoint r.1.2 s').2 =
     calls s' ++ [(Guide.AuthService.baseURL +:+ endpoint, bearer tok)]) /\
  (tok = VUndefined ->
   (forall w' endpoint s',
      Guide.AuthService.fetchProtected w' endpoint r.1.2 s' =
      (Rejected (JsError "Error" "Not authenticated"), r.1.2, s')) /\
   Guide.AuthService.create (Guide.AuthService.stored r.1.2) =
   Guide.AuthService.mkService (VStr "undefined") (Some "undefined")).
Proof.
  intros Hwf Hw Hok Htok Huser. cbn zeta.
  assert (Hrun : Guide.AuthService.login w email password a s =
                 (Fulfilled user, Guide.AuthService.mkService tok (Some (to_string tok)),
                  consume (length (calls s))
                    (set_now (now s + Z.max 0 latency)%Z
                       (log_call (Guide.AuthService.baseURL +:+ "/auth/login",
                                  Guide.AuthService.login_request email password) s)))).
  { unfold Guide.AuthService.login, Guide.AuthService.login_reply. rewrite bind_run.
    rewrite (fetch_no_signal w _ (Guide.AuthService.login_request email password) s
               latency _ eq_refl Hw).
    unfold ok, ok_status in *. cbn [status negb]. rewrite Hok. cbn [negb].
    rewrite bind_run.
    match goal with |- context [json ?r ?s1] =>
      rewrite (json_fresh code text (JsonBody v) s1 (length (calls s))
                 (well_formed_fresh s Hwf))
    end.
    rewrite bind_run, lift_run, Htok, bind_run, lift_run, Huser. reflexivity. }
  rewrite Hrun. cbn [fst snd]. split; [reflexivity|]. split; [reflexivity|]. split.
  - intros Htruthy w' endpoint s'. unfold Guide.AuthService.fetchProtected.
    cbn [Guide.AuthService.token]. rewrite Htruthy. cbn [negb]. fold (bearer tok).
    pose proof (fetch_logs w' (Guide.AuthService.baseURL +:+ endpoint) (bearer tok) s')
      as (Hc & _).
    destruct (fetch w' _ (bearer tok) s') as [[resp|e] s1]; simpl in *; [|exact Hc].
    destruct (status resp =? 401)%Z; [exact Hc|].
    pose proof (json_logs resp s1) as (Hc' & _).
    destruct (json resp s1) as [o s2]. simpl in *. congruence.
  - intros ->. split; [|reflexivity]. intros w' endpoint s'. reflexivity.
Qed.

Lemma login_round_trip_witness :
  let r := Guide.AuthService.login login_ok (VStr "ada@example.com") (VStr "secret")
             (Guide.AuthService.create None) fresh in
  r.1.1 = Fulfilled (VStr "ada") /\
  calls (Guide.AuthService.fetchProtected login_ok "/profile" r.1.2 r.2).2 =
  calls r.2 ++ [("https://api.example.com/profile", bearer (VStr "t1"))].
Proof.
  intros r.
  destruct (login_round_trip login_ok (VStr "ada@example.com") (VStr "secret")
              (Guide.AuthService.create None) fresh 20 200 "OK"
              (VObj [("token", VStr "t1"); ("user", VStr "ada")]) (VStr "t1") (VStr "ada")
              fresh_well_formed eq_refl eq_refl eq_refl eq_refl)
    as (Hres & _ & Hnext & _).
  split; [exact Hres|]. apply (Hnext eq_refl login_ok "/profile").
Defined.

(** [AuthService.login] makes one request, and a login that fails
    (the transport fails, the status is not a success, the body is not
    JSON or is [null]) leaves the token and [localStorage] as they
    were. *)
Theorem failed_login_keeps_the_session (w : World) (email password : value)
    (a : Guide.AuthService.service) (s : state) :
  let r := Guide.AuthService.login w email password a s in
  fetches s (r.1.1, r.2) = 1 /\
  (is_fulfilled r.1.1 = false -> r.1.2 = a).
Proof.
  cbn zeta. unfold Guide.AuthService.login, Guide.AuthService.login_reply, fetches, final.
  rewrite bind_run.
  run_fetch s1 H1; [|split; [count_calls|reflexivity]].
  destruct (negb (ok response)); cbn [fst snd throw]; [split; [count_calls|reflexivity]|].
  rewrite bind_run. run_json s2 H2; [|split; [count_calls|reflexivity]].
  rewrite bind_run, lift_run.
  destruct (destructure v "token") as [tok|e]; cbn [fst snd];
    [|split; [count_calls|reflexivity]].
  rewrite bind_run, lift_run.
  destruct (destructure v "user") as [user|e]; cbn [fst snd];
    split; try count_calls; try reflexivity. discriminate.
Qed.

(** ** [AuthAPI] after a refresh that failed *)

(** X19.  [AuthAPI] after a refresh that failed.  The [catch] block of
    the refresh calls [logout()]: [isAuthenticated()] is then false and no
    refresh is pending; a call of [_request] made afterwards, with options
    that carry no headers, is sent with the "Content-Type" header alone,
    without "Authorization". *)
Theorem failed_refresh_logs_out (a : api) (p : nat) (ans : answer) (e : exn)
    (path : string) (opts : value) :
  p ∈ inflight a ->
  refreshed ans = Rejected e ->
  let a' := step a (RefreshResponse p ans) in
  isAuthenticated a' = false /\
  refreshPromise a' = None /\
  (get_prop (or_empty_object opts) "headers" = Fulfilled VUndefined ->
   let a'' := step a' (Call path opts) in
   phase_of a'' (length (tasks a')) = Some AwaitResponse /\
   authorization a'' (length (tasks a')) = None /\
   sent a'' = sent a' ++ [(baseURL a +:+ path,
                           VObj (set_field "headers"
                                   (VObj [("Content-Type", VStr "application/json")])
                                   (spread (or_empty_object opts))))]).
Proof.
  intros Hin Hans. cbn zeta.
  assert (Hstep : exists l,
            step a (RefreshResponse p ans) =
            mkApi (baseURL a) VNull None None l (refreshes a)
              (filter (fun q => q <> p) (inflight a)) (sent a)).
  { simpl. unfold on_refresh_response. rewrite bool_decide_eq_true_2 by exact Hin.
    rewrite Hans. unfold reject_all, logout, set_tasks. simpl. eauto. }
  destruct Hstep as [l ->]. split; [reflexivity|]. split; [reflexivity|].
  intros Hh. simpl. unfold on_call, dispatch. simpl.
  rewrite lookup_app_r by lia. rewrite Nat.sub_diag. simpl.
  unfold headers_for, load_token. simpl. rewrite Hh. simpl.
  unfold phase_of, authorization. simpl.
  rewrite list_lookup_insert_eq by (rewrite length_app; simpl; lia).
  simpl. rewrite assoc_set_field. repeat split.
Qed.

Lemma failed_refresh_logs_out_witness :
  let a := step two_calls (Response 0 answer_401) in
  let a' := step a (RefreshResponse 0 (Respond 500 "Internal Server Error" (BadBody ""))) in
  isAuthenticated a' = false /\
  authorization (step a' (Call "/users" VUndefined)) 2 = None.
Proof.
  intros a a'.
  destruct (failed_refresh_logs_out a 0
              (Respond 500 "Internal Server Error" (BadBody ""))
              (JsError "Error" "Token refresh failed") "/users" VUndefined
              ltac:(apply list_elem_of_here) eq_refl) as (Hauth & _ & Hnext).
  split; [exact Hauth|]. exact (proj1 (proj2 (Hnext eq_refl))).
Defined.

(** ** Batches *)

Lemma distribute_length results index n :
  length (Solutions.RequestBatcher.distribute results index n) = n.
Proof.
  revert index. induction n as [|n IH]; intros index; simpl; [reflexivity|].
  destruct (Solutions.RequestBatcher.settle results index).
  - simpl. rewrite IH. reflexivity.
  - simpl. rewrite length_replicate. reflexivity.
Qed.

Lemma distribute_by_position results responses index n :
  get_prop results "responses" = Fulfilled (VArr responses) ->
  Forall is_object responses ->
  Solutions.RequestBatcher.distribute results index n =
  map answered (take n (drop index responses)) ++
  replicate (n - length (drop index responses)) (Rejected no_entry).
Proof.
  intros Hres Hobj. revert index.
  induction n as [|n IH]; intros index; simpl; [reflexivity|].
  unfold Solutions.RequestBatcher.settle. rewrite Hres. simpl.
  destruct (responses !! index) as [entry|] eqn:Hentry.
  - rewrite (drop_S _ _ _ Hentry). simpl.
    assert (Hentry' : is_object entry).
    { eapply Forall_lookup_1; eauto. }
    destruct Hentry' as [fields ->]. simpl. unfold answered. simpl.
    destruct (truthy (default VUndefined (assoc "error" fields))); simpl;
      rewrite IH; reflexivity.
  - apply lookup_ge_None in Hentry.
    rewrite (drop_ge _ _ Hentry). simpl. reflexivity.
Qed.

(** X20.  [RequestBatcher._processBatch] of the solutions settles the
    promise of every item of the batch, whatever the transport does, and
    makes at most one request: none for an empty batch.  When the batch
    endpoint answers with a failure status, every item rejects with
    "Batch request failed", whatever the body holds. *)
Theorem processBatch_settles_every_item (w : World) (batchUrl : string)
    (batch : list Solutions.RequestBatcher.item) (s : state) :
  let r := Solutions.RequestBatcher._processBatch w batchUrl batch s in
  exists outcomes,
    result r = Fulfilled outcomes /\
    length outcomes = length batch /\
    fetches s r <= 1 /\
    (batch = [] -> fetches s r = 0) /\
    (forall requests code,
       batch <> [] ->
       Solutions.RequestBatcher.batchRequest batch = Fulfilled requests ->
       always_status w code -> ok_status code = false ->
       outcomes = replicate (length batch) (Rejected (JsError "Error" "Batch request failed")) /\
       calls (final r) = calls s ++ [(batchUrl, batch_options requests)]).
Proof.
  cbn zeta. destruct batch as [|it rest].
  { exists []. unfold fetches, result, final. simpl.
    split; [reflexivity|]. split; [reflexivity|]. split; [lia|]. split; [lia|].
    intros requests code Hne. congruence. }
  set (batch := it :: rest).
  unfold Solutions.RequestBatcher._processBatch, fetches, result, final.
  change (match batch with [] => ret [] | _ :: _ => ?m end) with m.
  rewrite try_catch_run, bind_run, lift_run.
  destruct (Solutions.RequestBatcher.batchRequest batch) as [requests|e] eqn:Hreq;
    cbn [fst snd ret].
  { rewrite bind_run. fold (batch_options requests).
    pose proof (fetch_logs w batchUrl (batch_options requests) s) as (Hc & _).
    assert (Hstatus : forall code response s1,
              always_status w code -> ok_status code = false ->
              fetch w batchUrl (batch_options requests) s = (Fulfilled response, s1) ->
              negb (ok response) = true).
    { intros code response s1 Hw Hcode Hfetch.
      destruct (Hw (length (calls s)) batchUrl (batch_options requests))
        as (latency & text & b & Hans).
      rewrite (fetch_no_signal w batchUrl (batch_options requests) s latency _ eq_refl Hans)
        in Hfetch.
      injection Hfetch as <- _. unfold ok, ok_status in *. simpl. rewrite Hcode.
      reflexivity. }
    assert (Hanswers : forall code e s1,
              always_status w code ->
              fetch w batchUrl (batch_options requests) s = (Rejected e, s1) -> False).
    { intros code e s1 Hw Hfetch.
      destruct (Hw (length (calls s)) batchUrl (batch_options requests))
        as (latency & text & b & Hans).
      rewrite (fetch_no_signal w batchUrl (batch_options requests) s latency _ eq_refl Hans)
        in Hfetch.
      discriminate. }
    destruct (fetch w batchUrl (batch_options requests) s) as [[response|e] s1] eqn:Hfetch;
      cbn [fst snd ret] in *.
    - destruct (negb (ok response)) eqn:Hok; cbn [fst snd ret throw].
      + eexists. split; [reflexivity|]. rewrite length_replicate, Hc, length_app. simpl.
        split; [reflexivity|]. split; [lia|]. split; [discriminate|].
        intros requests' code _ [= <-] _ _. split; reflexivity.
      + rewrite bind_run.
        pose proof (json_logs response s1) as (Hc' & _).
        destruct (json response s1) as [[results|e] s2]; cbn [fst snd ret] in *.
        * eexists. split; [reflexivity|].
          rewrite distribute_length, Hc', Hc, length_app. simpl.
          split; [reflexivity|]. split; [lia|]. split; [discriminate|].
          intros requests' code _ _ Hw Hcode.
          rewrite (Hstatus code response s1 Hw Hcode eq_refl) in Hok. discriminate.
        * eexists. split; [reflexivity|].
          rewrite length_replicate, Hc', Hc, length_app. simpl.
          split; [reflexivity|]. split; [lia|]. split; [discriminate|].
          intros requests' code _ _ Hw Hcode.
          rewrite (Hstatus code response s1 Hw Hcode eq_refl) in Hok. discriminate.
    - eexists. split; [reflexivity|]. rewrite length_replicate, Hc, length_app. simpl.
      split; [reflexivity|]. split; [lia|]. split; [discriminate|].
      intros requests' code _ _ Hw _. destruct (Hanswers code e s1 Hw eq_refl). }
  eexists. split; [reflexivity|]. rewrite length_replicate.
  split; [reflexivity|]. split; [lia|]. split; [discriminate|].
  intros requests code _. discriminate.
Qed.

(** X21.  [RequestBatcher._processBatch] of the solutions gives each
    item the entry of [responses] at its position: the item rejects with
    the entry's [error] when that is truthy and resolves with the entry's
    [data] otherwise.  When [responses] has fewer entries than the batch
    has items, the items that have an entry settle by it, and each of the
    others rejects with the [TypeError] of reading [error] of
    [undefined]. *)
Theorem processBatch_answers_by_position (w : World) (batchUrl : string)
    (batch : list Solutions.RequestBatcher.item) (s : state)
    (requests responses : list value) (latency code : Z) (text : string) (results : value) :
  well_formed s ->
  batch <> [] ->
  Solutions.RequestBatcher.batchRequest batch = Fulfilled requests ->
  w (length (calls s)) batchUrl (batch_options requests) =
    (latency, Respond code text (JsonBody results)) ->
  ok_status code = true ->
  get_prop results "responses" = Fulfilled (VArr responses) ->
  Forall is_object responses ->
  let r := Solutions.RequestBatcher._processBatch w batchUrl batch s in
  result r =
    Fulfilled (map answered (take (length batch) responses) ++
               replicate (length batch - length responses) (Rejected no_entry)) /\
  calls (final r) = calls s ++ [(batchUrl, batch_options requests)].
Proof.
  intros Hwf Hne Hreq Hw Hok Hres Hobj. cbn zeta.
  destruct batch as [|it rest]; [congruence|].
  set (batch := it :: rest) in *.
  unfold Solutions.RequestBatcher._processBatch, result, final.
  change (match batch with [] => ret [] | _ :: _ => ?m end) with m.
  rewrite try_catch_run, bind_run, lift_run, Hreq, bind_run.
  fold (batch_options requests).
  rewrite (fetch_no_signal w batchUrl (batch_options requests) s latency _ eq_refl Hw).
  unfold ok, ok_status in *. cbn [status negb]. rewrite Hok. cbn [negb].
  rewrite bind_run.
  match goal with |- context [json ?resp ?s1] =>
    rewrite (json_fresh code text (JsonBody results) s1 (length (calls s))
               (well_formed_fresh s Hwf))
  end.
  cbn [fst snd ret].
  rewrite (distribute_by_position results responses 0 (length batch) Hres Hobj).
  rewrite drop_0. split; reflexivity.
Qed.





Lemma adds_spec batchDelay l b :
  Guide.RequestBatcher.queue (adds batchDelay l b) =
    Guide.RequestBatcher.queue b ++ map snd l /\
  (forall fires, Guide.RequestBatcher.timer b = Some fires ->
     Guide.RequestBatcher.timer (adds batchDelay l b) = Some fires).
Proof.
  revert b. induction l as [|[t request] rest IH]; intros b; simpl.
  - rewrite app_nil_r. auto.
  - destruct (IH (Guide.RequestBatcher.add batchDelay t request b)) as (Hq & Ht).
    unfold adds in *. rewrite Hq. simpl. rewrite <- app_assoc. split; [reflexivity|].
    intros fires Hb. apply Ht. simpl. rewrite Hb. reflexivity.
Qed.

Lemma queued_spec delay l b :
  Solutions.RequestBatcher.queue (queued delay l b) =
  Solutions.RequestBatcher.queue b ++
  map (fun c => Solutions.RequestBatcher.mkItem c.1.2 (or_empty_object c.2)) l.
Proof.
  revert b. induction l as [|[[t url] options] rest IH]; intros b; simpl.
  - rewrite app_nil_r. reflexivity.
  - unfold queued in *. rewrite IH. simpl. rewrite <- app_assoc. reflexivity.
Qed.

(** X23.  When the batch leaves.  The guide's [add] sets a timer only
    when none is pending: the timer of a batch fires [batchDelay] after
    the first request of the batch.  The solutions' [fetch] clears the
    pending timer and sets a new one: the timer fires [delay] after the
    last request.  In both, the batch taken when the timer fires holds
    the requests in the order of the calls, and leaves the queue empty
    and no timer pending. *)
Theorem batch_window_and_debounce (delay t t' : Z) (request : value)
    (rest : list (Z * value)) (url : string) (options : value)
    (earlier : list (Z * string * value)) :
  let guide := adds delay ((t, request) :: rest) Guide.RequestBatcher.create in
  let solutions :=
    queued delay (earlier ++ [(t', url, options)]) Solutions.RequestBatcher.create in
  Guide.RequestBatcher.timer guide = Some (t + delay)%Z /\
  Guide.RequestBatcher.take guide = (request :: map snd rest, Guide.RequestBatcher.create) /\
  Solutions.RequestBatcher.timeoutId solutions = Some (t' + delay)%Z /\
  Solutions.RequestBatcher.take solutions =
    (map (fun c => Solutions.RequestBatcher.mkItem c.1.2 (or_empty_object c.2))
       (earlier ++ [(t', url, options)]),
     Solutions.RequestBatcher.create).
Proof.
  cbn zeta.
  destruct (adds_spec delay rest
              (Guide.RequestBatcher.add delay t request Guide.RequestBatcher.create))
    as (Hq & Ht).
  change (adds delay ((t, request) :: rest) Guide.RequestBatcher.create)
    with (adds delay rest
            (Guide.RequestBatcher.add delay t request Guide.RequestBatcher.create)).
  split; [apply Ht; reflexivity|].
  split; [unfold Guide.RequestBatcher.take; rewrite Hq; reflexivity|].
  pose proof (queued_spec delay (earlier ++ [(t', url, options)])
                Solutions.RequestBatcher.create) as Hs.
  unfold Solutions.RequestBatcher.take. rewrite Hs. simpl.
  split; [|reflexivity].
  unfold queued. rewrite fold_left_app. reflexivity.
Qed.

Lemma processBatch_answers_by_position_witness :
  result (Solutions.RequestBatcher._processBatch two_answers "/api/batch" three_items fresh) =
  Fulfilled [Fulfilled (VNum 1);
             Rejected (JsError "Error" "not found");
             Rejected no_entry].
Proof.
  refine (proj1 (processBatch_answers_by_position two_answers "/api/batch" three_items fresh
                   [VObj [("url", VStr "/api/users/1"); ("method", VStr "GET");
                          ("body", VUndefined)];
                    VObj [("url", VStr "/api/posts"); ("method", VStr "GET");
                          ("body", VUndefined)];
                    VObj [("url", VStr "/api/comments"); ("method", VStr "GET");
                          ("body", VUndefined)]]
                   [VObj [("data", VNum 1)]; VObj [("error", VStr "not found")]]
                   20 200 "OK"
                   (VObj [("responses",
                           VArr [VObj [("data", VNum 1)];
                                 VObj [("error", VStr "not found")]])])
                   fresh_well_formed _ eq_refl eq_refl eq_refl eq_refl _)).
  - discriminate.
  - repeat constructor; eexists; reflexivity.
Defined.

(** ** [PaginatedFeed] and [InfiniteScroll] *)

Section Feed.

Variable less_than : value -> Z -> bool.
Variable apiUrl : string.
Variable pageSize : Z.

Hypothesis less_than_numbers : forall n m, less_than (VNum n) m = (n <? m)%Z.

Abbreviation run := (Solutions.PaginatedFeed.run less_than apiUrl pageSize).
Abbreviation step := (Solutions.PaginatedFeed.step less_than apiUrl pageSize).
Abbreviation page_url := (Solutions.PaginatedFeed.page_url apiUrl pageSize).
Abbreviation loadNext := (Solutions.PaginatedFeed.loadNext apiUrl pageSize).
Abbreviation on_answer := (Solutions.PaginatedFeed.on_answer less_than pageSize).

Lemma load_page (f : Solutions.PaginatedFeed.feed) (p : list value) :
  idle f -> p <> [] ->
  let f' := on_answer (length (Solutions.PaginatedFeed.loads f)) (page_answer p) (loadNext f) in
  Solutions.PaginatedFeed._currentPage f' = S (Solutions.PaginatedFeed._currentPage f) /\
  Solutions.PaginatedFeed._items f' = Solutions.PaginatedFeed._items f ++ p /\
  Solutions.PaginatedFeed._isLoading f' = false /\
  Solutions.PaginatedFeed._hasMore f' = negb (Z.of_nat (length p) <? pageSize)%Z /\
  Solutions.PaginatedFeed.requested f' =
    Solutions.PaginatedFeed.requested f ++ [page_url (S (Solutions.PaginatedFeed._currentPage f))] /\
  length (Solutions.PaginatedFeed.loads f') = S (length (Solutions.PaginatedFeed.loads f)).
Proof.
  intros [Hload Hmore] Hp. cbn zeta.
  unfold Solutions.PaginatedFeed.loadNext. rewrite Hload, Hmore. cbn [orb negb].
  unfold Solutions.PaginatedFeed.on_answer. cbn [Solutions.PaginatedFeed.loads].
  rewrite lookup_app_r by lia. rewrite Nat.sub_diag. cbn [lookup list_lookup].
  unfold Solutions.PaginatedFeed.received, page_answer.
  cbn [negb andb Z.leb Z.compare Pos.compare Pos.compare_cont ok_status get_prop iterate
       String.eqb Ascii.eqb Bool.eqb].
  destruct p as [|x p]; [congruence|].
  assert (Hz : Solutions.is_zero (VNum (Z.of_nat (length (x :: p)))) = false).
  { unfold Solutions.is_zero. destruct (Z.of_nat (length (x :: p))) eqn:E; try reflexivity.
    simpl in E. lia. }
  rewrite Hz, less_than_numbers.
  cbn [Solutions.PaginatedFeed._currentPage Solutions.PaginatedFeed._items
       Solutions.PaginatedFeed._isLoading Solutions.PaginatedFeed._hasMore
       Solutions.PaginatedFeed.requested Solutions.PaginatedFeed.loads].
  rewrite length_insert, length_app. cbn [length].
  destruct (Z.of_nat (S (length p)) <? pageSize)%Z; cbn; rewrite ?Hmore;
    repeat split; lia.
Qed.

Lemma loading_run (pages : list (list value)) (f : Solutions.PaginatedFeed.feed) :
  idle f ->
  Forall (full pageSize) pages ->
  let f' := run (loading (length (Solutions.PaginatedFeed.loads f)) pages) f in
  Solutions.PaginatedFeed._currentPage f' =
    Solutions.PaginatedFeed._currentPage f + length pages /\
  Solutions.PaginatedFeed._items f' = Solutions.PaginatedFeed._items f ++ concat pages /\
  idle f' /\
  Solutions.PaginatedFeed.requested f' =
    Solutions.PaginatedFeed.requested f ++
    map page_url (seq (S (Solutions.PaginatedFeed._currentPage f)) (length pages)).
Proof.
  intros Hidle Hfull. revert f Hidle.
  induction Hfull as [|p rest [Hp Hsize] Hrest IH]; intros f Hidle; cbn zeta.
  - simpl. rewrite Nat.add_0_r, !app_nil_r. auto.
  - destruct (load_page f p Hidle Hp) as (Hpage & Hitems & Hload & Hmore & Hreq & Hlen).
    cbn zeta in *.
    set (f1 := on_answer (length (Solutions.PaginatedFeed.loads f)) (page_answer p)
                 (loadNext f)) in *.
    assert (Hidle1 : idle f1).
    { split; [exact Hload|]. rewrite Hmore.
      replace (Z.of_nat (length p) <? pageSize)%Z with false by lia. reflexivity. }
    specialize (IH f1 Hidle1). cbn zeta in IH. rewrite Hlen in IH.
    change (run (loading (length (Solutions.PaginatedFeed.loads f)) (p :: rest)) f)
      with (run (loading (S (length (Solutions.PaginatedFeed.loads f))) rest) f1).
    destruct IH as (IHpage & IHitems & IHidle & IHreq).
    rewrite IHpage, IHitems, IHreq, Hpage, Hitems, Hreq. simpl.
    rewrite <- !app_assoc.
    split; [lia|]. split; [reflexivity|]. split; [exact IHidle|]. reflexivity.
Qed.

(** X24.  [PaginatedFeed] loads the pages in order.  When [loadNext()]
    is called again and again, each call after the answer to the one
    before, and page after page comes back non-empty and full, the feed
    asks for the pages 1, 2, 3, ... once each, [items] is the pages joined
    in that order, [currentPage] is their number, and more is still to
    come. *)
Theorem feed_accumulates_pages (pages : list (list value)) :
  Forall (full pageSize) pages ->
  let f := run (loading 0 pages) Solutions.PaginatedFeed.create in
  Solutions.PaginatedFeed._items f = concat pages /\
  Solutions.PaginatedFeed._currentPage f = length pages /\
  Solutions.PaginatedFeed._hasMore f = true /\
  Solutions.PaginatedFeed._isLoading f = false /\
  Solutions.PaginatedFeed.requested f = map page_url (seq 1 (length pages)).
Proof.
  intros Hfull.
  destruct (loading_run pages Solutions.PaginatedFeed.create (conj eq_refl eq_refl) Hfull)
    as (Hpage & Hitems & [Hload Hmore] & Hreq).
  cbn zeta. auto.
Qed.

Lemma orderly_create : orderly Solutions.PaginatedFeed.create.
Proof. split; intros; discriminate. Qed.

Lemma orderly_step (f : Solutions.PaginatedFeed.feed) (ev : Solutions.PaginatedFeed.event) :
  no_reset ev -> orderly f -> orderly (step f ev).
Proof.
  intros Hev [Hflag Hone]. destruct ev as [| |i ans]; [|congruence|]; simpl.
  - unfold Solutions.PaginatedFeed.loadNext.
    destruct (Solutions.PaginatedFeed._isLoading f) eqn:Hload; cbn [orb].
    + split; cbn [Solutions.PaginatedFeed.loads Solutions.PaginatedFeed._isLoading
                  Solutions.PaginatedFeed._hasMore Solutions.PaginatedFeed._currentPage].
      * intros i p Hi. apply lookup_app_Some in Hi as [Hi|[_ Hi]].
        -- destruct (Hflag i p Hi) as (_ & ? & ?); auto.
        -- destruct (i - _); discriminate.
      * intros i j p q Hi Hj.
        apply lookup_app_Some in Hi as [Hi|[_ Hi]]; [|destruct (i - _); discriminate].
        apply lookup_app_Some in Hj as [Hj|[_ Hj]]; [|destruct (j - _); discriminate].
        eauto.
    + assert (Hnone : forall i p, Solutions.PaginatedFeed.loads f !! i <>
                                  Some (Solutions.PaginatedFeed.Loading p)).
      { intros i p Hi. destruct (Hflag i p Hi) as [H _]. discriminate. }
      destruct (Solutions.PaginatedFeed._hasMore f) eqn:Hmore; cbn [negb];
        split; cbn [Solutions.PaginatedFeed.loads Solutions.PaginatedFeed._isLoading
                    Solutions.PaginatedFeed._hasMore Solutions.PaginatedFeed._currentPage].
      * intros i p Hi. apply lookup_app_Some in Hi as [Hi|[_ Hi]]; [destruct (Hnone i p Hi)|].
        destruct (i - _) as [|k]; [|destruct k; discriminate].
        injection Hi as <-. auto.
      * intros i j p q Hi Hj.
        apply lookup_app_Some in Hi as [Hi|[Hil Hi]]; [destruct (Hnone i p Hi)|].
        apply lookup_app_Some in Hj as [Hj|[Hjl Hj]]; [destruct (Hnone j q Hj)|].
        destruct (i - _) as [|k] eqn:Ei; [|destruct k; discriminate].
        destruct (j - _) as [|k] eqn:Ej; [|destruct k; discriminate].
        lia.
      * intros i p Hi. apply lookup_app_Some in Hi as [Hi|[_ Hi]]; [destruct (Hnone i p Hi)|].
        destruct (i - _) as [|k]; [|destruct k]; discriminate.
      * intros i j p q Hi. apply lookup_app_Some in Hi as [Hi|[_ Hi]];
          [destruct (Hnone i p Hi)|].
        destruct (i - _) as [|k]; [|destruct k]; discriminate.
  - unfold Solutions.PaginatedFeed.on_answer.
    destruct (Solutions.PaginatedFeed.loads f !! i) as [[p|o]|] eqn:Hi;
      [|split; assumption|split; assumption].
    destruct (Solutions.PaginatedFeed.received less_than pageSize p ans f)
      as [o [[page items] more]].
    assert (Hnone : forall j q,
              <[i := Solutions.PaginatedFeed.Finished o]> (Solutions.PaginatedFeed.loads f)
                !! j <> Some (Solutions.PaginatedFeed.Loading q)).
    { intros j q Hj. destruct (decide (i = j)) as [<-|Hne].
      - rewrite list_lookup_insert_eq in Hj by (eapply lookup_lt_Some; eauto). discriminate.
      - rewrite list_lookup_insert_ne in Hj by exact Hne.
        apply Hne. apply (Hone i j p q Hi Hj). }
    split; cbn [Solutions.PaginatedFeed.loads].
    + intros j q Hj. destruct (Hnone j q Hj).
    + intros j k q r Hj. destruct (Hnone j q Hj).
Qed.

Lemma orderly_run (events : list Solutions.PaginatedFeed.event)
    (f : Solutions.PaginatedFeed.feed) :
  Forall no_reset events -> orderly f -> orderly (run events f).
Proof.
  intros Hev. revert f. induction Hev as [|ev rest Hev Hrest IH]; intros f Hf; [exact Hf|].
  apply IH, orderly_step; assumption.
Qed.

(** X25.  [PaginatedFeed] never has two requests in flight.  However the
    calls of [loadNext()] and the answers are interleaved, as long as
    [reset()] is not called, at most one call waits for an answer, and
    while one does, the page it asked for is the one after [currentPage];
    a call of [loadNext()] made in the meantime returns at once, without
    a request and without a change of what the feed shows. *)
Theorem feed_loads_one_page_at_a_time (events : list Solutions.PaginatedFeed.event) :
  Forall no_reset events ->
  let f := run events Solutions.PaginatedFeed.create in
  orderly f /\
  (forall i p,
     Solutions.PaginatedFeed.loads f !! i = Some (Solutions.PaginatedFeed.Loading p) ->
     shown (loadNext f) = shown f /\
     Solutions.PaginatedFeed.loads (loadNext f) =
     Solutions.PaginatedFeed.loads f ++
     [Solutions.PaginatedFeed.Finished (Fulfilled VUndefined)]).
Proof.
  intros Hev. cbn zeta.
  pose proof (orderly_run events _ Hev orderly_create) as Hord.
  split; [exact Hord|]. intros i p Hi.
  destruct (loading_is_flagged _ Hord i p Hi) as (Hload & _).
  unfold Solutions.PaginatedFeed.loadNext, shown. rewrite Hload. split; reflexivity.
Qed.

Lemma last_page (f : Solutions.PaginatedFeed.feed) (p : list value) :
  idle f ->
  (Z.of_nat (length p) < pageSize)%Z \/ p = [] ->
  (forall i q,
     Solutions.PaginatedFeed.loads f !! i <> Some (Solutions.PaginatedFeed.Loading q)) ->
  let f' := on_answer (length (Solutions.PaginatedFeed.loads f)) (page_answer p) (loadNext f) in
  exhausted f' /\
  Solutions.PaginatedFeed._items f' = Solutions.PaginatedFeed._items f ++ p /\
  Solutions.PaginatedFeed._currentPage f' =
    (if decide (p = []) then Solutions.PaginatedFeed._currentPage f
     else S (Solutions.PaginatedFeed._currentPage f)) /\
  Solutions.PaginatedFeed.requested f' =
    Solutions.PaginatedFeed.requested f ++
    [page_url (S (Solutions.PaginatedFeed._currentPage f))].
Proof.
  intros Hidle Hshort Hnone. cbn zeta.
  assert (Hloads : forall o page items more i q,
            Solutions.PaginatedFeed.loads
              (Solutions.PaginatedFeed.mkFeed page items false more
                 (<[length (Solutions.PaginatedFeed.loads f) :=
                      Solutions.PaginatedFeed.Finished o]>
                    (Solutions.PaginatedFeed.loads f ++
                     [Solutions.PaginatedFeed.Loading
                        (S (Solutions.PaginatedFeed._currentPage f))]))
                 (Solutions.PaginatedFeed.requested f ++
                  [page_url (S (Solutions.PaginatedFeed._currentPage f))])) !! i <>
            Some (Solutions.PaginatedFeed.Loading q)).
  { intros o page items more i q. cbn [Solutions.PaginatedFeed.loads].
    destruct (decide (length (Solutions.PaginatedFeed.loads f) = i)) as [<-|Hne].
    - rewrite list_lookup_insert_eq by (rewrite length_app; simpl; lia). discriminate.
    - rewrite list_lookup_insert_ne by exact Hne. intros Hi.
      apply lookup_app_Some in Hi as [Hi|[Hge Hi]]; [destruct (Hnone i q Hi)|].
      destruct (i - _) as [|k] eqn:E; [lia|destruct k; discriminate]. }
  destruct p as [|x p].
  - destruct Hidle as [Hload Hmore].
    unfold Solutions.PaginatedFeed.loadNext. rewrite Hload, Hmore. cbn [orb negb].
    unfold Solutions.PaginatedFeed.on_answer. cbn [Solutions.PaginatedFeed.loads].
    rewrite lookup_app_r by lia. rewrite Nat.sub_diag. cbn [lookup list_lookup].
    cbn. rewrite app_nil_r. repeat split. apply Hloads.
  - destruct Hshort as [Hshort|]; [|discriminate].
    destruct (load_page f (x :: p) Hidle ltac:(discriminate))
      as (Hpage & Hitems & _ & Hmore & Hreq & _).
    cbn zeta in *. rewrite decide_False by discriminate.
    split; [|auto]. split.
    + rewrite Hmore. replace (Z.of_nat (length (x :: p)) <? pageSize)%Z with true by lia.
      reflexivity.
    + destruct Hidle as [Hload Hmore'].
      unfold Solutions.PaginatedFeed.loadNext. rewrite Hload, Hmore'. cbn [orb negb].
      unfold Solutions.PaginatedFeed.on_answer. cbn [Solutions.PaginatedFeed.loads].
      rewrite lookup_app_r by lia. rewrite Nat.sub_diag. cbn [lookup list_lookup].
      destruct (Solutions.PaginatedFeed.received _ _ _ _ _) as [o [[page items] more]].
      apply Hloads.
Qed.

Lemma exhausted_step (f : Solutions.PaginatedFeed.feed) (ev : Solutions.PaginatedFeed.event) :
  no_reset ev -> exhausted f -> exhausted (step f ev) /\ shown (step f ev) = shown f.
Proof.
  intros Hev [Hmore Hnone]. destruct ev as [| |i ans]; [|congruence|]; simpl.
  - unfold Solutions.PaginatedFeed.loadNext. rewrite Hmore, orb_true_r.
    split; [|reflexivity]. split; [reflexivity|].
    intros i p. cbn [Solutions.PaginatedFeed.loads]. intros Hi.
    apply lookup_app_Some in Hi as [Hi|[_ Hi]]; [destruct (Hnone i p Hi)|].
    destruct (i - _) as [|k]; [|destruct k]; discriminate.
  - unfold Solutions.PaginatedFeed.on_answer.
    destruct (Solutions.PaginatedFeed.loads f !! i) as [[p|o]|] eqn:Hi;
      [destruct (Hnone i p Hi)| |]; (split; [split; assumption|reflexivity]).
Qed.

(** X26.  The end of the data.  A page that comes back empty adds
    nothing and leaves [currentPage] as it was; a page with fewer
    elements than [pageSize] is added and counted.  Either sets
    [hasMore] to false, and from then on, until [reset()] is called,
    calls of [loadNext()] make no request and [items], [currentPage] and
    [hasMore] stay as they are. *)
Theorem feed_stops_at_the_last_page (f : Solutions.PaginatedFeed.feed) (p : list value)
    (events : list Solutions.PaginatedFeed.event) :
  idle f ->
  (forall i q,
     Solutions.PaginatedFeed.loads f !! i <> Some (Solutions.PaginatedFeed.Loading q)) ->
  (Z.of_nat (length p) < pageSize)%Z \/ p = [] ->
  Forall no_reset events ->
  let f' := on_answer (length (Solutions.PaginatedFeed.loads f)) (page_answer p) (loadNext f) in
  Solutions.PaginatedFeed._hasMore f' = false /\
  Solutions.PaginatedFeed._items f' = Solutions.PaginatedFeed._items f ++ p /\
  Solutions.PaginatedFeed._currentPage f' =
    (if decide (p = []) then Solutions.PaginatedFeed._currentPage f
     else S (Solutions.PaginatedFeed._currentPage f)) /\
  Solutions.PaginatedFeed.requested f' =
    Solutions.PaginatedFeed.requested f ++
    [page_url (S (Solutions.PaginatedFeed._currentPage f))] /\
  Solutions.PaginatedFeed._hasMore (run events f') = false /\
  shown (run events f') = shown f'.
Proof.
  intros Hidle Hnone Hshort Hev. cbn zeta.
  destruct (last_page f p Hidle Hshort Hnone) as (Hex & Hitems & Hpage & Hreq).
  cbn zeta in *.
  set (f' := on_answer _ _ _) in *.
  split; [apply Hex|]. split; [exact Hitems|]. split; [exact Hpage|]. split; [exact Hreq|].
  clear Hitems Hpage Hreq. revert Hex. generalize f'. clear f'.
  induction Hev as [|ev rest Hev Hrest IH]; intros f' Hex; [split; [apply Hex|reflexivity]|].
  destruct (exhausted_step f' ev Hev Hex) as [Hex' Hshown].
  destruct (IH _ Hex') as [Hmore Hsame].
  simpl. split; [exact Hmore|]. rewrite <- Hshown. exact Hsame.
Qed.

Lemma insert_last {A} (l : list A) (x y : A) : <[length l := y]> (l ++ [x]) = l ++ [y].
Proof. induction l as [|a l IH]; simpl; [reflexivity|]. f_equal. exact IH. Qed.

Lemma loadNext_idle (f : Solutions.PaginatedFeed.feed) :
  idle f ->
  loadNext f =
  Solutions.PaginatedFeed.mkFeed (Solutions.PaginatedFeed._currentPage f)
    (Solutions.PaginatedFeed._items f) true true
    (Solutions.PaginatedFeed.loads f ++
     [Solutions.PaginatedFeed.Loading (S (Solutions.PaginatedFeed._currentPage f))])
    (Solutions.PaginatedFeed.requested f ++
     [page_url (S (Solutions.PaginatedFeed._currentPage f))]).
Proof.
  intros [Hload Hmore]. unfold Solutions.PaginatedFeed.loadNext.
  rewrite Hload, Hmore. reflexivity.
Qed.

Lemma on_answer_pending (ans : answer) (page : nat) (shown_items : list value)
    (more : bool) (l : list Solutions.PaginatedFeed.load) (p : nat) (req : list string) :
  on_answer (length l) ans
    (Solutions.PaginatedFeed.mkFeed page shown_items true more
       (l ++ [Solutions.PaginatedFeed.Loading p]) req) =
  let r := Solutions.PaginatedFeed.received less_than pageSize p ans
             (Solutions.PaginatedFeed.mkFeed page shown_items true more
                (l ++ [Solutions.PaginatedFeed.Loading p]) req) in
  Solutions.PaginatedFeed.mkFeed r.2.1.1 r.2.1.2 false r.2.2
    (l ++ [Solutions.PaginatedFeed.Finished r.1]) req.
Proof.
  unfold Solutions.PaginatedFeed.on_answer. cbn [Solutions.PaginatedFeed.loads].
  rewrite lookup_app_r by lia. rewrite Nat.sub_diag. cbn [lookup list_lookup].
  destruct (Solutions.PaginatedFeed.received _ _ _ _ _) as [o [[page' items'] more']].
  cbn zeta. cbn [fst snd Solutions.PaginatedFeed.requested]. rewrite insert_last.
  reflexivity.
Qed.

(** X27.  A load of [PaginatedFeed] that fails (the transport fails, the
    status is not a success, or the body is not JSON) rejects, leaves
    [items], [currentPage] and [hasMore] as they were and resets
    [isLoading]: the next [loadNext()] asks for the same page again. *)
Theorem failed_page_is_asked_again (f : Solutions.PaginatedFeed.feed) (ans : answer) :
  idle f ->
  failed_answer ans ->
  let f' := on_answer (length (Solutions.PaginatedFeed.loads f)) ans (loadNext f) in
  Solutions.PaginatedFeed._currentPage f' = Solutions.PaginatedFeed._currentPage f /\
  Solutions.PaginatedFeed._items f' = Solutions.PaginatedFeed._items f /\
  idle f' /\
  (exists e, Solutions.PaginatedFeed.loads f' =
             Solutions.PaginatedFeed.loads f ++
             [Solutions.PaginatedFeed.Finished (Rejected e)]) /\
  Solutions.PaginatedFeed.requested (loadNext f') =
    Solutions.PaginatedFeed.requested f ++
    [page_url (S (Solutions.PaginatedFeed._currentPage f));
     page_url (S (Solutions.PaginatedFeed._currentPage f))].
Proof.
  intros Hidle Hans. cbn zeta.
  rewrite (loadNext_idle f Hidle), on_answer_pending. cbn zeta.
  assert (Hrec : exists e,
            Solutions.PaginatedFeed.received less_than pageSize
              (S (Solutions.PaginatedFeed._currentPage f)) ans
              (Solutions.PaginatedFeed.mkFeed (Solutions.PaginatedFeed._currentPage f)
                 (Solutions.PaginatedFeed._items f) true true
                 (Solutions.PaginatedFeed.loads f ++
                  [Solutions.PaginatedFeed.Loading
                     (S (Solutions.PaginatedFeed._currentPage f))])
                 (Solutions.PaginatedFeed.requested f ++
                  [page_url (S (Solutions.PaginatedFeed._currentPage f))])) =
            (Rejected e, (Solutions.PaginatedFeed._currentPage f,
                          Solutions.PaginatedFeed._items f, true))).
  { unfold Solutions.PaginatedFeed.received. destruct ans as [msg|code text b]; [eauto|].
    simpl in Hans. unfold ok_status in Hans.
    destruct ((200 <=? code) && (code <=? 299))%Z; cbn [negb]; [|eauto].
    destruct Hans as [Hans|[msg ->]]; [discriminate|eauto]. }
  destruct Hrec as [e ->]. cbn [fst snd].
  rewrite loadNext_idle by (split; reflexivity).
  cbn [Solutions.PaginatedFeed._isLoading Solutions.PaginatedFeed._hasMore
       Solutions.PaginatedFeed._currentPage Solutions.PaginatedFeed._items
       Solutions.PaginatedFeed.loads Solutions.PaginatedFeed.requested].
  rewrite <- app_assoc.
  split; [reflexivity|]. split; [reflexivity|]. split; [split; reflexivity|].
  split; [eauto|reflexivity].
Qed.

(** X28.  [InfiniteScroll] of the pattern sheet counts the page before
    it asks for it.  After a load that failed, [page] stays advanced and
    the next [loadNext()] asks for the page after the one that failed:
    the failed page is never asked for again. *)
Theorem failed_page_is_skipped (g : Patterns.InfiniteScroll.scroll) (ans : answer) :
  Patterns.InfiniteScroll.isLoading g = false ->
  Patterns.InfiniteScroll.hasMore g = true ->
  unreadable ans ->
  let g' := Patterns.InfiniteScroll.on_answer (length (Patterns.InfiniteScroll.loads g)) ans
              (Patterns.InfiniteScroll.loadNext apiUrl pageSize g) in
  Patterns.InfiniteScroll.page g' = S (Patterns.InfiniteScroll.page g) /\
  Patterns.InfiniteScroll.items g' = Patterns.InfiniteScroll.items g /\
  Patterns.InfiniteScroll.isLoading g' = false /\
  Patterns.InfiniteScroll.hasMore g' = true /\
  Patterns.InfiniteScroll.requested (Patterns.InfiniteScroll.loadNext apiUrl pageSize g') =
    Patterns.InfiniteScroll.requested g ++
    [Patterns.InfiniteScroll.page_url apiUrl pageSize (S (Patterns.InfiniteScroll.page g));
     Patterns.InfiniteScroll.page_url apiUrl pageSize
       (S (S (Patterns.InfiniteScroll.page g)))].
Proof.
  intros Hload Hmore Hans. cbn zeta.
  assert (Hstart : Patterns.InfiniteScroll.loadNext apiUrl pageSize g =
                   Patterns.InfiniteScroll.mkScroll (S (Patterns.InfiniteScroll.page g))
                     (Patterns.InfiniteScroll.items g) true true
                     (Patterns.InfiniteScroll.loads g ++ [Patterns.InfiniteScroll.Loading])
                     (Patterns.InfiniteScroll.requested g ++
                      [Patterns.InfiniteScroll.page_url apiUrl pageSize
                         (S (Patterns.InfiniteScroll.page g))])).
  { unfold Patterns.InfiniteScroll.loadNext. rewrite Hload, Hmore. reflexivity. }
  rewrite Hstart.
  unfold Patterns.InfiniteScroll.on_answer. cbn [Patterns.InfiniteScroll.loads].
  rewrite lookup_app_r by lia. rewrite Nat.sub_diag. cbn [lookup list_lookup].
  unfold Patterns.InfiniteScroll.received.
  destruct ans as [msg|code text [data|msg]]; [|destruct Hans|];
    unfold Patterns.InfiniteScroll.loadNext;
    cbn [Patterns.InfiniteScroll.isLoading Patterns.InfiniteScroll.hasMore
         Patterns.InfiniteScroll.page Patterns.InfiniteScroll.items
         Patterns.InfiniteScroll.loads Patterns.InfiniteScroll.requested orb negb];
    rewrite <- app_assoc; repeat split.
Qed.

Lemma received_page (nextPage : nat) (p : list value) (f : Solutions.PaginatedFeed.feed) :
  p <> [] ->
  Solutions.PaginatedFeed.received less_than pageSize nextPage (page_answer p) f =
  (Fulfilled VUndefined,
   (nextPage, Solutions.PaginatedFeed._items f ++ p,
    if (Z.of_nat (length p) <? pageSize)%Z then false
    else Solutions.PaginatedFeed._hasMore f)).
Proof.
  intros Hp. unfold Solutions.PaginatedFeed.received, page_answer.
  cbn [negb andb Z.leb Z.compare Pos.compare Pos.compare_cont get_prop iterate
       String.eqb Ascii.eqb Bool.eqb].
  assert (Hz : Solutions.is_zero (VNum (Z.of_nat (length p))) = false).
  { unfold Solutions.is_zero. destruct p; [congruence|].
    destruct (Z.of_nat (length (v :: p))) eqn:E; try reflexivity. simpl in E. lia. }
  rewrite Hz, less_than_numbers. reflexivity.
Qed.

(** X29.  [reset()] does not cancel a load in flight.  After
    [loadNext()], [reset()], [loadNext()], two requests for page 1 are
    pending, and when both are answered with the page, [items] holds the
    page twice while [currentPage] is 1. *)
Theorem reset_does_not_cancel_a_load (p : list value) :
  p <> [] ->
  let f := run [Solutions.PaginatedFeed.LoadNext;
                Solutions.PaginatedFeed.Reset;
                Solutions.PaginatedFeed.LoadNext;
                Solutions.PaginatedFeed.Answer 0 (page_answer p);
                Solutions.PaginatedFeed.Answer 1 (page_answer p)]
             Solutions.PaginatedFeed.create in
  Solutions.PaginatedFeed.requested f = [page_url 1; page_url 1] /\
  Solutions.PaginatedFeed._items f = p ++ p /\
  Solutions.PaginatedFeed._currentPage f = 1.
Proof.
  intros Hp. cbn zeta.
  change (run [Solutions.PaginatedFeed.LoadNext; Solutions.PaginatedFeed.Reset;
               Solutions.PaginatedFeed.LoadNext;
               Solutions.PaginatedFeed.Answer 0 (page_answer p);
               Solutions.PaginatedFeed.Answer 1 (page_answer p)]
            Solutions.PaginatedFeed.create)
    with (on_answer 1 (page_answer p)
            (on_answer 0 (page_answer p)
               (Solutions.PaginatedFeed.mkFeed 0 [] true true
                  [Solutions.PaginatedFeed.Loading 1; Solutions.PaginatedFeed.Loading 1]
                  [page_url 1; page_url 1]))).
  assert (Hfirst : on_answer 0 (page_answer p)
                     (Solutions.PaginatedFeed.mkFeed 0 [] true true
                        [Solutions.PaginatedFeed.Loading 1; Solutions.PaginatedFeed.Loading 1]
                        [page_url 1; page_url 1]) =
                   Solutions.PaginatedFeed.mkFeed 1 p false
                     (if (Z.of_nat (length p) <? pageSize)%Z then false else true)
                     [Solutions.PaginatedFeed.Finished (Fulfilled VUndefined);
                      Solutions.PaginatedFeed.Loading 1]
                     [page_url 1; page_url 1]).
  { unfold Solutions.PaginatedFeed.on_answer.
    cbn [Solutions.PaginatedFeed.loads lookup list_lookup].
    rewrite (received_page 1 p _ Hp). reflexivity. }
  rewrite Hfirst.
  unfold Solutions.PaginatedFeed.on_answer.
  cbn [Solutions.PaginatedFeed.loads lookup list_lookup].
  rewrite (received_page 1 p _ Hp). repeat split.
Qed.

End Feed.

Lemma feed_accumulates_pages_witness :
  let f := Solutions.PaginatedFeed.run number_less_than "/api/posts" 2
             (loading 0 [[VNum 1; VNum 2]; [VNum 3; VNum 4]])
             Solutions.PaginatedFeed.create in
  Solutions.PaginatedFeed._items f = [VNum 1; VNum 2; VNum 3; VNum 4] /\
  Solutions.PaginatedFeed._currentPage f = 2 /\
  Solutions.PaginatedFeed.requested f =
    ["/api/posts?page=1&limit=2"; "/api/posts?page=2&limit=2"].
Proof.
  intros f.
  destruct (feed_accumulates_pages number_less_than "/api/posts" 2
              (fun n m => eq_refl) [[VNum 1; VNum 2]; [VNum 3; VNum 4]])
    as (Hitems & Hpage & _ & _ & Hreq).
  { repeat constructor; (discriminate || (simpl; lia)). }
  exact (conj Hitems (conj Hpage Hreq)).
Defined.

Lemma feed_loads_one_page_at_a_time_witness :
  let f := Solutions.PaginatedFeed.run number_less_than "/api/posts" 2
             [Solutions.PaginatedFeed.LoadNext] Solutions.PaginatedFeed.create in
  Solutions.PaginatedFeed.requested
    (Solutions.PaginatedFeed.loadNext "/api/posts" 2 f) =
  ["/api/posts?page=1&limit=2"].
Proof.
  intros f.
  destruct (feed_loads_one_page_at_a_time number_less_than "/api/posts" 2
              [Solutions.PaginatedFeed.LoadNext]) as (_ & Hnext).
  { repeat constructor. discriminate. }
  destruct (Hnext 0 1 eq_refl) as (Hshown & _).
  exact (f_equal snd Hshown).
Defined.

Lemma feed_stops_at_the_last_page_witness :
  let f := Solutions.PaginatedFeed.run number_less_than "/api/posts" 2
             [Solutions.PaginatedFeed.LoadNext;
              Solutions.PaginatedFeed.Answer 0 (page_answer [VNum 1]);
              Solutions.PaginatedFeed.LoadNext;
              Solutions.PaginatedFeed.LoadNext]
             Solutions.PaginatedFeed.create in
  Solutions.PaginatedFeed._hasMore f = false /\
  shown f = (1, [VNum 1], ["/api/posts?page=1&limit=2"]).
Proof.
  intros f.
  destruct (feed_stops_at_the_last_page number_less_than "/api/posts" 2
              (fun n m => eq_refl) Solutions.PaginatedFeed.create [VNum 1]
              [Solutions.PaginatedFeed.LoadNext; Solutions.PaginatedFeed.LoadNext])
    as (_ & _ & _ & _ & Hmore & Hshown).
  - split; reflexivity.
  - intros i q. destruct i; discriminate.
  - left. simpl. lia.
  - repeat constructor; discriminate.
  - split; [exact Hmore|]. exact Hshown.
Defined.

Lemma failed_page_is_asked_again_witness :
  let f := Solutions.PaginatedFeed.run number_less_than "/api/posts" 2
             [Solutions.PaginatedFeed.LoadNext;
              Solutions.PaginatedFeed.Answer 0 (NetworkError "Failed to fetch");
              Solutions.PaginatedFeed.LoadNext]
             Solutions.PaginatedFeed.create in
  Solutions.PaginatedFeed.requested f =
  ["/api/posts?page=1&limit=2"; "/api/posts?page=1&limit=2"].
Proof.
  intros f.
  destruct (failed_page_is_asked_again number_less_than "/api/posts" 2
              Solutions.PaginatedFeed.create (NetworkError "Failed to fetch"))
    as (_ & _ & _ & _ & Hreq).
  - split; reflexivity.
  - exact I.
  - exact Hreq.
Defined.

Lemma failed_page_is_skipped_witness :
  let g := Patterns.InfiniteScroll.run "/api/posts" 2
             [Patterns.InfiniteScroll.LoadNext;
              Patterns.InfiniteScroll.Answer 0 (NetworkError "Failed to fetch");
              Patterns.InfiniteScroll.LoadNext]
             Patterns.InfiniteScroll.create in
  Patterns.InfiniteScroll.requested g =
  ["/api/posts?page=1&limit=2"; "/api/posts?page=2&limit=2"].
Proof.
  intros g.
  destruct (failed_page_is_skipped "/api/posts" 2 Patterns.InfiniteScroll.create
              (NetworkError "Failed to fetch") eq_refl eq_refl I)
    as (_ & _ & _ & _ & Hreq).
  exact Hreq.
Defined.

Lemma reset_does_not_cancel_a_load_witness :
  let f := Solutions.PaginatedFeed.run number_less_than "/api/posts" 2
             [Solutions.PaginatedFeed.LoadNext;
              Solutions.PaginatedFeed.Reset;
              Solutions.PaginatedFeed.LoadNext;
              Solutions.PaginatedFeed.Answer 0 (page_answer [VNum 1; VNum 2]);
              Solutions.PaginatedFeed.Answer 1 (page_answer [VNum 1; VNum 2])]
             Solutions.PaginatedFeed.create in
  Solutions.PaginatedFeed._items f = [VNum 1; VNum 2; VNum 1; VNum 2].
Proof.
  intros f.
  destruct (reset_does_not_cancel_a_load number_less_than "/api/posts" 2
              (fun n m => eq_refl) [VNum 1; VNum 2]) as (_ & Hitems & _).
  - discriminate.
  - exact Hitems.
Defined.

(** ** [DebouncedSearch] *)

Section Search.

Variable apiUrl : string.

Import Solutions.DebouncedSearch.
#[local] Abbreviation run := (Solutions.DebouncedSearch.run apiUrl).
#[local] Abbreviation step := (Solutions.DebouncedSearch.step apiUrl).































End Search.


